(** * Argus: the derpprobe supervision and interpretation engine

    A shallow embedding of [lib/derpprobe.ts] and proofs about it.

    The repository carries two revisions of [lib/derpprobe.ts]:
    - the calibrated revision (latency calibrator, rolling history, the
      leniency rule "every node healthy"), embedded in [Module LogEngine];
    - the raw-output revision (structured-output fallback parser, the
      leniency rule [isIpv6OnlyProbeFailure]), embedded in
      [Module RawEngine].
    The functions that are textually identical in both revisions
    ([parseArgs], [hasOnceFlag], [resolveTimeoutMs], [stripLogPrefix],
    [normalizeProbeMessage], [regionSortValue], the sort comparator, the
    process supervisor) are embedded once.

    Conventions of the embedding
    - a JavaScript string is the list of its UTF-16 code units ([list N]);
    - a JavaScript [number] is the rational ([Q]) it denotes; counters,
      exit codes and clock readings are integers ([Z]).  [Number] of a
      numeral, a number literal and the division of the latency pattern
      round to the nearest binary64 number ([toDouble], from the
      definitions of the Standard Library's [SpecFloat]), and so do the
      sum and the quotient of the rolling average; [Math.round] and
      [toFixed(2)] round the value they are given half up, as the
      runtime does.  The values the engine stores (latencies, loss
      percentages, averages) are whole numbers or numbers of two
      decimals: such a number is held as the rational [k/100] and stands
      for the binary64 number nearest to it; the subtraction of the
      calibrator, the success rate and the mean of the summary are
      taken exactly;
    - [undefined] is [None];
    - a [Map] that is iterated is an association list in insertion order;
      a [Map] that is only looked up is a [gmap];
    - functions of the JavaScript runtime that the engine calls but that
      cannot be written down here ([localeCompare], [toLowerCase],
      [Number] on arbitrary text, [JSON.parse], [JSON.stringify], the
      rendering of a number in a template literal) are the fields of the
      class [Runtime]. *)

From stdpp Require Import gmap.
From Stdlib Require Import ZArith NArith QArith Qround Qminmax List Bool Lia
  Sorted Permutation Lqa.
From Stdlib Require String Ascii DecimalString SpecFloat.
Import ListNotations.
Import String.StringSyntax.

Close Scope Q_scope.
Local Open Scope Z_scope.

(** ** JavaScript strings *)

Notation jsstring := (list N).

(** [lit "abc"] is the string of an ASCII literal of the source. *)
Definition lit (s : String.string) : jsstring :=
  map Ascii.N_of_ascii (String.list_ascii_of_string s).
Arguments lit s%_string_scope.

Fixpoint streq (a b : jsstring) : bool :=
  match a, b with
  | [], [] => true
  | x :: a', y :: b' => N.eqb x y && streq a' b'
  | _, _ => false
  end.

(** ECMAScript WhiteSpace and LineTerminator code units: the class that
    [String.prototype.trim] strips and that [\s] matches. *)
Definition isLineTerminator (c : N) : bool :=
  (N.eqb c 10 || N.eqb c 13 || N.eqb c 8232 || N.eqb c 8233)%N.

Definition isWhiteSpace (c : N) : bool :=
  (N.eqb c 9 || N.eqb c 10 || N.eqb c 11 || N.eqb c 12 || N.eqb c 13
   || N.eqb c 32 || N.eqb c 160 || N.eqb c 5760
   || (N.leb 8192 c && N.leb c 8202)
   || N.eqb c 8232 || N.eqb c 8233 || N.eqb c 8239 || N.eqb c 8287
   || N.eqb c 12288 || N.eqb c 65279)%N.

(** [\d] *)
Definition isDigit (c : N) : bool := (N.leb 48 c && N.leb c 57)%N.

(** [\w], used by [\b] *)
Definition isWordChar (c : N) : bool :=
  (isDigit c || (N.leb 65 c && N.leb c 90) || (N.leb 97 c && N.leb c 122)
   || N.eqb c 95)%N.

Fixpoint dropWhile {A} (p : A -> bool) (l : list A) : list A :=
  match l with
  | [] => []
  | x :: l' => if p x then dropWhile p l' else l
  end.

Fixpoint takeWhile {A} (p : A -> bool) (l : list A) : list A :=
  match l with
  | [] => []
  | x :: l' => if p x then x :: takeWhile p l' else []
  end.

Definition trimStart (s : jsstring) : jsstring := dropWhile isWhiteSpace s.
Definition trimEnd (s : jsstring) : jsstring :=
  rev (dropWhile isWhiteSpace (rev s)).
Definition trim (s : jsstring) : jsstring := trimEnd (trimStart s).

(** [s.split(sep)] for a one-unit separator. *)
Fixpoint split (sep : N) (s : jsstring) : list jsstring :=
  match s with
  | [] => [[]]
  | c :: s' =>
      if N.eqb c sep then [] :: split sep s'
      else match split sep s' with
           | [] => [[c]]
           | w :: ws => (c :: w) :: ws
           end
  end.

Fixpoint startsWith (p s : jsstring) : bool :=
  match p, s with
  | [], _ => true
  | x :: p', y :: s' => N.eqb x y && startsWith p' s'
  | _ :: _, [] => false
  end.

Fixpoint includes (p s : jsstring) : bool :=
  startsWith p s ||
  match s with
  | [] => false
  | _ :: s' => includes p s'
  end.

(** [toLowerCase] on the code units that the unit pattern of the latency
    text lets through (the letters m, u and s in either case, the micro
    sign and the two forms of mu): an ASCII capital becomes its small
    letter, the capital mu the small mu, the other units are kept.  The
    [toLowerCase] of arbitrary text is a field of [Runtime]. *)
Definition lowerUnit (c : N) : N :=
  if (N.leb 65 c && N.leb c 90)%N then (c + 32)%N
  else if N.eqb c 924 then 956%N
  else c.

Definition unitToLowerCase (unit : jsstring) : jsstring := map lowerUnit unit.

(** [Boolean(s)] for a string, the predicate of [filter(Boolean)]. *)
Definition nonEmpty (s : jsstring) : bool :=
  match s with [] => false | _ => true end.

(** [parts.join(sep)] *)
Fixpoint join (sep : jsstring) (parts : list jsstring) : jsstring :=
  match parts with
  | [] => []
  | [p] => p
  | p :: ps => p ++ sep ++ join sep ps
  end.

(** The decimal rendering of an integer, as a template literal prints it. *)
Definition decimal (z : Z) : jsstring :=
  lit (DecimalString.NilZero.string_of_int (Z.to_int z)).

(** ** Numbers *)

(** [Math.round(x)] of the number of value [x]: the whole number next
    above [x - 1/2]. *)
Definition Math_round (x : Q) : Q := inject_Z (Qfloor (x + (1 # 2))%Q).

(** [Number(x.toFixed(2))] of the number of value [x]: [toFixed] rounds
    the value of the binary64 number it is called on, half away from
    zero, and the result [k/100] stands for the binary64 number that
    [Number] reads from the text. *)
Definition toFixed2 (x : Q) : Q :=
  if Qle_bool 0 x
  then Qred (Qfloor (x * 100 + (1 # 2))%Q # 100)
  else Qred (- (Qfloor ((- x) * 100 + (1 # 2))%Q # 100))%Q.

(** A number as [JSON.parse] or [Number] yields it: finite, or one of
    NaN and the two infinities, which [Number.isFinite] rejects. *)
Inductive jsnumber := Fin (q : Q) | NonFinite.

(** The rational [m * 2^e]. *)
Definition scaled (m e : Z) : Q :=
  if 0 <=? e then inject_Z (m * 2 ^ e) else Qred (m # Z.to_pos (2 ^ (- e))).

(** The value of a binary64 number. *)
Definition valueOf (x : SpecFloat.spec_float) : jsnumber :=
  match x with
  | SpecFloat.S754_zero _ => Fin 0
  | SpecFloat.S754_finite false m e => Fin (scaled (Z.pos m) e)
  | SpecFloat.S754_finite true m e => Fin (scaled (Z.neg m) e)
  | _ => NonFinite
  end.

(** The binary64 number nearest to a rational, ties to even, an infinity
    when the rational is out of range: the correctly rounded quotient of
    the numerator by the denominator. *)
Definition nearest (q : Q) : SpecFloat.spec_float :=
  match Qnum q with
  | Z0 => SpecFloat.S754_zero false
  | Z.pos n =>
      SpecFloat.SFdiv 53 1024 (SpecFloat.S754_finite false n 0)
        (SpecFloat.S754_finite false (Qden q) 0)
  | Z.neg n =>
      SpecFloat.SFdiv 53 1024 (SpecFloat.S754_finite true n 0)
        (SpecFloat.S754_finite false (Qden q) 0)
  end.

Definition toDouble (q : Q) : jsnumber := valueOf (nearest q).

(** A rational that is a binary64 number. *)
Definition isDouble (q : Q) : Prop := toDouble q = Fin (Qred q).

(** The binary64 number that a rational in range is rounded to: a number
    literal of the source, a sum or a quotient of numbers.  A rational out
    of range, which the literals are not and which the sum of ten
    latencies is only from 10^307 on, is kept as it is. *)
Definition literalOf (q : Q) : Q :=
  match toDouble q with Fin d => d | NonFinite => q end.

Definition Qltb (a b : Q) : bool := negb (Qle_bool b a).
Definition Qgeb (a b : Q) : bool := Qle_bool b a.
Definition Qgtb (a b : Q) : bool := negb (Qle_bool a b).
Definition Qeqb (a b : Q) : bool := Qeq_bool a b.

(** ** Data model ([lib/types.ts]) *)

Inductive ProbeStatus := healthy | degraded | down | unknown.

Definition ProbeStatus_eqb (a b : ProbeStatus) : bool :=
  match a, b with
  | healthy, healthy | degraded, degraded | down, down | unknown, unknown =>
      true
  | _, _ => false
  end.

(** A decoded document ([unknown] in the source).  An object lists its own
    properties in enumeration order; a property is read by its name. *)
Inductive json :=
| JNull
| JBool (b : bool)
| JNum (n : jsnumber)
| JStr (s : jsstring)
| JArr (items : list json)
| JObj (props : list (jsstring * json)).

Notation jsobject := (list (jsstring * json)).

Record ProbeNodeResult := {
  n_id : jsstring;
  n_name : jsstring;
  n_region : option jsstring;
  n_latencyMs : option Q;
  n_lossPct : option Q;
  n_avgLatencyMs : option Q;
  n_status : ProbeStatus;
  n_message : option jsstring;
  n_checkedAt : jsstring;
  n_raw : option jsobject
}.

Record Summary := {
  s_total : Z;
  s_healthy : Z;
  s_degraded : Z;
  s_down : Z;
  s_unknown : Z;
  s_avgLatencyMs : option Q
}.

Record ProbeResponse := {
  r_ok : bool;
  r_checkedAt : jsstring;
  r_durationMs : Z;
  r_summary : Summary;
  r_nodes : list ProbeNodeResult;
  r_stderr : option jsstring;
  r_error : option jsstring;
  r_raw : option json
}.

(** ** The JavaScript runtime *)

Class Runtime := {
  (** [a.localeCompare(b)]: negative, zero or positive *)
  localeCompare : jsstring -> jsstring -> Z;
  (** [s.toLowerCase()] *)
  toLowerCase : jsstring -> jsstring;
  (** [Number(text)] *)
  stringToNumber : jsstring -> jsnumber;
  (** the text of a number inside a template literal *)
  numberToString : Q -> jsstring;
  (** [JSON.parse(text)], [None] when it throws *)
  JSON_parse : jsstring -> option json;
  (** [JSON.stringify(value)] *)
  JSON_stringify : json -> jsstring
}.

(** What ECMAScript requires of [localeCompare]: it is a consistent
    comparator on all strings (the conditions of [Array.prototype.sort]).
    Two different strings may compare as equal. *)
Class LocaleOrder (RT : Runtime) := {
  locale_refl : forall a, localeCompare a a = 0;
  locale_eq_sym : forall a b, localeCompare a b = 0 -> localeCompare b a = 0;
  locale_eq_trans : forall a b c,
    localeCompare a b = 0 -> localeCompare b c = 0 -> localeCompare a c = 0;
  locale_lt_trans : forall a b c,
    localeCompare a b < 0 -> localeCompare b c < 0 -> localeCompare a c < 0;
  locale_gt_trans : forall a b c,
    0 < localeCompare a b -> 0 < localeCompare b c -> 0 < localeCompare a c
}.

(** A whole number up to [2^53] in absolute value is printed in decimal. *)
Class NumberPrinting (RT : Runtime) := {
  numberToString_integer : forall z : Z,
    - 9007199254740992 <= z <= 9007199254740992 ->
    numberToString (inject_Z z) = decimal z
}.

(** ** Constants *)

Definition DEFAULT_TIMEOUT_MS : Q := 75000%Q.
Definition MIN_ONCE_TIMEOUT_MS : Q := 65000%Q.
Definition PROBE_WINDOW_SIZE : nat := 10.
Definition CALIBRATION_WINDOW_MINS : Z := 10.
Definition CALIBRATION_FALLBACK_MS : Q := 10%Q.
Definition CALIBRATION_WARMUP_MINS : Z := 2.

(** ** Argument assembly and the timeout floor *)

Definition isJsonFlag (token : jsstring) : bool :=
  streq token (lit "-json") || streq token (lit "--json")
  || startsWith (lit "--json=") token.

Definition parseArgs (argsText : jsstring) : list jsstring :=
  if negb (nonEmpty (trim argsText)) then [lit "-once"]
  else
    filter (fun token => negb (isJsonFlag token))
      (filter nonEmpty (map trim (split 32 argsText))).

Fixpoint hasDerpMapFlag (args : list jsstring) : bool :=
  match args with
  | [] => false
  | token :: rest =>
      if streq token (lit "-derp-map") || streq token (lit "--derp-map")
      then true
      else if startsWith (lit "-derp-map=") token
              || startsWith (lit "--derp-map=") token
      then true
      else hasDerpMapFlag rest
  end.

Definition appendDerpMapArg (args : list jsstring) (derpMap : option jsstring)
  : list jsstring :=
  match derpMap with
  | None => args
  | Some m =>
      if negb (nonEmpty m) || negb (nonEmpty (trim m)) then args
      else if hasDerpMapFlag args then args
      else args ++ [lit "-derp-map"; trim m]
  end.

Fixpoint hasOnceFlag (args : list jsstring) : bool :=
  match args with
  | [] => false
  | token :: rest =>
      if streq token (lit "-once") || streq token (lit "--once") then true
      else if startsWith (lit "-once=") token
              || startsWith (lit "--once=") token
      then true
      else hasOnceFlag rest
  end.

Definition resolveTimeoutMs (baseTimeoutMs : Q) (args : list jsstring) : Q :=
  if hasOnceFlag args && Qltb baseTimeoutMs MIN_ONCE_TIMEOUT_MS
  then MIN_ONCE_TIMEOUT_MS
  else baseTimeoutMs.

(** [toNumber(value)]; the argument is [None] for [undefined]. *)
Definition toNumber `{Runtime} (value : option json) : option Q :=
  match value with
  | Some (JNum (Fin q)) => Some q
  | Some (JStr s) =>
      match stringToNumber s with
      | Fin q => Some q
      | NonFinite => None
      end
  | _ => None
  end.

(** ** Summary *)

Definition countStatus (st : ProbeStatus) (nodes : list ProbeNodeResult) : Z :=
  Z.of_nat (length (filter (fun n => ProbeStatus_eqb (n_status n) st) nodes)).

Definition definedLatencies (nodes : list ProbeNodeResult) : list Q :=
  flat_map (fun n => match n_latencyMs n with Some l => [l] | None => [] end)
    nodes.

Definition Qsum (l : list Q) : Q := fold_left Qplus l 0%Q.

Definition summarize (nodes : list ProbeNodeResult) : Summary :=
  let samples := definedLatencies nodes in
  {| s_total := Z.of_nat (length nodes);
     s_healthy := countStatus healthy nodes;
     s_degraded := countStatus degraded nodes;
     s_down := countStatus down nodes;
     s_unknown := countStatus unknown nodes;
     s_avgLatencyMs :=
       match samples with
       | [] => None
       | _ => Some (Math_round
                      (Qsum samples / inject_Z (Z.of_nat (length samples)))%Q)
       end |}.

Definition emptySummary : Summary :=
  {| s_total := 0; s_healthy := 0; s_degraded := 0; s_down := 0;
     s_unknown := 0; s_avgLatencyMs := None |}.

(** ** Log lines *)

Definition normalizeProbeMessage (probeType resultText : jsstring) : jsstring :=
  if streq probeType (lit "udp6")
     && includes (lit "network is unreachable") resultText
  then lit "udp6: network is unreachable"
  else probeType ++ lit ": " ++ resultText.

(** Pieces of a pattern: each consumes a prefix and returns the rest. *)
Fixpoint digits (n : nat) (s : jsstring) : option jsstring :=
  match n with
  | O => Some s
  | S n' =>
      match s with
      | c :: s' => if isDigit c then digits n' s' else None
      | [] => None
      end
  end.

Definition expect (c : N) (s : jsstring) : option jsstring :=
  match s with
  | x :: s' => if N.eqb x c then Some s' else None
  | [] => None
  end.

Definition literal (p : jsstring) (s : jsstring) : option jsstring :=
  if startsWith p s then Some (skipn (length p) s) else None.

(** [\s+], greedy *)
Definition spaces1 (s : jsstring) : option jsstring :=
  match s with
  | c :: s' => if isWhiteSpace c then Some (dropWhile isWhiteSpace s') else None
  | [] => None
  end.

(** [/^\d{4}\/\d{2}\/\d{2}\s+\d{2}:\d{2}:\d{2}\s+/]: the text after the
    timestamp, when the line starts with one. *)
Definition matchLogPrefix (line : jsstring) : option jsstring :=
  s ← digits 4 line; s ← expect 47 s; s ← digits 2 s; s ← expect 47 s;
  s ← digits 2 s; s ← spaces1 s;
  s ← digits 2 s; s ← expect 58 s; s ← digits 2 s; s ← expect 58 s;
  s ← digits 2 s; spaces1 s.

Definition stripLogPrefix (line : jsstring) : jsstring :=
  trim (match matchLogPrefix line with Some rest => rest | None => line end).

Definition notColon (c : N) : bool := negb (N.eqb c 58).

(** The tail [\s*(.+)$] of the line pattern: the greedy [\s*] gives back
    its last unit when nothing else is left for [.+]. *)
Definition matchResultText (s : jsstring) : option jsstring :=
  let w := takeWhile isWhiteSpace s in
  let r := dropWhile isWhiteSpace s in
  match r with
  | [] =>
      match rev w with
      | c :: _ => if isLineTerminator c then None else Some [c]
      | [] => None
      end
  | _ => if forallb (fun c => negb (isLineTerminator c)) r then Some r else None
  end.

(** [line.match(/^(good|bad):\s+derp\/([^:]+):\s*(.+)$/)]: the three
    groups (level, path, result text). *)
Definition matchLine (line : jsstring)
  : option (jsstring * jsstring * jsstring) :=
  '(level, s) ←
     match literal (lit "good") line with
     | Some s => Some (lit "good", s)
     | None =>
         match literal (lit "bad") line with
         | Some s => Some (lit "bad", s)
         | None => None
         end
     end;
  s ← expect 58 s; s ← spaces1 s; s ← literal (lit "derp/") s;
  let path := takeWhile notColon s in
  match path with
  | [] => None
  | _ =>
      s ← expect 58 (dropWhile notColon s);
      resultText ← matchResultText s;
      Some (level, path, resultText)
  end.

(** The lines of the diagnostic stream, as both parsers read them. *)
Definition logLines (stderr : jsstring) : list jsstring :=
  filter nonEmpty (map stripLogPrefix (split 10 stderr)).

(** A line of the grammar with at least three path segments. *)
Record ProbeLine := {
  pl_level : jsstring;
  pl_shortRegion : jsstring;
  pl_cloudRegion : jsstring;
  pl_probeType : jsstring;
  pl_resultText : jsstring
}.

Definition pl_id (l : ProbeLine) : jsstring :=
  pl_shortRegion l ++ lit "-" ++ pl_cloudRegion l.

Definition readProbeLine (line : jsstring) : option ProbeLine :=
  match matchLine line with
  | None => None
  | Some (level, path, resultText) =>
      match split 47 path with
      | shortRegion :: cloudRegion :: third :: rest =>
          Some {| pl_level := level;
                  pl_shortRegion := shortRegion;
                  pl_cloudRegion := cloudRegion;
                  pl_probeType := last rest third;
                  pl_resultText := resultText |}
      | _ => None
      end
  end.

(** The test of the [bad] branch: a udp6 "network is unreachable" failure. *)
Definition isUdp6Unreachable (l : ProbeLine) : bool :=
  streq (pl_probeType l) (lit "udp6")
  && includes (lit "network is unreachable") (pl_resultText l).

(** ** Region ordering *)

Definition regionOr (region : option jsstring) : jsstring :=
  match region with Some r => r | None => [] end.

Definition firstSegment (id : jsstring) : jsstring :=
  match split 45 id with
  | seg :: _ => seg
  | [] => []
  end.

Definition regionSortValue `{Runtime} (node : ProbeNodeResult)
    (regionIdMap : gmap jsstring Q) : option Q :=
  let codeFromName := toLowerCase (trim (n_name node)) in
  let codeFromId := toLowerCase (trim (firstSegment (n_id node))) in
  let codeFromRegion := toLowerCase (trim (regionOr (n_region node))) in
  match regionIdMap !! codeFromName with
  | Some v => Some v
  | None =>
      match regionIdMap !! codeFromId with
      | Some v => Some v
      | None => regionIdMap !! codeFromRegion
      end
  end.

(** The comparator handed to [nodes.sort]. *)
Definition compareNodes `{Runtime} (regionIdMap : gmap jsstring Q)
    (a b : ProbeNodeResult) : Q :=
  let byName :=
    if negb (streq (n_name a) (n_name b))
    then inject_Z (localeCompare (n_name a) (n_name b))
    else inject_Z (localeCompare (regionOr (n_region a))
                                 (regionOr (n_region b))) in
  match regionSortValue a regionIdMap, regionSortValue b regionIdMap with
  | Some aOrder, Some bOrder =>
      if negb (Qeq_bool aOrder bOrder) then (aOrder - bOrder)%Q else byName
  | Some _, None => (-1)%Q
  | None, Some _ => 1%Q
  | None, None => byName
  end.

(** [Array.prototype.sort].  The sort of the runtime is stable, and for
    a consistent comparator every stable sort yields the same list; it is
    written here as insertion by the sign of the comparator, an element
    going before the first element it does not compare above. *)
Fixpoint insertBy {A} (cmp : A -> A -> Q) (x : A) (l : list A) : list A :=
  match l with
  | [] => [x]
  | y :: l' => if Qle_bool (cmp x y) 0 then x :: l else y :: insertBy cmp x l'
  end.

Definition Array_sort {A} (cmp : A -> A -> Q) (l : list A) : list A :=
  fold_right (insertBy cmp) [] l.

(** [Map.get] and [Map.set] of a map that is iterated: insertion order
    is kept, setting a present key keeps its place. *)
Fixpoint mapGet {V} (k : jsstring) (m : list (jsstring * V)) : option V :=
  match m with
  | [] => None
  | (k', v) :: m' => if streq k k' then Some v else mapGet k m'
  end.

Fixpoint mapSet {V} (k : jsstring) (v : V) (m : list (jsstring * V))
  : list (jsstring * V) :=
  match m with
  | [] => [(k, v)]
  | (k', v') :: m' =>
      if streq k k' then (k, v) :: m' else (k', v') :: mapSet k v m'
  end.

(** [Number] of the decimal text [ds.fs]: the binary64 number nearest to
    the number the digits denote. *)
Definition digitValue (c : N) : Z := Z.of_N c - 48.

Definition digitsValue (ds : jsstring) : Z :=
  fold_left (fun acc c => acc * 10 + digitValue c) ds 0.

Definition decimalValue (ds fs : jsstring) : jsnumber :=
  toDouble (digitsValue (ds ++ fs) # Z.to_pos (10 ^ Z.of_nat (length fs))).

(** [([0-9]+(?:\.[0-9]+)?)] at the head of the text: integer digits,
    fraction digits, rest. *)
Definition matchNumber (s : jsstring)
  : option (jsstring * jsstring * jsstring) :=
  match takeWhile isDigit s with
  | [] => None
  | ds =>
      let s1 := dropWhile isDigit s in
      match s1 with
      | 46%N :: s2 =>
          match takeWhile isDigit s2 with
          | [] => Some (ds, [], s1)
          | fs => Some (ds, fs, dropWhile isDigit s2)
          end
      | _ => Some (ds, [], s1)
      end
  end.

(** ** Pieces of the response shared by both [close] handlers *)

(** The [error] field: [`derpprobe exited with code ${code}`] when the
    cycle is not ok and the code is a number. *)
Definition exitError (ok : bool) (code : option Z) : option jsstring :=
  if negb ok then
    match code with
    | Some c => Some (lit "derpprobe exited with code " ++ decimal c)
    | None => Some (lit "derpprobe exited with an unknown error")
    end
  else None.

Definition trimmedOrUndefined (s : jsstring) : option jsstring :=
  match trim s with [] => None | t => Some t end.

Definition isCode (code : option Z) (c : Z) : bool :=
  match code with Some x => x =? c | None => false end.

(** ** The calibrated revision *)

Module LogEngine.

(** *** LatencyCalibrator *)

Record DelayPoint := { timestamp : Z; rtt : Q }.

(** The variables a calibrator closure captures. *)
Record Calibrator := {
  windowSize : Z;
  warmupPeriod : Z;
  fallbackMs : Q;
  startTime : Z;
  deque : list DelayPoint
}.

(** [createLatencyCalibrator]; [now] is the reading of [Date.now()] that
    the function takes. *)
Definition createLatencyCalibrator (windowMins : Z) (fallback : Q)
    (warmupMins : Z) (now : Z) : Calibrator :=
  {| windowSize := windowMins * 60 * 1000;
     warmupPeriod := warmupMins * 60 * 1000;
     fallbackMs := fallback;
     startTime := now;
     deque := [] |}.

(** The first loop: [deque.shift()] while the front is older than the
    window. *)
Fixpoint shiftExpired (window currentTime : Z) (d : list DelayPoint)
  : list DelayPoint :=
  match d with
  | [] => []
  | p :: d' =>
      if currentTime - timestamp p >? window
      then shiftExpired window currentTime d'
      else d
  end.

(** The second loop: [deque.pop()] while the tail is not below the new
    sample. *)
Definition popNotBelow (currentRtt : Q) (d : list DelayPoint)
  : list DelayPoint :=
  rev (dropWhile (fun p => Qgeb (rtt p) currentRtt) (rev d)).

Definition baselineOf (c : Calibrator) (d : list DelayPoint)
    (currentRtt : Q) (currentTime : Z) : Q :=
  let baseline := match d with p :: _ => rtt p | [] => currentRtt end in
  if (currentTime - startTime c <? warmupPeriod c)
     && Qgtb baseline (fallbackMs c)
  then fallbackMs c
  else baseline.

(** One call of the closure: the new captured state and the result.
    [currentRtt] and the baseline are stored values, whole or of two
    decimals, and their difference is taken exactly: the binary64
    difference is closer to it than to any other number of two
    decimals. *)
Definition calibrate (c : Calibrator) (currentRtt : Q) (currentTime : Z)
  : Calibrator * Q :=
  let d1 := shiftExpired (windowSize c) currentTime (deque c) in
  let d2 := popNotBelow currentRtt d1 in
  let d3 := d2 ++ [{| timestamp := currentTime; rtt := currentRtt |}] in
  let baseline := baselineOf c d3 currentRtt currentTime in
  let netDelay := Qmax 0 (currentRtt - baseline)%Q in
  ({| windowSize := windowSize c; warmupPeriod := warmupPeriod c;
      fallbackMs := fallbackMs c; startTime := startTime c; deque := d3 |},
   toFixed2 netDelay).

(** *** Process-wide smoothing state *)

Record NodeProbeSample := { success : bool; latencyMs : option Q }.

Record Store := {
  nodeProbeHistory : gmap jsstring (list NodeProbeSample);
  nodeLatencyCalibrators : gmap jsstring Calibrator
}.

Definition emptyStore : Store :=
  {| nodeProbeHistory := ∅; nodeLatencyCalibrators := ∅ |}.

(** [getNodeLatencyCalibrator]; [createdAt] is the reading of
    [Date.now()] inside [createLatencyCalibrator], taken when the node
    has no calibrator yet. *)
Definition getNodeLatencyCalibrator
    (calibrators : gmap jsstring Calibrator) (nodeId : jsstring)
    (createdAt : Z) : gmap jsstring Calibrator * Calibrator :=
  match calibrators !! nodeId with
  | Some existing => (calibrators, existing)
  | None =>
      let created :=
        createLatencyCalibrator CALIBRATION_WINDOW_MINS
          CALIBRATION_FALLBACK_MS CALIBRATION_WARMUP_MINS createdAt in
      (<[nodeId := created]> calibrators, created)
  end.

(** *** HistoryTracker *)

Definition isSuccess (status : ProbeStatus) : bool :=
  ProbeStatus_eqb status healthy || ProbeStatus_eqb status degraded.

(** [history.push(sample)] followed by the [splice] that keeps the last
    [PROBE_WINDOW_SIZE] entries. *)
Definition pushSample (history : list NodeProbeSample) (s : NodeProbeSample)
  : list NodeProbeSample :=
  let h := history ++ [s] in
  if (PROBE_WINDOW_SIZE <? length h)%nat
  then skipn (length h - PROBE_WINDOW_SIZE) h
  else h.

Definition successCount (history : list NodeProbeSample) : nat :=
  length (filter success history).

Definition lossPctOf (history : list NodeProbeSample) : Q :=
  let successRate :=
    (inject_Z (Z.of_nat (successCount history))
     / inject_Z (Z.of_nat (length history)))%Q in
  Math_round ((1 - successRate) * 100)%Q.

Definition latencySamplesOf (history : list NodeProbeSample) : list Q :=
  flat_map (fun s => match latencyMs s with Some l => [l] | None => [] end)
    history.

(** [samples.reduce((total, value) => total + value, 0)]: the additions
    are those of binary64 numbers, each sample being the binary64 number
    its stored value stands for. *)
Definition doubleSum (samples : list Q) : Q :=
  fold_left (fun total value => literalOf (total + literalOf value)%Q)
    samples 0%Q.

(** The mean is the binary64 quotient of that sum, and it is this number
    that is compared with 1 and rounded. *)
Definition avgLatencyOf (history : list NodeProbeSample) : option Q :=
  match latencySamplesOf history with
  | [] => None
  | samples =>
      let avg :=
        literalOf
          (doubleSum samples / inject_Z (Z.of_nat (length samples)))%Q in
      Some (if Qgeb avg 1 then Math_round avg else toFixed2 avg)
  end.

(** The body of the loop of [updateNodeLossFromHistory] for one node;
    [now] is the reading of [Date.now()] at the head of the function and
    [createdAt id] the later reading inside [createLatencyCalibrator]
    when the calibrator of [id] is created. *)
Definition updateNode (now : Z) (createdAt : jsstring -> Z) (st : Store)
    (node : ProbeNodeResult) : Store * ProbeNodeResult :=
  let '(calibrators, latency) :=
    match n_latencyMs node with
    | Some l =>
        let '(cs, calibrator) :=
          getNodeLatencyCalibrator (nodeLatencyCalibrators st)
            (n_id node) (createdAt (n_id node)) in
        let '(calibrator', v) := calibrate calibrator l now in
        (<[n_id node := calibrator']> cs, Some v)
    | None => (nodeLatencyCalibrators st, None)
    end in
  let history :=
    match nodeProbeHistory st !! n_id node with
    | Some h => h
    | None => []
    end in
  let history' :=
    pushSample history
      {| success := isSuccess (n_status node); latencyMs := latency |} in
  ({| nodeProbeHistory := <[n_id node := history']> (nodeProbeHistory st);
      nodeLatencyCalibrators := calibrators |},
   {| n_id := n_id node; n_name := n_name node; n_region := n_region node;
      n_latencyMs := latency;
      n_lossPct := Some (lossPctOf history');
      n_avgLatencyMs := avgLatencyOf history';
      n_status := n_status node; n_message := n_message node;
      n_checkedAt := n_checkedAt node; n_raw := n_raw node |}).

Fixpoint updateNodeLossFromHistory (now : Z) (createdAt : jsstring -> Z)
    (st : Store) (nodes : list ProbeNodeResult)
  : Store * list ProbeNodeResult :=
  match nodes with
  | [] => (st, [])
  | node :: rest =>
      let '(st1, node') := updateNode now createdAt st node in
      let '(st2, rest') := updateNodeLossFromHistory now createdAt st1 rest in
      (st2, node' :: rest')
  end.

(** *** Latency text *)

Definition isMicroSign (c : N) : bool :=
  (N.eqb c 181 || N.eqb c 956 || N.eqb c 924)%N.

(** [(ms|µs|μs|us)\b] under the [i] flag, at the head of the text. *)
Definition matchUnit (s : jsstring) : option jsstring :=
  match s with
  | c1 :: c2 :: rest =>
      if ((N.eqb c1 109 || N.eqb c1 77)
          || isMicroSign c1
          || (N.eqb c1 117 || N.eqb c1 85))%N
         && (N.eqb c2 115 || N.eqb c2 83)%N
         && match rest with [] => true | c :: _ => negb (isWordChar c) end
      then Some [c1; c2]
      else None
  | _ => None
  end.

(** The pattern [/([0-9]+(?:\.[0-9]+)?)\s*(ms|µs|μs|us)\b/i] at the head
    of the text. *)
Definition matchLatencyAt (s : jsstring)
  : option (jsstring * jsstring * jsstring) :=
  match matchNumber s with
  | None => None
  | Some (ds, fs, rest) =>
      match matchUnit (dropWhile isWhiteSpace rest) with
      | Some unit => Some (ds, fs, unit)
      | None => None
      end
  end.

(** [text.match(...)]: the leftmost match. *)
Fixpoint findLatency (text : jsstring)
  : option (jsstring * jsstring * jsstring) :=
  match matchLatencyAt text with
  | Some m => Some m
  | None =>
      match text with
      | [] => None
      | _ :: text' => findLatency text'
      end
  end.

(** [parseLatencyMs]: [value / 1000] is the quotient of two binary64
    numbers, which is finite, and [toFixed(2)] rounds that quotient. *)
Definition parseLatencyMs (text : jsstring) : option Q :=
  match findLatency text with
  | None => None
  | Some (ds, fs, unit) =>
      match decimalValue ds fs with
      | NonFinite => None
      | Fin value =>
          if streq (unitToLowerCase unit) (lit "ms")
          then Some (Math_round value)
          else match toDouble (value / 1000)%Q with
               | Fin quotient => Some (toFixed2 quotient)
               | NonFinite => None
               end
      end
  end.

(** *** LogParser *)

Record TempNode := {
  t_id : jsstring;
  t_name : jsstring;
  t_region : option jsstring;
  t_good : Z;
  t_bad : Z;
  t_badUdp6 : Z;
  t_nonUdp6Error : bool;
  t_udpLatencyMs : option Q;
  t_messages : list jsstring
}.

Definition isIpv6UnsupportedNetwork (lines : list jsstring) : bool :=
  existsb
    (fun line =>
       includes (lit "/udp6:") line
       && includes (lit "network is unreachable") line
       && (includes (lit "write udp [::]") line
           || includes (lit "dial udp [::]") line))
    lines.

Definition newTempNode (l : ProbeLine) : TempNode :=
  {| t_id := pl_id l; t_name := pl_shortRegion l;
     t_region := Some (pl_cloudRegion l);
     t_good := 0; t_bad := 0; t_badUdp6 := 0; t_nonUdp6Error := false;
     t_udpLatencyMs := None; t_messages := [] |}.

(** The two branches of the loop body on the node of the line. *)
Definition recordLine (ipv6Unsupported : bool) (l : ProbeLine)
    (node : TempNode) : TempNode :=
  if streq (pl_level l) (lit "good") then
    {| t_id := t_id node; t_name := t_name node; t_region := t_region node;
       t_good := t_good node + 1; t_bad := t_bad node;
       t_badUdp6 := t_badUdp6 node; t_nonUdp6Error := t_nonUdp6Error node;
       t_udpLatencyMs :=
         if streq (pl_probeType l) (lit "udp") then
           match parseLatencyMs (pl_resultText l) with
           | Some latency => Some latency
           | None => t_udpLatencyMs node
           end
         else t_udpLatencyMs node;
       t_messages := t_messages node |}
  else
    {| t_id := t_id node; t_name := t_name node; t_region := t_region node;
       t_good := t_good node; t_bad := t_bad node + 1;
       t_badUdp6 :=
         if isUdp6Unreachable l && negb ipv6Unsupported
         then t_badUdp6 node + 1 else t_badUdp6 node;
       t_nonUdp6Error :=
         if isUdp6Unreachable l then t_nonUdp6Error node else true;
       t_udpLatencyMs := t_udpLatencyMs node;
       t_messages :=
         t_messages node
         ++ [normalizeProbeMessage (pl_probeType l) (pl_resultText l)] |}.

Definition aggregateLine (ipv6Unsupported : bool)
    (map : list (jsstring * TempNode)) (line : jsstring)
  : list (jsstring * TempNode) :=
  match readProbeLine line with
  | None => map
  | Some l =>
      let node :=
        match mapGet (pl_id l) map with
        | Some node => node
        | None => newTempNode l
        end in
      mapSet (pl_id l) (recordLine ipv6Unsupported l node) map
  end.

Definition aggregate (lines : list jsstring) : list (jsstring * TempNode) :=
  fold_left (aggregateLine (isIpv6UnsupportedNetwork lines)) lines [].

Definition statusOf (node : TempNode) : ProbeStatus :=
  if t_nonUdp6Error node || ((t_bad node >? 0) && (t_good node =? 0))
  then down
  else if t_badUdp6 node >? 0 then degraded
  else if t_good node >? 0 then healthy
  else unknown.

Definition toResult (checkedAt : jsstring) (node : TempNode)
  : ProbeNodeResult :=
  {| n_id := t_id node; n_name := t_name node; n_region := t_region node;
     n_latencyMs := t_udpLatencyMs node;
     n_lossPct := None; n_avgLatencyMs := None;
     n_status := statusOf node;
     n_message :=
       match t_messages node with
       | [] => None
       | ms => Some (join (lit " | ") ms)
       end;
     n_checkedAt := checkedAt; n_raw := None |}.

Definition parseNodesFromProbeLog `{Runtime} (stderr checkedAt : jsstring)
    (regionIdMap : gmap jsstring Q) : list ProbeNodeResult :=
  let nodes := map (fun kv => toResult checkedAt (snd kv))
                   (aggregate (logLines stderr)) in
  Array_sort (compareNodes regionIdMap) nodes.

(** *** Response assembly: the body of the [close] handler *)

Definition complete `{Runtime} (regionIdMap : gmap jsstring Q)
    (startedAt : Z) (st : Store) (stderr : jsstring) (code : option Z)
    (now : Z) (createdAt : jsstring -> Z) (checkedAt : jsstring)
  : Store * ProbeResponse :=
  let parsed := parseNodesFromProbeLog stderr checkedAt regionIdMap in
  let '(st', nodes) := updateNodeLossFromHistory now createdAt st parsed in
  let ok :=
    isCode code 0
    || (isCode code 1
        && forallb (fun node => ProbeStatus_eqb (n_status node) healthy)
             nodes) in
  (st',
   {| r_ok := ok; r_checkedAt := checkedAt; r_durationMs := now - startedAt;
      r_summary := summarize nodes; r_nodes := nodes;
      r_stderr := trimmedOrUndefined stderr;
      r_error := exitError ok code; r_raw := None |}).

End LogEngine.

(** ** The raw-output revision *)

Module RawEngine.

(** *** RawOutputParser *)

Definition normalizeStatus (latencyMs lossPct : option Q)
    (err : option jsstring) : ProbeStatus :=
  match err with
  | Some (_ :: _) => down
  | _ =>
      match latencyMs with
      | None => unknown
      | Some latency =>
          if match lossPct with
             | Some loss => Qgeb loss 20
             | None => false
             end
          then degraded
          else if Qgeb latency 180 then degraded
          else healthy
      end
  end.

(** [flattenObjects]: every object of the document, an object before the
    objects inside it. *)
Fixpoint visit (node : json) : list jsobject :=
  match node with
  | JArr items => flat_map visit items
  | JObj props => props :: flat_map (fun kv => visit (snd kv)) props
  | _ => []
  end.

Definition flattenObjects (input : json) : list jsobject := visit input.

Fixpoint getProp (k : jsstring) (obj : jsobject) : option json :=
  match obj with
  | [] => None
  | (k', v) :: obj' => if streq k k' then Some v else getProp k obj'
  end.

(** [typeof obj.k === 'string' && obj.k], with the empty string for every
    falsy outcome. *)
Definition stringProp (k : String.string) (obj : jsobject) : jsstring :=
  match getProp (lit k) obj with
  | Some (JStr s) => s
  | _ => []
  end.
Arguments stringProp k%_string_scope obj.

Definition numberProp `{Runtime} (k : String.string) (obj : jsobject)
  : option Q :=
  toNumber (getProp (lit k) obj).
Arguments numberProp {_} k%_string_scope obj.

(** A chain of [||] over strings: the first non-empty one. *)
Fixpoint firstTruthy (candidates : list jsstring) : option jsstring :=
  match candidates with
  | [] => None
  | [] :: rest => firstTruthy rest
  | s :: _ => Some s
  end.

(** A chain of [??]: the first defined one. *)
Fixpoint firstDefined (candidates : list (option Q)) : option Q :=
  match candidates with
  | [] => None
  | Some v :: _ => Some v
  | None :: rest => firstDefined rest
  end.

Definition idOf (obj : jsobject) : jsstring :=
  match firstTruthy [stringProp "id" obj; stringProp "node" obj;
                     stringProp "name" obj; stringProp "regionCode" obj] with
  | Some s => s
  | None => []
  end.

Definition latencyOf `{Runtime} (obj : jsobject) : option Q :=
  firstDefined [numberProp "latencyMs" obj; numberProp "latency_ms" obj;
                numberProp "latency" obj; numberProp "pingMs" obj].

Definition lossOf `{Runtime} (obj : jsobject) : option Q :=
  firstDefined [numberProp "lossPct" obj; numberProp "loss_pct" obj;
                numberProp "packetLossPct" obj].

Definition errOf (obj : jsobject) : option jsstring :=
  firstTruthy [stringProp "error" obj; stringProp "err" obj;
               stringProp "message" obj].

(** The body of the loop of [pickNodeRecords]. *)
Definition pickOne `{Runtime} (checkedAt : jsstring)
    (acc : gset jsstring * list ProbeNodeResult) (obj : jsobject)
  : gset jsstring * list ProbeNodeResult :=
  let '(seen, nodes) := acc in
  let id := idOf obj in
  let latencyMs := latencyOf obj in
  let lossPct := lossOf obj in
  let err := errOf obj in
  if negb (nonEmpty id)
     && match latencyMs with None => true | Some _ => false end
     && match lossPct with None => true | Some _ => false end
     && match err with None => true | Some _ => false end
  then acc
  else
    let key := match id with [] => JSON_stringify (JObj obj) | _ => id end in
    if bool_decide (key ∈ seen) then acc
    else
      let ordinal := decimal (Z.of_nat (length nodes) + 1) in
      (seen ∪ {[key]},
       nodes ++
       [{| n_id := match id with [] => lit "node-" ++ ordinal | _ => id end;
           n_name :=
             match firstTruthy [stringProp "name" obj;
                                stringProp "nodeName" obj; id] with
             | Some s => s
             | None => lit "Node " ++ ordinal
             end;
           n_region :=
             firstTruthy [stringProp "region" obj;
                          stringProp "regionName" obj;
                          stringProp "regionCode" obj];
           n_latencyMs := latencyMs;
           n_lossPct := lossPct;
           n_avgLatencyMs := None;
           n_status := normalizeStatus latencyMs lossPct err;
           n_message := err;
           n_checkedAt := checkedAt;
           n_raw := Some obj |}]).

Definition pickNodeRecords `{Runtime} (checkedAt : jsstring) (raw : json)
  : list ProbeNodeResult :=
  snd (fold_left (pickOne checkedAt) (flattenObjects raw) (∅, [])).

Definition parseOutput `{Runtime} (stdout : jsstring) : json :=
  match trim stdout with
  | [] => JNull
  | text =>
      match JSON_parse text with
      | Some v => v
      | None =>
          let lines := filter nonEmpty (map trim (split 10 text)) in
          match flat_map
                  (fun line =>
                     match JSON_parse line with
                     | Some v => [v]
                     | None => []
                     end) lines with
          | [] => JObj [(lit "text", JStr text)]
          | parsedLines => JArr parsedLines
          end
      end
  end.

(** *** Latency text: [/([0-9]+(?:\.[0-9]+)?)ms/] *)

Definition matchLatencyAt (s : jsstring) : option (jsstring * jsstring) :=
  match matchNumber s with
  | None => None
  | Some (ds, fs, rest) =>
      if startsWith (lit "ms") rest then Some (ds, fs) else None
  end.

Fixpoint findLatency (text : jsstring) : option (jsstring * jsstring) :=
  match matchLatencyAt text with
  | Some m => Some m
  | None =>
      match text with
      | [] => None
      | _ :: text' => findLatency text'
      end
  end.

Definition parseLatencyMs (text : jsstring) : option Q :=
  match findLatency text with
  | None => None
  | Some (ds, fs) =>
      match decimalValue ds fs with
      | NonFinite => None
      | Fin value => Some (Math_round value)
      end
  end.

(** *** LogParser *)

Record TempNode := {
  t_id : jsstring;
  t_name : jsstring;
  t_region : option jsstring;
  t_good : Z;
  t_bad : Z;
  t_badUdp6 : Z;
  t_nonUdp6Error : bool;
  t_latencySamples : list Q;
  t_messages : list jsstring
}.

Definition newTempNode (l : ProbeLine) : TempNode :=
  {| t_id := pl_id l; t_name := pl_shortRegion l;
     t_region := Some (pl_cloudRegion l);
     t_good := 0; t_bad := 0; t_badUdp6 := 0; t_nonUdp6Error := false;
     t_latencySamples := []; t_messages := [] |}.

Definition recordLine (l : ProbeLine) (node : TempNode) : TempNode :=
  if streq (pl_level l) (lit "good") then
    {| t_id := t_id node; t_name := t_name node; t_region := t_region node;
       t_good := t_good node + 1; t_bad := t_bad node;
       t_badUdp6 := t_badUdp6 node; t_nonUdp6Error := t_nonUdp6Error node;
       t_latencySamples :=
         match parseLatencyMs (pl_resultText l) with
         | Some latency => t_latencySamples node ++ [latency]
         | None => t_latencySamples node
         end;
       t_messages := t_messages node |}
  else
    {| t_id := t_id node; t_name := t_name node; t_region := t_region node;
       t_good := t_good node; t_bad := t_bad node + 1;
       t_badUdp6 :=
         if isUdp6Unreachable l then t_badUdp6 node + 1 else t_badUdp6 node;
       t_nonUdp6Error :=
         if isUdp6Unreachable l then t_nonUdp6Error node else true;
       t_latencySamples := t_latencySamples node;
       t_messages :=
         t_messages node
         ++ [normalizeProbeMessage (pl_probeType l) (pl_resultText l)] |}.

Definition aggregateLine (map : list (jsstring * TempNode))
    (line : jsstring) : list (jsstring * TempNode) :=
  match readProbeLine line with
  | None => map
  | Some l =>
      let node :=
        match mapGet (pl_id l) map with
        | Some node => node
        | None => newTempNode l
        end in
      mapSet (pl_id l) (recordLine l node) map
  end.

Definition aggregate (lines : list jsstring) : list (jsstring * TempNode) :=
  fold_left aggregateLine lines [].

Definition statusOf (node : TempNode) : ProbeStatus :=
  if t_nonUdp6Error node || ((t_bad node >? 0) && (t_good node =? 0))
  then down
  else if t_badUdp6 node >? 0 then degraded
  else if t_good node >? 0 then healthy
  else unknown.

Definition toResult (checkedAt : jsstring) (node : TempNode)
  : ProbeNodeResult :=
  {| n_id := t_id node; n_name := t_name node; n_region := t_region node;
     n_latencyMs :=
       match t_latencySamples node with
       | [] => None
       | samples =>
           Some (Math_round
                   (Qsum samples / inject_Z (Z.of_nat (length samples)))%Q)
       end;
     n_lossPct := None; n_avgLatencyMs := None;
     n_status := statusOf node;
     n_message :=
       match t_messages node with
       | [] => None
       | ms => Some (join (lit " | ") ms)
       end;
     n_checkedAt := checkedAt; n_raw := None |}.

Definition parseNodesFromProbeLog `{Runtime} (stderr checkedAt : jsstring)
    (regionIdMap : gmap jsstring Q) : list ProbeNodeResult :=
  let nodes := map (fun kv => toResult checkedAt (snd kv))
                   (aggregate (logLines stderr)) in
  Array_sort (compareNodes regionIdMap) nodes.

(** *** The leniency rule of this revision *)

Definition isIpv6OnlyProbeFailure (stderr : jsstring) : bool :=
  let lines := logLines stderr in
  let badLines := filter (startsWith (lit "bad: derp/")) lines in
  match badLines with
  | [] => false
  | _ =>
      let goodUdp6Lines :=
        filter (fun line => startsWith (lit "good: derp/") line
                            && includes (lit "/udp6:") line) lines in
      let goodNonUdp6Lines :=
        filter (fun line => startsWith (lit "good: derp/") line
                            && negb (includes (lit "/udp6:") line)) lines in
      if (0 <? length goodUdp6Lines)%nat
         || (length goodNonUdp6Lines =? 0)%nat
      then false
      else if negb (forallb
                      (fun line => includes (lit "/udp6:") line
                         && includes (lit "network is unreachable") line)
                      badLines)
      then false
      else if (0 <? length
                      (filter (fun line => negb (includes (lit "/udp6:") line))
                         badLines))%nat
      then false
      else forallb (fun line => includes (lit "write udp [::]") line
                                || includes (lit "dial udp [::]") line)
             badLines
  end.

(** *** Response assembly: the body of the [close] handler *)

Definition complete `{Runtime} (regionIdMap : gmap jsstring Q)
    (startedAt : Z) (stdout stderr : jsstring) (code : option Z)
    (now : Z) (checkedAt : jsstring) : ProbeResponse :=
  let raw := parseOutput stdout in
  let rawNodes := pickNodeRecords checkedAt raw in
  let nodes :=
    match rawNodes with
    | [] => parseNodesFromProbeLog stderr checkedAt regionIdMap
    | _ => rawNodes
    end in
  let ok :=
    isCode code 0
    || (isCode code 1 && isIpv6OnlyProbeFailure stderr) in
  {| r_ok := ok; r_checkedAt := checkedAt; r_durationMs := now - startedAt;
     r_summary := summarize nodes; r_nodes := nodes;
     r_stderr := trimmedOrUndefined stderr;
     r_error := exitError ok code; r_raw := Some raw |}.

End RawEngine.

(** ** ProcessSupervisor: the promise body of [runDerpprobe] *)

Record Env := {
  DERPPROBE_BIN : option jsstring;
  DERPPROBE_ARGS : option jsstring;
  DERPPROBE_DERP_MAP : option jsstring;
  DERPPROBE_TIMEOUT_MS : option jsstring
}.

Definition commandOf (env : Env) : jsstring :=
  match DERPPROBE_BIN env with
  | Some (c :: bin) => c :: bin
  | _ => lit "derpprobe"
  end.

Definition argsOf (env : Env) : list jsstring :=
  appendDerpMapArg
    (parseArgs (match DERPPROBE_ARGS env with Some a => a | None => [] end))
    (DERPPROBE_DERP_MAP env).

Definition configuredTimeoutMs `{Runtime} (env : Env) : Q :=
  match toNumber (option_map JStr (DERPPROBE_TIMEOUT_MS env)) with
  | Some t => t
  | None => DEFAULT_TIMEOUT_MS
  end.

Definition timeoutMsOf `{Runtime} (env : Env) : Q :=
  resolveTimeoutMs (configuredTimeoutMs env) (argsOf env).

Inductive Signal := SIGTERM.

(** The readings a handler takes from the clock: [Date.now()],
    [new Date().toISOString()] and, in the [close] handler of the
    calibrated revision, [Date.now()] inside [createLatencyCalibrator]
    for every node id that gets its calibrator in this cycle. *)
Record Clock := { nowMs : Z; isoNow : jsstring; createdMs : jsstring -> Z }.

(** What can happen after [spawn]: the timer runs out, the child writes,
    fails to start, or closes. *)
Inductive Event :=
| TimerFired (clock : Clock)
| StdoutData (chunk : jsstring)
| StderrData (chunk : jsstring)
| ChildError (message : jsstring) (clock : Clock)
| ChildClose (code : option Z) (clock : Clock).

(** Which handler called [resolve]. *)
Inductive Outcome := Completed | TimedOut | LaunchFailed.

Section Supervisor.

Context `{RT : Runtime}.
(** The process-wide state that the [close] handler updates. *)
Context {S : Type}.
(** The body of the [close] handler after [settled = true], from
    [startedAt], the process-wide state, stdout, stderr, the exit code
    and the clock. *)
Variable onClose : Z -> S -> jsstring -> jsstring -> option Z -> Clock
                   -> S * ProbeResponse.
(** Whether the child's stdout is piped and listened to. *)
Variable pipesStdout : bool.

(** The variables of the promise body. *)
Record Invocation := {
  i_command : jsstring;
  i_args : list jsstring;
  i_timeoutMs : Q;
  i_startedAt : Z;
  timerPending : bool;
  settled : bool;
  stdoutText : jsstring;
  stderrText : jsstring;
  kills : list Signal;
  resolves : list (Outcome * ProbeResponse);
  store : S
}.

Definition spawnWith (command : jsstring) (args : list jsstring)
    (timeoutMs : Q) (startedAt : Z) (st : S) : Invocation :=
  {| i_command := command; i_args := args; i_timeoutMs := timeoutMs;
     i_startedAt := startedAt;
     timerPending := true; settled := false;
     stdoutText := []; stderrText := [];
     kills := []; resolves := []; store := st |}.

Definition start (env : Env) (startedAt : Z) (st : S) : Invocation :=
  spawnWith (commandOf env) (argsOf env) (timeoutMsOf env) startedAt st.

Definition failure (i : Invocation) (clock : Clock) (error : jsstring)
  : ProbeResponse :=
  {| r_ok := false; r_checkedAt := isoNow clock;
     r_durationMs := nowMs clock - i_startedAt i;
     r_summary := emptySummary; r_nodes := [];
     r_stderr := Some (stderrText i);
     r_error := Some error; r_raw := None |}.

Definition onTimeout (i : Invocation) (clock : Clock) : Invocation :=
  if settled i then
    {| i_command := i_command i; i_args := i_args i;
       i_timeoutMs := i_timeoutMs i; i_startedAt := i_startedAt i;
       timerPending := false; settled := settled i;
       stdoutText := stdoutText i; stderrText := stderrText i;
       kills := kills i; resolves := resolves i; store := store i |}
  else
    {| i_command := i_command i; i_args := i_args i;
       i_timeoutMs := i_timeoutMs i; i_startedAt := i_startedAt i;
       timerPending := false; settled := true;
       stdoutText := stdoutText i; stderrText := stderrText i;
       kills := kills i ++ [SIGTERM];
       resolves :=
         resolves i ++
         [(TimedOut,
           failure i clock
             (lit "derpprobe timed out after "
              ++ numberToString (i_timeoutMs i) ++ lit "ms"))];
       store := store i |}.

Definition onError (i : Invocation) (message : jsstring) (clock : Clock)
  : Invocation :=
  if settled i then i
  else
    {| i_command := i_command i; i_args := i_args i;
       i_timeoutMs := i_timeoutMs i; i_startedAt := i_startedAt i;
       timerPending := false; settled := true;
       stdoutText := stdoutText i; stderrText := stderrText i;
       kills := kills i;
       resolves := resolves i ++ [(LaunchFailed, failure i clock message)];
       store := store i |}.

Definition onCloseEvent (i : Invocation) (code : option Z) (clock : Clock)
  : Invocation :=
  if settled i then i
  else
    let '(st', response) :=
      onClose (i_startedAt i) (store i) (stdoutText i) (stderrText i)
        code clock in
    {| i_command := i_command i; i_args := i_args i;
       i_timeoutMs := i_timeoutMs i; i_startedAt := i_startedAt i;
       timerPending := false; settled := true;
       stdoutText := stdoutText i; stderrText := stderrText i;
       kills := kills i;
       resolves := resolves i ++ [(Completed, response)];
       store := st' |}.

Definition onData (i : Invocation) (toStdout : bool) (chunk : jsstring)
  : Invocation :=
  {| i_command := i_command i; i_args := i_args i;
     i_timeoutMs := i_timeoutMs i; i_startedAt := i_startedAt i;
     timerPending := timerPending i; settled := settled i;
     stdoutText := if toStdout then stdoutText i ++ chunk else stdoutText i;
     stderrText := if toStdout then stderrText i else stderrText i ++ chunk;
     kills := kills i; resolves := resolves i; store := store i |}.

(** One turn of the event loop.  A timer that was cleared, or that has
    run, does not run its callback. *)
Definition step (i : Invocation) (e : Event) : Invocation :=
  match e with
  | TimerFired clock => if timerPending i then onTimeout i clock else i
  | StdoutData chunk => if pipesStdout then onData i true chunk else i
  | StderrData chunk => onData i false chunk
  | ChildError message clock => onError i message clock
  | ChildClose code clock => onCloseEvent i code clock
  end.

Definition run (i : Invocation) (events : list Event) : Invocation :=
  fold_left step events i.

(** The value of the promise: the argument of the first [resolve]. *)
Definition result (i : Invocation) : option ProbeResponse :=
  match resolves i with
  | [] => None
  | (_, response) :: _ => Some response
  end.

Definition outcome (i : Invocation) : option Outcome :=
  match resolves i with
  | [] => None
  | (o, _) :: _ => Some o
  end.

Definition isTerminal (e : Event) : bool :=
  match e with
  | TimerFired _ | ChildError _ _ | ChildClose _ _ => true
  | StdoutData _ | StderrData _ => false
  end.

End Supervisor.

Arguments Invocation S : clear implicits.

(** The supervisor of the calibrated revision:
    [stdio: ['ignore', 'ignore', 'pipe']].  The region table is the one
    that [loadRegionIdMapFromDerpMap] read; it is handed in. *)
Definition LogEngine_onClose `{Runtime} (regionIdMap : gmap jsstring Q)
    (startedAt : Z) (st : LogEngine.Store) (stdout stderr : jsstring)
    (code : option Z) (clock : Clock) : LogEngine.Store * ProbeResponse :=
  LogEngine.complete regionIdMap startedAt st stderr code
    (nowMs clock) (createdMs clock) (isoNow clock).

Definition LogEngine_run `{Runtime} (regionIdMap : gmap jsstring Q)
    (i : Invocation LogEngine.Store) (events : list Event)
  : Invocation LogEngine.Store :=
  run (LogEngine_onClose regionIdMap) false i events.

(** [runDerpprobe] of the calibrated revision: the value of the promise
    and the process-wide state after the events of one child process. *)
Definition LogEngine_runDerpprobe `{Runtime} (env : Env)
    (regionIdMap : gmap jsstring Q) (startedAt : Z) (st : LogEngine.Store)
    (events : list Event) : option ProbeResponse * LogEngine.Store :=
  let i := LogEngine_run regionIdMap (start env startedAt st) events in
  (result i, store i).

(** The supervisor of the raw-output revision:
    [stdio: ['ignore', 'pipe', 'pipe']]. *)
Definition RawEngine_onClose `{Runtime} (regionIdMap : gmap jsstring Q)
    (startedAt : Z) (st : unit) (stdout stderr : jsstring)
    (code : option Z) (clock : Clock) : unit * ProbeResponse :=
  (st, RawEngine.complete regionIdMap startedAt stdout stderr code
         (nowMs clock) (isoNow clock)).

Definition RawEngine_run `{Runtime} (regionIdMap : gmap jsstring Q)
    (i : Invocation unit) (events : list Event) : Invocation unit :=
  run (RawEngine_onClose regionIdMap) true i events.

(** [runDerpprobe] of the raw-output revision. *)
Definition RawEngine_runDerpprobe `{Runtime} (env : Env)
    (regionIdMap : gmap jsstring Q) (startedAt : Z) (events : list Event)
  : option ProbeResponse :=
  result (RawEngine_run regionIdMap (start env startedAt tt) events).

(** ** The region table ([loadRegionIdMapFromDerpMap], both revisions) *)

(** The file system calls of the loader; [None] when the call throws. *)
Class FileSystem := {
  (** [fileURLToPath(url)] *)
  fileURLToPath : jsstring -> option jsstring;
  (** [readFileSync(path, 'utf8')] *)
  readFileSync : jsstring -> option jsstring
}.

(** [Object.values(v)] of an object or an array. *)
Definition Object_values (v : json) : list json :=
  match v with
  | JObj props => map snd props
  | JArr items => items
  | _ => []
  end.

(** The body of the loop over the regions: the code and the id of a
    region that has both.  A value that is no object is skipped, and so
    is an array, which has no [RegionCode]. *)
Definition regionEntry `{Runtime} (value : json) : option (jsstring * Q) :=
  match value with
  | JObj region =>
      let regionCode :=
        match RawEngine.getProp (lit "RegionCode") region with
        | Some (JStr s) => toLowerCase (trim s)
        | _ => []
        end in
      match regionCode,
            toNumber (RawEngine.getProp (lit "RegionID") region) with
      | _ :: _, Some regionId => Some (regionCode, regionId)
      | _, _ => None
      end
  | _ => None
  end.

(** The loop: [map.set(regionCode, regionId)] for every such region. *)
Definition regionsTable `{Runtime} (regions : json) : gmap jsstring Q :=
  fold_left
    (fun table value =>
       match regionEntry value with
       | Some (regionCode, regionId) => <[regionCode := regionId]> table
       | None => table
       end)
    (Object_values regions) ∅.

(** The [try] block, [None] when something in it throws: the path
    conversion, the read, the decoding, or the read of [Regions] from
    [null]. *)
Definition readRegions `{Runtime} `{FileSystem} (location : jsstring)
  : option (gmap jsstring Q) :=
  path ← (if startsWith (lit "file://") location
          then fileURLToPath location
          else Some location);
  content ← readFileSync path;
  parsed ← JSON_parse content;
  match parsed with
  | JNull => None
  | JObj props =>
      match RawEngine.getProp (lit "Regions") props with
      | Some (JObj region) => Some (regionsTable (JObj region))
      | Some (JArr items) => Some (regionsTable (JArr items))
      | _ => Some ∅
      end
  | _ => Some ∅
  end.

Definition loadRegionIdMapFromDerpMap `{Runtime} `{FileSystem}
    (derpMapLocation : option jsstring) : gmap jsstring Q :=
  match derpMapLocation with
  | None => ∅
  | Some location =>
      if negb (nonEmpty location) || negb (nonEmpty (trim location)) then ∅
      else
        match readRegions location with
        | Some table => table
        | None => ∅
        end
  end.

(** The table [runDerpprobe] reads before it spawns the probe. *)
Definition regionIdMapOf `{Runtime} `{FileSystem} (env : Env)
  : gmap jsstring Q :=
  loadRegionIdMapFromDerpMap (DERPPROBE_DERP_MAP env).

(** ** The route handler ([app/api/probe/route.ts]) *)

Record HttpResponse := {
  h_status : Z;
  h_headers : list (jsstring * jsstring);
  h_body : ProbeResponse
}.

(** [GET], from the response that [runDerpprobe] resolved with. *)
Definition GET (result : ProbeResponse) : HttpResponse :=
  {| h_status := if r_ok result then 200 else 503;
     h_headers := [(lit "Cache-Control", lit "no-store, max-age=0")];
     h_body := result |}.

(** ** The dashboard ([components/dashboard.tsx]) *)

Module Dashboard.

(** A number as [formatMs] may be handed it; [Finite q] is the binary64
    number of value [q]. *)
Inductive number := Finite (q : Q) | PosInfinity | NegInfinity | NaN.

Definition statusClass (status : ProbeStatus) : jsstring :=
  match status with
  | healthy => lit "status status-healthy"
  | degraded => lit "status status-degraded"
  | down => lit "status status-down"
  | unknown => lit "status status-unknown"
  end.

(** [x.toFixed(2)], the text, for a number from 0 up to 10^21. *)
Definition toFixed2Text (x : Q) : jsstring :=
  let hundredths := Qfloor (x * 100 + (1 # 2))%Q in
  let fraction := hundredths mod 100 in
  decimal (hundredths / 100)
  ++ 46%N :: decimal (fraction / 10) ++ decimal (fraction mod 10).

(** [formatMs(value)]; [None] is [null] or [undefined], and the literal
    [0.4] is the binary64 number nearest to 4/10. *)
Definition formatMs `{Runtime} (value : option number) : jsstring :=
  match value with
  | None => lit "-"
  | Some NegInfinity => lit "0 ms"
  | Some PosInfinity => lit "Infinity ms"
  | Some NaN => lit "NaN ms"
  | Some (Finite v) =>
      if Qle_bool v (literalOf (4 # 10)) then lit "0 ms"
      else if Qltb v 1 then
        let rounded := toFixed2 v in
        if Qeq_bool rounded 0 then lit "0 ms"
        else toFixed2Text rounded ++ lit " ms"
      else numberToString (Math_round v) ++ lit " ms"
  end.

(** ['derpprobe 실행 중 오류가 발생했습니다.'] *)
Definition fallbackError : jsstring :=
  lit "derpprobe "
  ++ [49892; 54665; 32; 51473; 32; 50724; 47448; 44032; 32; 48156; 49373;
      54664; 49845; 45768; 45796; 46]%N.

(** [response.ok] of [fetch]. *)
Definition responseOk (h : HttpResponse) : bool :=
  (200 <=? h_status h) && (h_status h <=? 299).

(** The argument of [setError] in [fetchProbe], when the request and the
    decoding of its body succeed: [null] is [None]. *)
Definition shownError (h : HttpResponse) : option jsstring :=
  if responseOk h then None
  else
    Some match r_error (h_body h) with
         | Some (c :: error) => c :: error
         | _ =>
             match r_stderr (h_body h) with
             | Some (c :: stderr) => c :: stderr
             | _ => fallbackError
             end
         end.

End Dashboard.

(** ** A runtime to run the engine on ASCII data

    It compares strings by code units, reads a number only from a string
    of digits, prints the integer part of a number and decodes no JSON. *)

Fixpoint compareUnits (a b : jsstring) : Z :=
  match a, b with
  | [], [] => 0
  | [], _ :: _ => -1
  | _ :: _, [] => 1
  | x :: a', y :: b' =>
      if N.ltb x y then -1
      else if N.ltb y x then 1
      else compareUnits a' b'
  end.

Definition digitsToNumber (s : jsstring) : jsnumber :=
  match s with
  | [] => Fin 0
  | _ => if forallb isDigit s then decimalValue s [] else NonFinite
  end.

Definition asciiRuntime : Runtime :=
  {| localeCompare := compareUnits;
     toLowerCase := map lowerUnit;
     stringToNumber := digitsToNumber;
     numberToString := fun q => decimal (Qfloor q);
     JSON_parse := fun _ => None;
     JSON_stringify := fun _ => lit "[object]" |}.

(** ** A runtime that collates

    Its [localeCompare] compares sort keys, as a collation does: a
    zero-width space (U+200B) counts for nothing, letters are compared
    without regard to case first and, the rest being equal, a lower-case
    letter comes before its capital.  Different strings may compare as
    equal. *)

Definition isIgnorable (c : N) : bool := N.eqb c 8203.

Definition isCapital (c : N) : bool := N.leb 65 c && N.leb c 90.

Definition collationKey (s : jsstring) : jsstring :=
  let units := filter (fun c => negb (isIgnorable c)) s in
  map lowerUnit units
  ++ 0%N :: map (fun c => if isCapital c then 1%N else 0%N) units.

Definition collatingRuntime : Runtime :=
  {| localeCompare := fun a b =>
       compareUnits (collationKey a) (collationKey b);
     toLowerCase := map lowerUnit;
     stringToNumber := digitsToNumber;
     numberToString := fun q => decimal (Qfloor q);
     JSON_parse := fun _ => None;
     JSON_stringify := fun _ => lit "[object]" |}.

(** ** The wording of the specification

    These definitions follow the text of the specification, not the
    source; they are compared with the source's functions below. *)




(** * Notions used in the statements *)

(** ** Argument assembly *)


(** ** ProcessSupervisor *)

Definition outcomeOfEvent (e : Event) : Outcome :=
  match e with
  | ChildClose _ _ => Completed
  | ChildError _ _ => LaunchFailed
  | _ => TimedOut
  end.

(** The states the promise body can be in: while unsettled the timer is
    pending and [resolve] was not called; once settled the timer is gone
    and [resolve] was called once. *)
Definition consistent {S : Type} (i : Invocation S) : Prop :=
  if settled i
  then timerPending i = false /\ length (resolves i) = 1%nat
  else timerPending i = true /\ resolves i = [].

(** ** Response assembly *)

Definition capturedStderr (events : list Event) : jsstring :=
  flat_map (fun e => match e with StderrData chunk => chunk | _ => [] end)
    events.

Definition capturedStdout (events : list Event) : jsstring :=
  flat_map (fun e => match e with StdoutData chunk => chunk | _ => [] end)
    events.

(** The leniency rule of the raw-output revision, over the lines of the
    diagnostic text (timestamps stripped, blank lines dropped): some line
    starts with ["bad: derp/"]; every such line holds ["/udp6:"],
    ["network is unreachable"] and one of ["write udp [::]"] and
    ["dial udp [::]"]; no line that starts with ["good: derp/"] holds
    ["/udp6:"], and some line starts with ["good: derp/"]. *)
Definition ipv6OnlyFailure (stderr : jsstring) : Prop :=
  let lines := logLines stderr in
  let isBad := startsWith (lit "bad: derp/") in
  let isGood := startsWith (lit "good: derp/") in
  (exists line, In line lines /\ isBad line = true)
  /\ (forall line, In line lines -> isBad line = true ->
        includes (lit "/udp6:") line = true
        /\ includes (lit "network is unreachable") line = true
        /\ (includes (lit "write udp [::]") line = true
            \/ includes (lit "dial udp [::]") line = true))
  /\ (forall line, In line lines -> isGood line = true ->
        includes (lit "/udp6:") line = false)
  /\ (exists line, In line lines /\ isGood line = true).

(** The failures the specification speaks of: the [bad] lines of the
    grammar. *)
Definition spec_failures (stderr : jsstring) : list ProbeLine :=
  flat_map (fun line => match readProbeLine line with
                        | Some l =>
                            if streq (pl_level l) (lit "bad") then [l] else []
                        | None => []
                        end)
    (logLines stderr).

(** "attributable to host-level IPv6 unavailability": a udp6 "network is
    unreachable" failure from the unspecified address. *)
Definition spec_hostLevelFailure (l : ProbeLine) : bool :=
  isUdp6Unreachable l
  && (includes (lit "write udp [::]") (pl_resultText l)
      || includes (lit "dial udp [::]") (pl_resultText l)).

(** "all observed failures are attributable to host-level IPv6
    unavailability"; "every [bad] line across the whole cycle is a udp6
    network is unreachable failure whose text contains an
    unspecified-address marker". *)
Definition spec_allFailuresHostLevel (stderr : jsstring) : bool :=
  forallb spec_hostLevelFailure (spec_failures stderr).

(** ** LatencyCalibrator *)





(** ** LogParser *)

Definition readLines (lines : list jsstring) : list ProbeLine :=
  flat_map (fun line => match readProbeLine line with
                        | Some l => [l]
                        | None => []
                        end) lines.

(** The lines of the grammar in a diagnostic text, in order. *)
Definition probeLines (stderr : jsstring) : list ProbeLine :=
  readLines (logLines stderr).

Definition isGoodLine (l : ProbeLine) : bool := streq (pl_level l) (lit "good").

Definition linesOf (id : jsstring) (ls : list ProbeLine) : list ProbeLine :=
  filter (fun l => streq (pl_id l) id) ls.

Definition successes (id : jsstring) (ls : list ProbeLine) : nat :=
  length (filter isGoodLine (linesOf id ls)).

Definition failures (id : jsstring) (ls : list ProbeLine) : nat :=
  length (filter (fun l => negb (isGoodLine l)) (linesOf id ls)).

(** A failure that is not a udp6 "network is unreachable" failure. *)
Definition isOtherFailure (l : ProbeLine) : bool :=
  negb (isGoodLine l) && negb (isUdp6Unreachable l).

Definition isUdp6UnreachableFailure (l : ProbeLine) : bool :=
  negb (isGoodLine l) && isUdp6Unreachable l.

Definition hasOtherFailure (id : jsstring) (ls : list ProbeLine) : bool :=
  existsb isOtherFailure (linesOf id ls).






(** The counters of an aggregate, common to the [TempNode] of both
    revisions. *)
Record Counts := {
  c_id : jsstring;
  c_good : Z;
  c_bad : Z;
  c_badUdp6 : Z;
  c_nonUdp6Error : bool
}.

Definition LogEngine_counts (node : LogEngine.TempNode) : Counts :=
  {| c_id := LogEngine.t_id node; c_good := LogEngine.t_good node;
     c_bad := LogEngine.t_bad node; c_badUdp6 := LogEngine.t_badUdp6 node;
     c_nonUdp6Error := LogEngine.t_nonUdp6Error node |}.

Definition RawEngine_counts (node : RawEngine.TempNode) : Counts :=
  {| c_id := RawEngine.t_id node; c_good := RawEngine.t_good node;
     c_bad := RawEngine.t_bad node; c_badUdp6 := RawEngine.t_badUdp6 node;
     c_nonUdp6Error := RawEngine.t_nonUdp6Error node |}.

(** What both loop bodies do to the counters; [exempt] says whether udp6
    "network is unreachable" failures are left out of [badUdp6]. *)
Definition bumpCounts (exempt : bool) (l : ProbeLine) (c : Counts) : Counts :=
  if streq (pl_level l) (lit "good") then
    {| c_id := c_id c; c_good := c_good c + 1; c_bad := c_bad c;
       c_badUdp6 := c_badUdp6 c; c_nonUdp6Error := c_nonUdp6Error c |}
  else
    {| c_id := c_id c; c_good := c_good c; c_bad := c_bad c + 1;
       c_badUdp6 :=
         if isUdp6Unreachable l && negb exempt
         then c_badUdp6 c + 1 else c_badUdp6 c;
       c_nonUdp6Error :=
         if isUdp6Unreachable l then c_nonUdp6Error c else true |}.

Definition freshCounts (l : ProbeLine) : Counts :=
  {| c_id := pl_id l; c_good := 0; c_bad := 0; c_badUdp6 := 0;
     c_nonUdp6Error := false |}.


(** The loop body of both revisions, over the way a revision makes and
    updates its [TempNode]. *)
Definition aggregateWith {T} (newNode : ProbeLine -> T)
    (record : ProbeLine -> T -> T) (m : list (jsstring * T))
    (line : jsstring) : list (jsstring * T) :=
  match readProbeLine line with
  | None => m
  | Some l =>
      let node :=
        match mapGet (pl_id l) m with
        | Some node => node
        | None => newNode l
        end in
      mapSet (pl_id l) (record l node) m
  end.

(** What the counters hold about the lines read so far. *)
Record summarises (exempt : bool) (ls : list ProbeLine) (k : jsstring)
    (c : Counts) : Prop := {
  sum_id : c_id c = k;
  sum_good : c_good c = Z.of_nat (successes k ls);
  sum_bad : c_bad c = Z.of_nat (failures k ls);
  sum_other : c_nonUdp6Error c = hasOtherFailure k ls;
  sum_udp6 :
    c_badUdp6 c
    = if exempt then 0
      else Z.of_nat (length (filter isUdp6UnreachableFailure (linesOf k ls)))
}.

(** The aggregate after the lines [done]: one entry per node id seen,
    each summarising the lines of its node. *)
Record aggregated {T} (view : T -> Counts) (exempt : bool)
    (done : list jsstring) (m : list (jsstring * T)) : Prop := {
  agg_nodup : NoDup (map fst m);
  agg_keys : forall k, mapGet k m = None <-> linesOf k (readLines done) = [];
  agg_sum : forall k node,
    mapGet k m = Some node ->
    summarises exempt (readLines done) k (view node)
}.

(** ** Latency text *)

(** The text of a number: integer digits, then a dot and fraction digits
    when there are any. *)
Definition numberText (ds fs : jsstring) : jsstring :=
  match fs with
  | [] => ds
  | _ => ds ++ 46%N :: fs
  end.

(** The units the calibrated pattern lets through under its [i] flag:
    ms in either case, and us, µs (U+00B5) and μs (U+03BC, with its
    capital U+039C) in either case. *)
Definition milliUnits : list jsstring :=
  [[109; 115]; [109; 83]; [77; 115]; [77; 83]]%N.

Definition microUnits : list jsstring :=
  [[117; 115]; [117; 83]; [85; 115]; [85; 83]; [181; 115]; [181; 83];
   [956; 115]; [956; 83]; [924; 115]; [924; 83]]%N.

(** Where a match of the calibrated pattern may end: [\b] after the
    unit. *)
Definition wordEnd (post : jsstring) : Prop :=
  match post with
  | [] => True
  | c :: _ => isWordChar c = false
  end.

(** The calibrated pattern [/([0-9]+(?:\.[0-9]+)?)\s*(ms|µs|μs|us)\b/i]
    matches at the head of [s], with the number [ds.fs] and the unit
    [unit]. *)
Definition matchesAt (s ds fs unit : jsstring) : Prop :=
  exists ws post,
    s = numberText ds fs ++ ws ++ unit ++ post
    /\ ds <> [] /\ forallb isDigit ds = true /\ forallb isDigit fs = true
    /\ forallb isWhiteSpace ws = true
    /\ In unit (milliUnits ++ microUnits)
    /\ wordEnd post.

(** The pattern of the raw-output revision, [/([0-9]+(?:\.[0-9]+)?)ms/],
    matches at the head of [s] with the number [ds.fs]. *)
Definition rawMatchesAt (s ds fs : jsstring) : Prop :=
  exists post,
    s = numberText ds fs ++ lit "ms" ++ post
    /\ ds <> [] /\ forallb isDigit ds = true /\ forallb isDigit fs = true.

(** In the text [pre ++ tail] no match starts inside [pre]: a match at
    the head of [tail] is the leftmost one. *)
Definition unmatched (matches : jsstring -> Prop) (pre tail : jsstring)
  : Prop :=
  forall p1 p2, pre = p1 ++ p2 -> p2 <> [] -> ~ matches (p2 ++ tail).

(** ** RawOutputParser *)

(** The spellings under which a latency is looked for. *)
Definition latencyNames : list jsstring :=
  [lit "latencyMs"; lit "latency_ms"; lit "latency"; lit "pingMs"].

Definition lossNames : list jsstring :=
  [lit "lossPct"; lit "loss_pct"; lit "packetLossPct"].

Definition errorNames : list jsstring :=
  [lit "error"; lit "err"; lit "message"].

(** The object has a property [k] and its value is [v]. *)
Definition holds (obj : jsobject) (k : jsstring) (v : json) : Prop :=
  exists front back,
    obj = front ++ (k, v) :: back /\ ~ In k (map fst front).

(** The field [k] of the object is the non-empty text [s]. *)
Definition textField (obj : jsobject) (k s : jsstring) : Prop :=
  holds obj k (JStr s) /\ s <> [].

(** The field [k] of the object reads as the number [q]: a finite number,
    or a text that converts to one. *)
Definition numberField `{Runtime} (obj : jsobject) (k : jsstring) (q : Q)
  : Prop :=
  holds obj k (JNum (Fin q))
  \/ exists s, holds obj k (JStr s) /\ stringToNumber s = Fin q.

(** [result] is what the first of the fields [names] that reads gives,
    and nothing when none of them reads. *)
Definition firstField {A} (reads : jsstring -> A -> Prop)
    (names : list jsstring) (result : option A) : Prop :=
  match result with
  | Some a =>
      exists front k back,
        names = front ++ k :: back
        /\ reads k a
        /\ forall k' a', In k' front -> ~ reads k' a'
  | None => forall k a, In k names -> ~ reads k a
  end.

(** The status rule of the RawOutputParser, from the three values read
    from an object. *)
Definition rawRule (err : option jsstring) (latency loss : option Q)
  : ProbeStatus :=
  match err with
  | Some _ => down
  | None =>
      match latency with
      | None => unknown
      | Some l =>
          if match loss with Some p => Qle_bool 20 p | None => false end
             || Qle_bool 180 l
          then degraded
          else healthy
      end
  end.

(** What a node produced from an object carries. *)
Definition fromObject `{Runtime} (obj : jsobject) (node : ProbeNodeResult)
  : Prop :=
  n_raw node = Some obj
  /\ firstField (textField obj) errorNames (n_message node)
  /\ firstField (numberField obj) latencyNames (n_latencyMs node)
  /\ firstField (numberField obj) lossNames (n_lossPct node)
  /\ n_status node
     = rawRule (n_message node) (n_latencyMs node) (n_lossPct node).

(** ** Region ordering *)

(** The order the comparator sorts by: nodes with a key first, by key;
    nodes without a key, and nodes with equal keys, by name and then by
    region under [localeCompare]. *)
Definition nameLe `{Runtime} (a b : ProbeNodeResult) : Prop :=
  localeCompare (n_name a) (n_name b) < 0
  \/ (n_name a = n_name b
      /\ localeCompare (regionOr (n_region a)) (regionOr (n_region b)) <= 0).

Definition nodeLe `{Runtime} (regionIdMap : gmap jsstring Q)
    (a b : ProbeNodeResult) : Prop :=
  match regionSortValue a regionIdMap, regionSortValue b regionIdMap with
  | Some x, Some y => (x < y)%Q \/ ((x == y)%Q /\ nameLe a b)
  | Some _, None => True
  | None, Some _ => False
  | None, None => nameLe a b
  end.

(** No two of the nodes have different names that [localeCompare] takes
    for equal. *)
Definition separatedNames `{Runtime} (nodes : list ProbeNodeResult) : Prop :=
  forall a b, In a nodes -> In b nodes ->
    localeCompare (n_name a) (n_name b) = 0 -> n_name a = n_name b.

(** No two of the nodes have the same name and regions that
    [localeCompare] takes for equal. *)
Definition separatedRegions `{Runtime} (nodes : list ProbeNodeResult)
  : Prop :=
  forall a b, In a nodes -> In b nodes ->
    n_name a = n_name b ->
    localeCompare (regionOr (n_region a)) (regionOr (n_region b)) = 0 ->
    a = b.


(** [a] may come before [b] under a comparator: the comparator is not
    positive. *)
Definition signLe {A} (cmp : A -> A -> Q) (a b : A) : Prop :=
  Qle_bool (cmp a b) 0 = true.

(** ** Aggregates and names *)

(** The id of an aggregate is its name, a dash and its region. *)
Definition wellNamed (m : list (jsstring * LogEngine.TempNode)) : Prop :=
  forall k node, In (k, node) m ->
    exists region,
      LogEngine.t_region node = Some region
      /\ k = LogEngine.t_name node ++ lit "-" ++ region.

(** ** Data of the examples *)

Definition exampleTable : gmap jsstring Q :=
  <[lit "sea" := 1%Q]> (<[lit "nyc" := 2%Q]> ∅).

Definition exampleClock : Clock := {| nowMs := 1000; isoNow := lit "now";
                 createdMs := fun _ => 1000 |}.

Definition nodeA : ProbeNodeResult :=
  {| n_id := lit "nyc-us-east"; n_name := lit "nyc";
     n_region := Some (lit "us-east"); n_latencyMs := None;
     n_lossPct := None; n_avgLatencyMs := None; n_status := healthy;
     n_message := None; n_checkedAt := lit "now"; n_raw := None |}.

Definition nodeB : ProbeNodeResult :=
  {| n_id := lit "sea-us-west"; n_name := lit "sea";
     n_region := Some (lit "us-west"); n_latencyMs := None;
     n_lossPct := None; n_avgLatencyMs := None; n_status := healthy;
     n_message := None; n_checkedAt := lit "now"; n_raw := None |}.


(** ** Argument tokens *)

(** A token as the probe takes it from the configured text: not empty,
    free of spaces and of surrounding white space, and no JSON flag. *)
Definition plainToken (token : jsstring) : Prop :=
  token <> [] /\ isJsonFlag token = false /\ trim token = token
  /\ ~ In 32%N token.

(** ** Responses and side effects *)

(** The summary of a response is the summary of its nodes, and the
    response carries an error text exactly when it is not ok. *)
Definition coherent (r : ProbeResponse) : Prop :=
  r_summary r = summarize (r_nodes r)
  /\ s_total (r_summary r) = Z.of_nat (length (r_nodes r))
  /\ (r_ok r = true <-> r_error r = None).

(** What the supervisor has done so far, against the state [st0] it was
    started with: nothing while the promise is open; once it is resolved,
    a signal exactly after a timeout, and a change of the process-wide
    state only through the [close] handler. *)
Definition effectsOk {S : Type}
    (onClose : Z -> S -> jsstring -> jsstring -> option Z -> Clock
               -> S * ProbeResponse)
    (startedAt : Z) (st0 : S) (i : Invocation S) : Prop :=
  i_startedAt i = startedAt
  /\ match resolves i with
     | [] =>
         settled i = false /\ timerPending i = true
         /\ kills i = [] /\ store i = st0
     | [(o, _)] =>
         settled i = true /\ timerPending i = false
         /\ match o with
            | TimedOut => kills i = [SIGTERM] /\ store i = st0
            | LaunchFailed => kills i = [] /\ store i = st0
            | Completed =>
                kills i = []
                /\ exists stdout stderr code clock,
                     store i
                     = fst (onClose startedAt st0 stdout stderr code clock)
            end
     | _ => False
     end.

(** ** Reported metrics *)

(** The loss percentage of a window with [s] successes among [n]
    samples. *)
Definition lossOfCounts (s n : nat) : Z :=
  Qfloor ((1 - inject_Z (Z.of_nat s) / inject_Z (Z.of_nat n)) * 100
          + (1 # 2))%Q.

Definition lossInRange (n s : nat) : bool :=
  let p := lossOfCounts s n in
  (0 <=? p) && (p <=? 100)
  && Bool.eqb (p =? 0) (s =? n)%nat
  && Bool.eqb (p =? 100) (s =? 0)%nat.

(** What one node reports after smoothing. *)
Definition inRange (node : ProbeNodeResult) : Prop :=
  (exists p : Z, n_lossPct node = Some (inject_Z p) /\ 0 <= p <= 100)
  /\ (forall v, n_latencyMs node = Some v ->
        (0 <= v)%Q /\ exists k : Z, (v == k # 100)%Q).

(** The fields of a node that smoothing leaves alone. *)
Definition identityOf (n : ProbeNodeResult) :=
  (n_id n, n_name n, n_region n, n_status n, n_message n, n_checkedAt n,
   n_raw n).

(** A node as the parser hands it over, with a latency of 31 ms. *)
Definition nodeWithLatency : ProbeNodeResult :=
  {| n_id := lit "nyc-us-east"; n_name := lit "nyc";
     n_region := Some (lit "us-east"); n_latencyMs := Some 31%Q;
     n_lossPct := None; n_avgLatencyMs := None; n_status := healthy;
     n_message := None; n_checkedAt := lit "now"; n_raw := None |}.

(** ** Log lines *)

(** [n] digits. *)
Definition isNumeral (n : nat) (ds : jsstring) : Prop :=
  length ds = n /\ forallb isDigit ds = true.

(** White space, at least one unit. *)
Definition isGap (g : jsstring) : Prop :=
  g <> [] /\ forallb isWhiteSpace g = true.

(** The timestamp of the logger: date, white space, time, white space. *)
Definition stamp (y mo d gap1 h mi s gap2 : jsstring) : jsstring :=
  y ++ 47%N :: mo ++ 47%N :: d ++ gap1 ++ h ++ 58%N :: mi ++ 58%N :: s ++ gap2.

(** Its parts: digits by number, and white space. *)
Definition isStamp (y mo d gap1 h mi s gap2 : jsstring) : Prop :=
  isNumeral 4 y /\ isNumeral 2 mo /\ isNumeral 2 d /\ isGap gap1
  /\ isNumeral 2 h /\ isNumeral 2 mi /\ isNumeral 2 s /\ isGap gap2.

(** ** The line grammar *)

(** The line the probe prints for a result. *)
Definition formatLine (l : ProbeLine) : jsstring :=
  pl_level l ++ lit ": derp/"
  ++ pl_shortRegion l ++ 47%N :: pl_cloudRegion l ++ 47%N :: pl_probeType l
  ++ lit ": " ++ pl_resultText l.

(** A path segment: no colon, no slash, no line feed. *)
Definition isSegment (s : jsstring) : Prop :=
  ~ In 58%N s /\ ~ In 47%N s /\ ~ In 10%N s.

(** A result as the probe prints it: a level, three path segments and a
    result text that is not empty, is trimmed and stays on its line. *)
Definition printable (l : ProbeLine) : Prop :=
  (pl_level l = lit "good" \/ pl_level l = lit "bad")
  /\ isSegment (pl_shortRegion l) /\ isSegment (pl_cloudRegion l)
  /\ isSegment (pl_probeType l)
  /\ pl_resultText l <> []
  /\ trim (pl_resultText l) = pl_resultText l
  /\ forallb (fun c => negb (isLineTerminator c)) (pl_resultText l) = true.

(** A result of the udp probe of the region [nyc]. *)
Definition exampleLine : ProbeLine :=
  {| pl_level := lit "good"; pl_shortRegion := lit "nyc";
     pl_cloudRegion := lit "us-east"; pl_probeType := lit "udp";
     pl_resultText := lit "31ms" |}.

(** ** Node fields *)






(** ** Raw records *)





(** ** The region table *)

(** The entry a region of the map document sets: under its
    [RegionCode] text, trimmed and in lower case, when that is not
    empty, the number its [RegionID] reads as. *)
Definition setsEntry `{Runtime} (value : json) (k : jsstring) (v : Q)
  : Prop :=
  exists region code,
    value = JObj region
    /\ holds region (lit "RegionCode") (JStr code)
    /\ k = toLowerCase (trim code)
    /\ k <> []
    /\ numberField region (lit "RegionID") v.

(** A map document with the two regions [NYC] and [sea]. *)
Definition exampleRegions : json :=
  JObj [(lit "1", JObj [(lit "RegionID", JNum (Fin 1));
                        (lit "RegionCode", JStr (lit " NYC "))]);
        (lit "2", JObj [(lit "RegionID", JNum (Fin 2));
                        (lit "RegionCode", JStr (lit "sea"))])].

(** A file system that holds no file. *)
Definition emptyFileSystem : FileSystem :=
  {| fileURLToPath := fun url => Some (skipn 7 url);
     readFileSync := fun _ => None |}.

(** ** The route and the dashboard *)

(** What the dashboard shows for a cycle that ended with outcome [o] and
    response [r], served by [GET]: the status is 200 exactly for an ok
    cycle, only a failed cycle shows an error text, and that text is
    never empty.  A failed completion and a timeout show the [error]
    text of the engine; a launch failure shows its message, or without
    one the diagnostic text read so far, or without both the fallback
    text. *)
Definition displayed `{Runtime} (timeoutMs : Q) (o : Outcome)
    (r : ProbeResponse) : Prop :=
  let h := GET r in
  (h_status h = 200 <-> r_ok r = true)
  /\ (h_status h = 503 <-> r_ok r = false)
  /\ (Dashboard.shownError h = None <-> r_ok r = true)
  /\ Dashboard.shownError h <> Some []
  /\ match o with
     | Completed =>
         r_ok r = false ->
         exists text,
           r_error r = Some text /\ Dashboard.shownError h = Some text
     | TimedOut =>
         r_ok r = false
         /\ Dashboard.shownError h
            = Some (lit "derpprobe timed out after "
                    ++ numberToString timeoutMs ++ lit "ms")
     | LaunchFailed =>
         r_ok r = false
         /\ exists message,
              r_error r = Some message
              /\ Dashboard.shownError h
                 = Some match message, r_stderr r with
                        | c :: m, _ => c :: m
                        | [], Some (c :: s) => c :: s
                        | [], _ => Dashboard.fallbackError
                        end
     end.

(** The timeout of the invocation is the one it was spawned with, and
    every response resolved so far is displayed as above. *)
Definition displays `{Runtime} {S : Type} (timeoutMs : Q) (i : Invocation S)
  : Prop :=
  i_timeoutMs i = timeoutMs
  /\ Forall (fun p => displayed timeoutMs (fst p) (snd p)) (resolves i).

(** [k] hundredths as [toFixed(2)] prints them. *)
Definition hundredthsText (k : Z) : jsstring :=
  let fraction := k mod 100 in
  decimal (k / 100)
  ++ 46%N :: decimal (fraction / 10) ++ decimal (fraction mod 10).

(** * Facts *)

Arguments lit : simpl never.

(** ** Strings *)

Lemma streq_spec (a b : jsstring) : streq a b = true <-> a = b.
Proof.
  revert b; induction a as [|x a IH]; intros [|y b]; simpl; split;
    try congruence; try discriminate.
  - rewrite andb_true_iff, N.eqb_eq, IH. intros [-> ->]; reflexivity.
  - intros H; injection H as -> ->.
    rewrite N.eqb_refl; simpl. apply IH; reflexivity.
Qed.

Lemma streq_refl (a : jsstring) : streq a a = true.
Proof. apply streq_spec; reflexivity. Qed.

Lemma streq_false (a b : jsstring) : streq a b = false <-> a <> b.
Proof.
  destruct (streq a b) eqn:E; split; try congruence.
  - apply streq_spec in E; congruence.
  - intros _ Hab. apply streq_spec in Hab. congruence.
Qed.

Lemma streq_sym (a b : jsstring) : streq a b = streq b a.
Proof.
  destruct (streq a b) eqn:E1, (streq b a) eqn:E2; try reflexivity.
  - apply streq_spec in E1; subst. rewrite streq_refl in E2; discriminate.
  - apply streq_spec in E2; subst. rewrite streq_refl in E1; discriminate.
Qed.



Lemma dropWhile_all {A} (p : A -> bool) (l : list A) :
  forallb p l = true -> dropWhile p l = [].
Proof.
  induction l as [|x l IH]; simpl; [reflexivity|].
  intros H; apply andb_true_iff in H as [Hx Hl]. rewrite Hx; auto.
Qed.

Lemma takeWhile_dropWhile {A} (p : A -> bool) (l : list A) :
  takeWhile p l ++ dropWhile p l = l.
Proof.
  induction l as [|x l IH]; simpl; [reflexivity|].
  destruct (p x); simpl; [rewrite IH|]; reflexivity.
Qed.

Lemma trim_blank (s : jsstring) : forallb isWhiteSpace s = true -> trim s = [].
Proof.
  intros H. unfold trim, trimStart, trimEnd.
  rewrite (dropWhile_all _ _ H). reflexivity.
Qed.

(** ** Argument assembly *)


Lemma hasOnceFlag_app (a b : list jsstring) :
  hasOnceFlag (a ++ b) = hasOnceFlag a || hasOnceFlag b.
Proof.
  induction a as [|t a IH]; cbn [hasOnceFlag app]; [reflexivity|].
  destruct (streq t (lit "-once") || streq t (lit "--once")); [reflexivity|].
  destruct (startsWith (lit "-once=") t || startsWith (lit "--once=") t);
    [reflexivity|exact IH].
Qed.

Lemma hasOnceFlag_appendDerpMapArg (args : list jsstring) derpMap :
  hasOnceFlag args = true ->
  hasOnceFlag (appendDerpMapArg args derpMap) = true.
Proof.
  intros H. unfold appendDerpMapArg.
  destruct derpMap as [m|]; [|exact H].
  destruct (negb (nonEmpty m) || negb (nonEmpty (trim m))); [exact H|].
  destruct (hasDerpMapFlag args); [exact H|].
  rewrite hasOnceFlag_app, H. reflexivity.
Qed.

Lemma parseArgs_blank (argsText : jsstring) :
  forallb isWhiteSpace argsText = true -> parseArgs argsText = [lit "-once"].
Proof. intros H. unfold parseArgs. rewrite (trim_blank _ H). reflexivity. Qed.

Lemma Qltb_lt (a b : Q) : Qltb a b = true <-> (a < b)%Q.
Proof.
  unfold Qltb. rewrite negb_true_iff. split.
  - intros H. apply Qnot_le_lt. intros Hle.
    apply Qle_bool_iff in Hle. congruence.
  - intros H. destruct (Qle_bool b a) eqn:E; [|reflexivity].
    apply Qle_bool_iff in E. exfalso. exact (Qlt_not_le _ _ H E).
Qed.

Lemma resolveTimeoutMs_once (base : Q) (args : list jsstring) :
  hasOnceFlag args = true -> (base < MIN_ONCE_TIMEOUT_MS)%Q ->
  resolveTimeoutMs base args = MIN_ONCE_TIMEOUT_MS.
Proof.
  intros H1 H2. unfold resolveTimeoutMs. rewrite H1.
  apply Qltb_lt in H2. rewrite H2. reflexivity.
Qed.

Lemma resolveTimeoutMs_floor (base : Q) (args : list jsstring) :
  hasOnceFlag args = true ->
  (MIN_ONCE_TIMEOUT_MS <= resolveTimeoutMs base args)%Q.
Proof.
  intros H1. unfold resolveTimeoutMs. rewrite H1. cbn [andb].
  destruct (Qltb base MIN_ONCE_TIMEOUT_MS) eqn:E.
  - apply Qle_refl.
  - unfold Qltb in E. apply negb_false_iff in E. apply Qle_bool_iff in E. exact E.
Qed.

(** C10. A configured argument string that is empty or holds only
    whitespace (also an unset [DERPPROBE_ARGS], which reads as the empty
    string) is assembled to exactly ['-once'] before any derp-map argument
    is appended; the argument list handed to the process then carries the
    single-shot flag, so the effective timeout is never below 65000 ms. *)
Theorem blank_args_select_single_shot `{Runtime} (argsText : jsstring) :
  forallb isWhiteSpace argsText = true ->
  parseArgs argsText = [lit "-once"]
  /\ (forall env,
        (DERPPROBE_ARGS env = Some argsText
         \/ (DERPPROBE_ARGS env = None /\ argsText = [])) ->
        hasOnceFlag (argsOf env) = true
        /\ (65000 <= timeoutMsOf env)%Q
        /\ ((configuredTimeoutMs env < 65000)%Q ->
            timeoutMsOf env = 65000%Q)).
Proof.
  intros Hblank. split; [apply parseArgs_blank; exact Hblank|].
  intros env Henv.
  assert (Hargs : hasOnceFlag (argsOf env) = true).
  { unfold argsOf. apply hasOnceFlag_appendDerpMapArg.
    destruct Henv as [->|[-> ->]].
    - rewrite (parseArgs_blank _ Hblank). reflexivity.
    - reflexivity. }
  split; [exact Hargs|]. split.
  - apply (resolveTimeoutMs_floor _ _ Hargs).
  - intros Hlt. apply (resolveTimeoutMs_once _ _ Hargs Hlt).
Qed.

Lemma blank_args_select_single_shot_witness :
  forallb isWhiteSpace (lit "  ") = true
  /\ parseArgs (lit "  ") = [lit "-once"].
Proof.
  split; [reflexivity|].
  exact (proj1 (@blank_args_select_single_shot asciiRuntime (lit "  ")
                  eq_refl)).
Defined.

(** ** ProcessSupervisor *)

Section SupervisorFacts.

Context `{RT : Runtime} {S : Type}.
Variable onClose : Z -> S -> jsstring -> jsstring -> option Z -> Clock
                   -> S * ProbeResponse.
Variable pipesStdout : bool.

Notation sstep := (step onClose pipesStdout).
Notation srun := (run onClose pipesStdout).

Lemma consistent_spawn command args timeoutMs startedAt (st : S) :
  consistent (spawnWith command args timeoutMs startedAt st).
Proof. split; reflexivity. Qed.

Lemma run_cons (i : Invocation S) (e : Event) (events : list Event) :
  srun i (e :: events) = srun (sstep i e) events.
Proof. reflexivity. Qed.

Lemma run_app (i : Invocation S) (a b : list Event) :
  srun i (a ++ b) = srun (srun i a) b.
Proof. apply fold_left_app. Qed.

Lemma step_settled (i : Invocation S) (e : Event) :
  consistent i -> settled i = true -> isTerminal e = true -> sstep i e = i.
Proof.
  unfold consistent. intros Hc Hs He. rewrite Hs in Hc. destruct Hc as [Ht _].
  destruct e; try discriminate; cbn [step].
  - rewrite Ht. reflexivity.
  - unfold onError. rewrite Hs. reflexivity.
  - unfold onCloseEvent. rewrite Hs. reflexivity.
Qed.

Lemma step_data (i : Invocation S) (e : Event) :
  isTerminal e = false ->
  settled (sstep i e) = settled i
  /\ timerPending (sstep i e) = timerPending i
  /\ resolves (sstep i e) = resolves i
  /\ kills (sstep i e) = kills i
  /\ store (sstep i e) = store i
  /\ i_timeoutMs (sstep i e) = i_timeoutMs i
  /\ i_startedAt (sstep i e) = i_startedAt i.
Proof.
  destruct e; try discriminate; intros _; cbn [step].
  - destruct pipesStdout; repeat split; reflexivity.
  - repeat split; reflexivity.
Qed.

Lemma step_first_terminal (i : Invocation S) (e : Event) :
  consistent i -> settled i = false -> isTerminal e = true ->
  settled (sstep i e) = true
  /\ timerPending (sstep i e) = false
  /\ exists r, resolves (sstep i e) = [(outcomeOfEvent e, r)].
Proof.
  unfold consistent. intros Hc Hs He. rewrite Hs in Hc.
  destruct Hc as [Ht Hr].
  destruct e; try discriminate; cbn [step outcomeOfEvent].
  - rewrite Ht. unfold onTimeout. rewrite Hs. cbn. rewrite Hr.
    repeat split. eexists; reflexivity.
  - unfold onError. rewrite Hs. cbn. rewrite Hr.
    repeat split. eexists; reflexivity.
  - unfold onCloseEvent. rewrite Hs.
    destruct (onClose _ _ _ _ _ _) as [st' r]. cbn. rewrite Hr.
    repeat split. eexists; reflexivity.
Qed.

Lemma step_consistent (i : Invocation S) (e : Event) :
  consistent i -> consistent (sstep i e).
Proof.
  intros Hc. destruct (isTerminal e) eqn:He.
  - destruct (settled i) eqn:Hs.
    + rewrite (step_settled _ _ Hc Hs He). exact Hc.
    + destruct (step_first_terminal _ _ Hc Hs He) as (H1 & H2 & r & H3).
      unfold consistent. rewrite H1, H2, H3. split; reflexivity.
  - destruct (step_data i e He) as (H1 & H2 & H3 & _).
    unfold consistent in *. rewrite H1, H2, H3. exact Hc.
Qed.

Lemma run_consistent (i : Invocation S) (events : list Event) :
  consistent i -> consistent (srun i events).
Proof.
  revert i; induction events as [|e events IH]; intros i Hc; [exact Hc|].
  apply IH, step_consistent, Hc.
Qed.

(** Once settled, nothing that happens later touches what was resolved,
    killed or stored, and the handlers of the three terminal events return
    at once. *)
Lemma run_settled (i : Invocation S) (events : list Event) :
  consistent i -> settled i = true ->
  settled (srun i events) = true
  /\ resolves (srun i events) = resolves i
  /\ kills (srun i events) = kills i
  /\ store (srun i events) = store i.
Proof.
  revert i; induction events as [|e events IH]; intros i Hc Hs.
  - repeat split; assumption.
  - rewrite run_cons. destruct (isTerminal e) eqn:He.
    + rewrite (step_settled _ _ Hc Hs He). apply IH; assumption.
    + destruct (step_data i e He) as (H1 & H2 & H3 & H4 & H5 & _).
      destruct (IH (sstep i e)) as (G1 & G2 & G3 & G4).
      * apply step_consistent, Hc.
      * congruence.
      * repeat split; congruence.
Qed.

Lemma run_no_terminal (i : Invocation S) (events : list Event) :
  existsb isTerminal events = false ->
  settled (srun i events) = settled i
  /\ timerPending (srun i events) = timerPending i
  /\ resolves (srun i events) = resolves i
  /\ kills (srun i events) = kills i
  /\ store (srun i events) = store i
  /\ i_timeoutMs (srun i events) = i_timeoutMs i
  /\ i_startedAt (srun i events) = i_startedAt i.
Proof.
  revert i; induction events as [|e events IH]; intros i H.
  - repeat split.
  - cbn [existsb] in H. apply orb_false_iff in H as [He Hes].
    rewrite run_cons.
    destruct (step_data i e He) as (H1 & H2 & H3 & H4 & H5 & H6 & H7).
    destruct (IH (sstep i e) Hes) as (G1 & G2 & G3 & G4 & G5 & G6 & G7).
    repeat split; congruence.
Qed.

(** The outcome is that of the first terminal event. *)
Lemma run_outcome (i : Invocation S) (events : list Event) :
  consistent i -> settled i = false ->
  match find isTerminal events with
  | Some e => settled (srun i events) = true
              /\ exists r, resolves (srun i events) = [(outcomeOfEvent e, r)]
  | None => settled (srun i events) = false /\ resolves (srun i events) = []
  end.
Proof.
  revert i; induction events as [|e events IH]; intros i Hc Hs.
  - cbn. split; [exact Hs|]. unfold consistent in Hc. rewrite Hs in Hc. apply Hc.
  - cbn [find]; rewrite run_cons. destruct (isTerminal e) eqn:He.
    + destruct (step_first_terminal _ _ Hc Hs He) as (H1 & H2 & r & H3).
      destruct (run_settled (sstep i e) events) as (G1 & G2 & _).
      * apply step_consistent, Hc.
      * exact H1.
      * split; [exact G1|]. exists r. congruence.
    + destruct (step_data i e He) as (H1 & _).
      apply IH; [apply step_consistent, Hc|congruence].
Qed.

(** C9. Whatever the order in which the timer, the [error] event and the
    [close] event arrive (with any output chunks in between), [resolve] is
    called at most once; it is called exactly once as soon as one of the
    three has happened, by the handler of the first of them (Completed for
    [close], TimedOut for the timer, LaunchFailed for [error]); and once
    the invocation is settled every later timer, [error] or [close] event
    leaves the whole state unchanged, so the produced result, the signals
    sent and the process-wide state stay as they are under any later
    events. *)
Theorem exactly_once_resolution command args timeoutMs startedAt (st : S)
    (events : list Event) :
  let i := srun (spawnWith command args timeoutMs startedAt st) events in
  (length (resolves i) <= 1)%nat
  /\ match find isTerminal events with
     | Some first =>
         outcome i = Some (outcomeOfEvent first)
         /\ length (resolves i) = 1%nat
         /\ settled i = true
     | None => result i = None /\ settled i = false
     end
  /\ (forall e, settled i = true -> isTerminal e = true -> sstep i e = i)
  /\ (forall later, settled i = true ->
        result (srun i later) = result i
        /\ resolves (srun i later) = resolves i
        /\ kills (srun i later) = kills i
        /\ store (srun i later) = store i).
Proof.
  intros i.
  pose proof (consistent_spawn command args timeoutMs startedAt st) as Hc0.
  pose proof (run_consistent _ events Hc0) as Hc. fold i in Hc.
  pose proof (run_outcome _ events Hc0 eq_refl) as Ho. fold i in Ho.
  split; [|split; [|split]].
  - unfold consistent in Hc. destruct (settled i).
    + destruct Hc as [_ ->]. constructor.
    + destruct Hc as [_ ->]. cbn. lia.
  - destruct (find isTerminal events) as [first|].
    + destruct Ho as (Hs & r & Hr). unfold outcome. rewrite Hr.
      split; [reflexivity|]. split; [reflexivity|exact Hs].
    + destruct Ho as (Hs & Hr). unfold result. rewrite Hr.
      split; [reflexivity|exact Hs].
  - intros e Hs He. apply step_settled; assumption.
  - intros later Hs.
    destruct (run_settled i later Hc Hs) as (_ & H2 & H3 & H4).
    unfold result. rewrite H2. repeat split; assumption.
Qed.


End SupervisorFacts.

Lemma exactly_once_resolution_witness :
  let onClose :=
    RawEngine_onClose (H := asciiRuntime) (∅ : gmap jsstring Q) in
  let i := run (RT := asciiRuntime) onClose true
             (spawnWith (lit "derpprobe") [lit "-once"] 65000%Q 0 tt)
             [StderrData (lit "x");
              TimerFired {| nowMs := 65000; isoNow := [];
                 createdMs := fun _ => 65000 |}] in
  settled i = true
  /\ step (RT := asciiRuntime) onClose true i
       (ChildClose (Some 0) {| nowMs := 65001; isoNow := [];
                 createdMs := fun _ => 65001 |}) = i.
Proof.
  intros onClose i. split; [reflexivity|].
  apply (proj1 (proj2 (proj2
           (exactly_once_resolution (RT := asciiRuntime) onClose true
              (lit "derpprobe") [lit "-once"] 65000%Q 0 tt
              [StderrData (lit "x");
               TimerFired {| nowMs := 65000; isoNow := [];
                 createdMs := fun _ => 65000 |}]))));
    reflexivity.
Defined.

Lemma asciiRuntime_prints_integers : NumberPrinting asciiRuntime.
Proof.
  constructor. intros z _. cbn [numberToString asciiRuntime].
  rewrite Qfloor_Z. reflexivity.
Qed.


(** ** Response assembly *)

Lemma isCode_spec (code : option Z) (c : Z) :
  isCode code c = true <-> code = Some c.
Proof.
  destruct code as [x|]; cbn; [|split; discriminate].
  rewrite Z.eqb_eq. split; congruence.
Qed.

Lemma ProbeStatus_eqb_spec (a b : ProbeStatus) :
  ProbeStatus_eqb a b = true <-> a = b.
Proof. destruct a, b; cbn; split; congruence. Qed.

Lemma updateNode_keeps (now : Z) (createdAt : jsstring -> Z)
    (st : LogEngine.Store) (node : ProbeNodeResult) :
  let node' := snd (LogEngine.updateNode now createdAt st node) in
  n_id node' = n_id node /\ n_status node' = n_status node
  /\ n_name node' = n_name node /\ n_region node' = n_region node.
Proof.
  unfold LogEngine.updateNode.
  destruct (n_latencyMs node) as [l|].
  - destruct (LogEngine.getNodeLatencyCalibrator _ _ _) as [cs c].
    destruct (LogEngine.calibrate c l now) as [c' v]. cbn.
    repeat split.
  - cbn. repeat split.
Qed.

Lemma updateNodeLossFromHistory_keeps (now : Z) (createdAt : jsstring -> Z)
    (nodes : list ProbeNodeResult) :
  forall st,
    let nodes' :=
      snd (LogEngine.updateNodeLossFromHistory now createdAt st nodes) in
    map n_status nodes' = map n_status nodes
    /\ map n_id nodes' = map n_id nodes.
Proof.
  induction nodes as [|node rest IH]; intros st; cbn; [split; reflexivity|].
  pose proof (updateNode_keeps now createdAt st node) as Hn.
  destruct (LogEngine.updateNode now createdAt st node) as [st1 node'].
  specialize (IH st1).
  destruct (LogEngine.updateNodeLossFromHistory now createdAt st1 rest)
    as [st2 rest'].
  cbn in *. destruct Hn as (Hi & Hs & _). destruct IH as [IH1 IH2].
  split; congruence.
Qed.

Lemma forallb_healthy (nodes : list ProbeNodeResult) :
  forallb (fun node => ProbeStatus_eqb (n_status node) healthy) nodes = true
  <-> Forall (fun s => s = healthy) (map n_status nodes).
Proof.
  induction nodes as [|n nodes IH]; cbn.
  - split; [constructor|reflexivity].
  - rewrite andb_true_iff, ProbeStatus_eqb_spec, IH. split.
    + intros [H1 H2]; constructor; assumption.
    + intros H; inversion H; subst; split; assumption.
Qed.

Lemma exitError_spec (ok : bool) (code : option Z) :
  (ok = true -> exitError ok code = None)
  /\ (forall c, ok = false -> code = Some c ->
        exitError ok code
        = Some (lit "derpprobe exited with code " ++ decimal c))
  /\ (ok = false -> code = None ->
        exitError ok code
        = Some (lit "derpprobe exited with an unknown error")).
Proof.
  unfold exitError. destruct ok; cbn.
  - split; [reflexivity|]. split; intros; discriminate.
  - split; [discriminate|]. split.
    + intros c _ ->. reflexivity.
    + intros _ ->. reflexivity.
Qed.

Section Captured.

Context `{RT : Runtime} {S : Type}.
Variable onClose : Z -> S -> jsstring -> jsstring -> option Z -> Clock
                   -> S * ProbeResponse.

Lemma run_captures_stderr (pipes : bool) (events : list Event) :
  existsb isTerminal events = false ->
  forall i : Invocation S,
    stderrText (run onClose pipes i events)
    = stderrText i ++ capturedStderr events.
Proof.
  induction events as [|e events IH]; intros H i.
  - cbn. rewrite app_nil_r. reflexivity.
  - cbn [existsb] in H. apply orb_false_iff in H as [He Hes].
    rewrite run_cons, (IH Hes).
    destruct e; try discriminate; cbn [step capturedStderr flat_map].
    + destruct pipes; cbn; reflexivity.
    + cbn. rewrite <- app_assoc. reflexivity.
Qed.

Lemma run_captures_stdout (events : list Event) :
  existsb isTerminal events = false ->
  forall i : Invocation S,
    stdoutText (run onClose true i events)
    = stdoutText i ++ capturedStdout events.
Proof.
  induction events as [|e events IH]; intros H i.
  - cbn. rewrite app_nil_r. reflexivity.
  - cbn [existsb] in H. apply orb_false_iff in H as [He Hes].
    rewrite run_cons, (IH Hes).
    destruct e; try discriminate; cbn [step capturedStdout flat_map].
    + cbn. rewrite <- app_assoc. reflexivity.
    + cbn. reflexivity.
Qed.

(** A cycle that completes: output chunks, then [close]. *)
Lemma run_completed (pipes : bool) command args timeoutMs startedAt (st : S)
    (events : list Event) (code : option Z) (clock : Clock) :
  existsb isTerminal events = false ->
  let i0 := spawnWith command args timeoutMs startedAt st in
  let i := run onClose pipes i0 (events ++ [ChildClose code clock]) in
  outcome i = Some Completed
  /\ result i
     = Some (snd (onClose startedAt st
                    (stdoutText (run onClose pipes i0 events))
                    (capturedStderr events) code clock)).
Proof.
  intros Hev i0 i. subst i. rewrite run_app.
  destruct (run_no_terminal onClose pipes i0 events Hev)
    as (H1 & H2 & H3 & H4 & H5 & H6 & H7).
  pose proof (run_captures_stderr pipes events Hev i0) as Herr.
  set (j := run onClose pipes i0 events) in *.
  cbn [run fold_left step]. unfold onCloseEvent.
  rewrite H1, H5, H7, Herr. cbn [i0 spawnWith settled store i_startedAt stderrText app].
  destruct (onClose _ _ _ _ _ _) as [st' r].
  unfold outcome, result. cbn [resolves]. rewrite H3. cbn. split; reflexivity.
Qed.

End Captured.

Lemma filter_nil_iff {A} (f : A -> bool) (l : list A) :
  filter f l = [] <-> forall x, In x l -> f x = false.
Proof.
  induction l as [|x l IH]; cbn [filter In].
  - split; [intros _ ? []|reflexivity].
  - destruct (f x) eqn:E.
    + split; [discriminate|]. intros H.
      rewrite (H x (or_introl eq_refl)) in E. discriminate.
    + rewrite IH. split.
      * intros H y [<-|Hy]; [exact E|apply H, Hy].
      * intros H y Hy. apply H. right; exact Hy.
Qed.

Lemma length_zero_iff {A} (l : list A) : (length l =? 0)%nat = true <-> l = [].
Proof. destruct l; cbn; split; congruence. Qed.

Lemma isIpv6OnlyProbeFailure_spec (stderr : jsstring) :
  RawEngine.isIpv6OnlyProbeFailure stderr = true <-> ipv6OnlyFailure stderr.
Proof.
  unfold RawEngine.isIpv6OnlyProbeFailure, ipv6OnlyFailure. cbn zeta.
  set (lines := logLines stderr).
  set (isBad := startsWith (lit "bad: derp/")).
  set (isGood := startsWith (lit "good: derp/")).
  set (gu := filter (fun line => isGood line && includes (lit "/udp6:") line)
               lines).
  set (gn := filter (fun line => isGood line
                                 && negb (includes (lit "/udp6:") line))
               lines).
  assert (Hgu : (0 <? length gu)%nat = false <->
                forall line, In line lines -> isGood line = true ->
                  includes (lit "/udp6:") line = false).
  { replace ((0 <? length gu)%nat) with (negb (length gu =? 0)%nat)
      by (destruct gu; reflexivity).
    rewrite negb_false_iff, length_zero_iff. unfold gu.
    rewrite filter_nil_iff. split.
    - intros H line Hin Hg. specialize (H line Hin). rewrite Hg in H.
      exact H.
    - intros H line Hin. destruct (isGood line) eqn:Hg; [|reflexivity].
      cbn. apply H; assumption. }
  assert (Hgn : (length gn =? 0)%nat = false <->
                exists line, In line lines /\ isGood line = true
                             /\ includes (lit "/udp6:") line = false).
  { split.
    - intros H. destruct gn as [|line gn'] eqn:E; [discriminate|].
      assert (Hin : In line gn) by (rewrite E; left; reflexivity).
      unfold gn in Hin. apply filter_In in Hin as [Hin Hc].
      apply andb_true_iff in Hc as [Hg Hu]. apply negb_true_iff in Hu.
      exists line. repeat split; assumption.
    - intros (line & Hin & Hg & Hu).
      assert (Hin' : In line gn).
      { unfold gn. apply filter_In. split; [exact Hin|].
        rewrite Hg, Hu. reflexivity. }
      destruct gn; [contradiction|reflexivity]. }
  destruct (filter isBad lines) as [|b bs] eqn:Eb.
  { split; [discriminate|]. intros ((line & Hin & Hb) & _).
    pose proof (proj1 (filter_nil_iff isBad lines) Eb line Hin). congruence. }
  assert (Hbad : forall line, In line (b :: bs) <->
                   In line lines /\ isBad line = true).
  { intros line. rewrite <- Eb. apply filter_In. }
  destruct ((0 <? length gu)%nat) eqn:E1.
  { cbn [orb]. split; [discriminate|]. intros (_ & _ & H & _).
    apply Hgu in H. discriminate. }
  destruct ((length gn =? 0)%nat) eqn:E2.
  { cbn [orb]. split; [discriminate|]. intros (_ & _ & H3 & line & Hin & Hg).
    assert (H : true = false); [|discriminate].
    apply Hgn. exists line. repeat split; try assumption.
    apply H3; assumption. }
  cbn [orb].
  destruct (forallb _ (b :: bs)) eqn:E3; cbn [negb].
  2:{ split; [discriminate|]. intros (_ & H2 & _).
      assert (H : true = false); [|discriminate]. rewrite <- E3.
      symmetry. apply forallb_forall. intros line Hin. apply Hbad in Hin as [Hin Hb].
      destruct (H2 line Hin Hb) as (-> & -> & _). reflexivity. }
  rewrite forallb_forall in E3.
  assert (E4 : filter (fun line => negb (includes (lit "/udp6:") line))
                 (b :: bs) = []).
  { apply filter_nil_iff. intros line Hin. specialize (E3 line Hin).
    apply andb_true_iff in E3 as [-> _]. reflexivity. }
  rewrite E4. cbn [length Nat.ltb Nat.leb]. rewrite forallb_forall. split.
  - intros H. split; [|split; [|split]].
    + exists b. apply Hbad. left; reflexivity.
    + intros line Hin Hb. assert (Hin' : In line (b :: bs))
        by (apply Hbad; split; assumption).
      specialize (E3 line Hin'). apply andb_true_iff in E3 as [-> ->].
      split; [reflexivity|]. split; [reflexivity|].
      apply orb_true_iff, H, Hin'.
    + apply Hgu. reflexivity.
    + destruct (proj1 Hgn eq_refl) as (line & Hin & Hg & _).
      exists line. split; assumption.
  - intros (_ & H2 & _) line Hin. apply Hbad in Hin as [Hin Hb].
    destruct (H2 line Hin Hb) as (_ & _ & H). apply orb_true_iff, H.
Qed.

(** C2 (as amended). A cycle that completes (the child closes before
    the timer and without a launch error) resolves to a response whose
    [ok] is true exactly when the exit code is 0, or is 1 and the leniency
    rule of the revision holds.  In the calibrated revision the rule is
    that every node of the response is healthy.  In the raw-output
    revision it is a rule over the lines of the diagnostic text: some
    line starts with "bad: derp/", every such line holds "/udp6:",
    "network is unreachable" and "write udp [::]" or "dial udp [::]", no
    line that starts with "good: derp/" holds "/udp6:", and some line
    starts with "good: derp/".  When [ok] is false and the exit code is a
    number the error is "derpprobe exited with code <code>"; every code
    other than 0 and 1 is such a case.  (A [close] without a code, after
    a signal, gives "derpprobe exited with an unknown error".) *)
Theorem ok_iff_exit_code_and_leniency `{RT : Runtime}
    (regionIdMap : gmap jsstring Q) command args timeoutMs startedAt
    (events : list Event) (code : option Z) (clock : Clock) :
  existsb isTerminal events = false ->
  let stderr := capturedStderr events in
  (forall st,
     let i := LogEngine_run regionIdMap
                (spawnWith command args timeoutMs startedAt st)
                (events ++ [ChildClose code clock]) in
     outcome i = Some Completed
     /\ exists r, result i = Some r
        /\ map n_status (r_nodes r)
           = map n_status
               (LogEngine.parseNodesFromProbeLog stderr (isoNow clock)
                  regionIdMap)
        /\ (r_ok r = true <->
            code = Some 0
            \/ (code = Some 1
                /\ Forall (fun s => s = healthy) (map n_status (r_nodes r))))
        /\ (forall c, code = Some c -> r_ok r = false ->
              r_error r
              = Some (lit "derpprobe exited with code " ++ decimal c))
        /\ (forall c, code = Some c -> c <> 0 -> c <> 1 -> r_ok r = false)
        /\ (r_ok r = true -> r_error r = None))
  /\ (let i := RawEngine_run regionIdMap
                 (spawnWith command args timeoutMs startedAt tt)
                 (events ++ [ChildClose code clock]) in
      outcome i = Some Completed
      /\ exists r, result i = Some r
         /\ (r_ok r = true <->
             code = Some 0
             \/ (code = Some 1 /\ ipv6OnlyFailure stderr))
         /\ (forall c, code = Some c -> r_ok r = false ->
               r_error r
               = Some (lit "derpprobe exited with code " ++ decimal c))
         /\ (forall c, code = Some c -> c <> 0 -> c <> 1 -> r_ok r = false)
         /\ (r_ok r = true -> r_error r = None)).
Proof.
  intros Hev stderr. split.
  - intros st i.
    destruct (run_completed (LogEngine_onClose regionIdMap) false command
                args timeoutMs startedAt st events code clock Hev)
      as [Ho Hr].
    split; [exact Ho|]. eexists. split; [exact Hr|].
    unfold LogEngine_onClose, LogEngine.complete. fold stderr.
    pose proof (updateNodeLossFromHistory_keeps (nowMs clock)
                  (createdMs clock)
                  (LogEngine.parseNodesFromProbeLog stderr (isoNow clock)
                     regionIdMap) st) as [Hst _].
    destruct (LogEngine.updateNodeLossFromHistory _ _ _ _) as [st' nodes].
    cbn [snd r_nodes r_ok r_error] in *.
    split; [exact Hst|].
    set (ok := isCode code 0 || _).
    assert (Hok : ok = true <->
              code = Some 0
              \/ (code = Some 1
                  /\ Forall (fun s => s = healthy) (map n_status nodes))).
    { unfold ok. rewrite orb_true_iff, andb_true_iff, !isCode_spec,
        forallb_healthy. reflexivity. }
    destruct (exitError_spec ok code) as (E1 & E2 & _).
    split; [exact Hok|]. split; [|split; [|exact E1]].
    + intros c Hc Hf. apply E2; assumption.
    + intros c Hc H0 H1. destruct ok; [|reflexivity].
      destruct (proj1 Hok eq_refl) as [H|[H _]]; congruence.
  - intros i.
    destruct (run_completed (RawEngine_onClose regionIdMap) true command
                args timeoutMs startedAt tt events code clock Hev)
      as [Ho Hr].
    split; [exact Ho|]. eexists. split; [exact Hr|].
    unfold RawEngine_onClose, RawEngine.complete. fold stderr.
    cbn [snd r_nodes r_ok r_error].
    set (ok := isCode code 0 || _).
    assert (Hok : ok = true <->
              code = Some 0 \/ (code = Some 1 /\ ipv6OnlyFailure stderr)).
    { unfold ok. rewrite orb_true_iff, andb_true_iff, !isCode_spec,
        isIpv6OnlyProbeFailure_spec. reflexivity. }
    destruct (exitError_spec ok code) as (E1 & E2 & _).
    split; [exact Hok|]. split; [|split; [|exact E1]].
    + intros c Hc Hf. apply E2; assumption.
    + intros c Hc H0 H1. destruct ok; [|reflexivity].
      destruct (proj1 Hok eq_refl) as [H|[H _]]; congruence.
Qed.

(** The wording of C2 for the raw-output revision ("all observed
    failures are attributable to host-level IPv6 unavailability") against
    the code, on two cycles that exit with code 1.  In the first the only
    line is a udp6 failure from the unspecified address: every failure is
    host-level, yet the cycle is not ok, for want of a [good] line.  In
    the second a tcp failure is written with two blanks after ["bad:"]:
    the log parser reads it and reports the node down, the leniency rule
    does not count it, and the cycle is ok. *)
Lemma ok_leniency_counterexample :
  let hostLevel :=
    lit "bad: derp/a/b/udp6: write udp [::]:0: network is unreachable" in
  let first :=
    RawEngine.complete (H := asciiRuntime) ∅ 0 [] hostLevel (Some 1) 5 [] in
  let second :=
    RawEngine.complete (H := asciiRuntime) ∅ 0 []
      (lit "good: derp/a/b/udp: 1ms" ++ [10%N]
       ++ lit "bad:  derp/a/b/tcp: i/o timeout" ++ [10%N] ++ hostLevel)
      (Some 1) 5 [] in
  (spec_allFailuresHostLevel hostLevel = true /\ r_ok first = false)
  /\ (spec_allFailuresHostLevel
        (lit "good: derp/a/b/udp: 1ms" ++ [10%N]
         ++ lit "bad:  derp/a/b/tcp: i/o timeout" ++ [10%N] ++ hostLevel)
      = false
      /\ r_ok second = true
      /\ map n_status (r_nodes second) = [down]).
Proof. vm_compute. repeat split. Qed.

(** ** HistoryTracker *)

Lemma pushSample_suffix (h : list LogEngine.NodeProbeSample) s :
  LogEngine.pushSample h s
  = skipn (length (h ++ [s]) - PROBE_WINDOW_SIZE) (h ++ [s]).
Proof.
  unfold LogEngine.pushSample.
  destruct (PROBE_WINDOW_SIZE <? length (h ++ [s]))%nat eqn:E; [reflexivity|].
  apply Nat.ltb_ge in E.
  replace (length (h ++ [s]) - PROBE_WINDOW_SIZE)%nat with 0%nat by lia.
  reflexivity.
Qed.

Lemma pushSample_length (h : list LogEngine.NodeProbeSample) s :
  (length (LogEngine.pushSample h s) <= PROBE_WINDOW_SIZE)%nat.
Proof. rewrite pushSample_suffix, length_skipn. lia. Qed.







(** ** LatencyCalibrator *)



Lemma StronglySorted_weaken {A} (R R' : A -> A -> Prop) (l : list A) :
  (forall x y, R x y -> R' x y) -> StronglySorted R l -> StronglySorted R' l.
Proof.
  intros HR. induction 1 as [|a l _ IH Ha]; constructor; [exact IH|].
  eapply Forall_impl; [|exact Ha]. intros y; apply HR.
Qed.






Lemma Qle_bool_false (a b : Q) : Qle_bool a b = false <-> (b < a)%Q.
Proof.
  split.
  - intros H. apply Qnot_le_lt. intros Hle. apply Qle_bool_iff in Hle.
    congruence.
  - intros H. destruct (Qle_bool a b) eqn:E; [|reflexivity].
    apply Qle_bool_iff in E. exfalso. exact (Qlt_not_le _ _ H E).
Qed.











Lemma calibrate_result (c : LogEngine.Calibrator) (r : Q) (t : Z) :
  snd (LogEngine.calibrate c r t)
  = toFixed2
      (Qmax 0
         (r - LogEngine.baselineOf c
                (LogEngine.deque (fst (LogEngine.calibrate c r t))) r t)%Q).
Proof. reflexivity. Qed.



(** The calibrator of a node is found under its id, created on first
    use at the time read on creation, and the calibrators of the other
    nodes are left alone. *)
Lemma updateNode_calibrator (now : Z) (createdAt : jsstring -> Z)
    (st : LogEngine.Store)
    (node : ProbeNodeResult) (l : Q) :
  n_latencyMs node = Some l ->
  let c :=
    match LogEngine.nodeLatencyCalibrators st !! n_id node with
    | Some existing => existing
    | None =>
        LogEngine.createLatencyCalibrator CALIBRATION_WINDOW_MINS
          CALIBRATION_FALLBACK_MS CALIBRATION_WARMUP_MINS
          (createdAt (n_id node))
    end in
  let st' := fst (LogEngine.updateNode now createdAt st node) in
  let node' := snd (LogEngine.updateNode now createdAt st node) in
  n_latencyMs node' = Some (snd (LogEngine.calibrate c l now))
  /\ LogEngine.nodeLatencyCalibrators st' !! n_id node
     = Some (fst (LogEngine.calibrate c l now))
  /\ forall other, other <> n_id node ->
       LogEngine.nodeLatencyCalibrators st' !! other
       = LogEngine.nodeLatencyCalibrators st !! other.
Proof.
  intros Hl. unfold LogEngine.updateNode, LogEngine.getNodeLatencyCalibrator.
  rewrite Hl.
  destruct (LogEngine.nodeLatencyCalibrators st !! n_id node) as [c|] eqn:E;
    cbn zeta.
  - destruct (LogEngine.calibrate c l now) as [c' v] eqn:Ec. cbn.
    split; [reflexivity|]. split; [apply lookup_insert_eq|].
    intros other Hne. apply lookup_insert_ne. congruence.
  - destruct (LogEngine.calibrate _ l now) as [c' v] eqn:Ec. cbn.
    split; [reflexivity|]. split; [apply lookup_insert_eq|].
    intros other Hne. rewrite !lookup_insert_ne by congruence. reflexivity.
Qed.

(** ** Iterated maps and sorting *)

Lemma mapGet_mapSet {V} (k k' : jsstring) (v : V) (m : list (jsstring * V)) :
  mapGet k' (mapSet k v m) = if streq k' k then Some v else mapGet k' m.
Proof.
  induction m as [|[k0 v0] m IH]; cbn [mapSet mapGet].
  - reflexivity.
  - destruct (streq k k0) eqn:E; cbn [mapGet].
    + apply streq_spec in E; subst k0.
      destruct (streq k' k); reflexivity.
    + destruct (streq k' k0) eqn:E0.
      * apply streq_spec in E0; subst k0.
        rewrite streq_sym, E. reflexivity.
      * exact IH.
Qed.

Lemma mapSet_keys {V} (k : jsstring) (v : V) (m : list (jsstring * V)) :
  forall k', In k' (map fst (mapSet k v m)) <-> k' = k \/ In k' (map fst m).
Proof.
  induction m as [|[k0 v0] m IH]; intros k'; cbn [mapSet map fst In].
  - split; [intros [H|[]]; left; congruence|intros [H|[]]; left; congruence].
  - destruct (streq k k0) eqn:E; cbn [map fst In].
    + apply streq_spec in E; subst k0. split.
      * intros [H|H]; [left; congruence|right; right; exact H].
      * intros [H|[H|H]]; [left; congruence|left; exact H|right; exact H].
    + rewrite IH. split.
      * intros [H|[H|H]]; [right; left; exact H|left; exact H|right; right; exact H].
      * intros [H|[H|H]]; [right; left; exact H|left; exact H|right; right; exact H].
Qed.

Lemma mapSet_NoDup {V} (k : jsstring) (v : V) (m : list (jsstring * V)) :
  NoDup (map fst m) -> NoDup (map fst (mapSet k v m)).
Proof.
  induction m as [|[k0 v0] m IH]; cbn [mapSet map fst]; intros Hn.
  - constructor; [intros []|constructor].
  - inversion Hn as [|? ? Hnot Hn']; subst.
    destruct (streq k k0) eqn:E; cbn [map fst].
    + apply streq_spec in E; subst k0. constructor; assumption.
    + constructor; [|apply IH, Hn'].
      intros Hin. apply mapSet_keys in Hin as [H|H].
      * subst k0. rewrite streq_refl in E. discriminate.
      * contradiction.
Qed.

Lemma mapGet_In {V} (k : jsstring) (v : V) (m : list (jsstring * V)) :
  NoDup (map fst m) -> In (k, v) m -> mapGet k m = Some v.
Proof.
  induction m as [|[k0 v0] m IH]; cbn [map fst mapGet In]; intros Hn Hin.
  - contradiction.
  - inversion Hn as [|? ? Hnot Hn']; subst. destruct Hin as [H|H].
    + injection H as -> ->. rewrite streq_refl. reflexivity.
    + destruct (streq k k0) eqn:E.
      * apply streq_spec in E; subst k0. exfalso. apply Hnot.
        apply in_map_iff. exists (k, v). split; [reflexivity|exact H].
      * apply IH; assumption.
Qed.


Lemma insertBy_Permutation {A} (cmp : A -> A -> Q) (x : A) (l : list A) :
  Permutation (insertBy cmp x l) (x :: l).
Proof.
  induction l as [|y l IH]; cbn [insertBy]; [reflexivity|].
  destruct (Qle_bool (cmp x y) 0); [reflexivity|].
  rewrite IH. apply perm_swap.
Qed.

Lemma Array_sort_Permutation {A} (cmp : A -> A -> Q) (l : list A) :
  Permutation (Array_sort cmp l) l.
Proof.
  induction l as [|x l IH]; cbn [Array_sort fold_right]; [reflexivity|].
  rewrite insertBy_Permutation. apply perm_skip. exact IH.
Qed.

(** ** LogParser: what the aggregate of a node counts *)


Lemma linesOf_snoc (id : jsstring) (ls : list ProbeLine) (l : ProbeLine) :
  linesOf id (ls ++ [l])
  = linesOf id ls ++ (if streq (pl_id l) id then [l] else []).
Proof. unfold linesOf. rewrite filter_app. reflexivity. Qed.

Lemma summarises_fresh (exempt : bool) (ls : list ProbeLine) (l : ProbeLine) :
  linesOf (pl_id l) ls = [] ->
  summarises exempt ls (pl_id l) (freshCounts l).
Proof.
  intros H. constructor; unfold successes, failures, hasOtherFailure;
    rewrite ?H; cbn; try reflexivity.
  destruct exempt; reflexivity.
Qed.

Lemma summarises_bump (exempt : bool) (ls : list ProbeLine) (l : ProbeLine)
    (c : Counts) :
  summarises exempt ls (pl_id l) c ->
  summarises exempt (ls ++ [l]) (pl_id l) (bumpCounts exempt l c).
Proof.
  intros [Hi Hg Hb Ho Hu].
  constructor; unfold successes, failures, hasOtherFailure in *;
    rewrite ?linesOf_snoc, ?streq_refl, ?filter_app, ?existsb_app, ?length_app;
    unfold bumpCounts, isOtherFailure, isUdp6UnreachableFailure,
      isGoodLine in *;
    destruct (streq (pl_level l) (lit "good")) eqn:E;
    cbn [c_id c_good c_bad filter existsb c_nonUdp6Error c_badUdp6 negb andb
         length orb];
    rewrite ?E; cbn [negb andb filter length existsb orb];
    rewrite ?Nat.add_0_r, ?orb_false_r; try assumption; try lia.
  - rewrite Ho. destruct (isUdp6Unreachable l); cbn.
    + rewrite orb_false_r. reflexivity.
    + rewrite orb_true_r. reflexivity.
  - rewrite Hu. destruct (isUdp6Unreachable l), exempt; cbn; lia.
Qed.

Lemma summarises_other (exempt : bool) (ls : list ProbeLine) (l : ProbeLine)
    (k : jsstring) (c : Counts) :
  k <> pl_id l ->
  summarises exempt ls k c -> summarises exempt (ls ++ [l]) k c.
Proof.
  intros Hk [Hi Hg Hb Ho Hu].
  assert (E : streq (pl_id l) k = false) by (apply streq_false; congruence).
  constructor; unfold successes, failures, hasOtherFailure in *;
    rewrite ?linesOf_snoc, ?E, ?app_nil_r; assumption.
Qed.

Lemma readLines_snoc (done : list jsstring) (line : jsstring) :
  readLines (done ++ [line])
  = readLines done ++ match readProbeLine line with
                      | Some l => [l]
                      | None => []
                      end.
Proof.
  unfold readLines. rewrite flat_map_app. cbn [flat_map].
  rewrite app_nil_r. reflexivity.
Qed.


(** The loop of a revision whose [TempNode] starts with fresh counters
    and is updated as [bumpCounts] says. *)
Section Aggregation.

Context {T : Type}.
Variable view : T -> Counts.
Variable newNode : ProbeLine -> T.
Variable record : ProbeLine -> T -> T.
Variable exempt : bool.

Hypothesis view_new : forall l, view (newNode l) = freshCounts l.
Hypothesis view_record : forall l node,
  view (record l node) = bumpCounts exempt l (view node).

Lemma aggregated_step (done : list jsstring) (m : list (jsstring * T))
    (line : jsstring) :
  aggregated view exempt done m ->
  aggregated view exempt (done ++ [line])
    (aggregateWith newNode record m line).
Proof.
  intros [Hn Hk Hs]. unfold aggregateWith.
  pose proof (readLines_snoc done line) as Hr.
  destruct (readProbeLine line) as [l|].
  2:{ rewrite app_nil_r in Hr. constructor; rewrite ?Hr; assumption. }
  set (node := match mapGet (pl_id l) m with
               | Some node => node
               | None => newNode l
               end).
  assert (Hnode : summarises exempt (readLines done) (pl_id l) (view node)).
  { unfold node. destruct (mapGet (pl_id l) m) as [n|] eqn:E.
    - apply Hs, E.
    - rewrite view_new. apply summarises_fresh, Hk, E. }
  constructor.
  - apply mapSet_NoDup, Hn.
  - intros k. rewrite Hr, mapGet_mapSet, linesOf_snoc.
    destruct (streq k (pl_id l)) eqn:E.
    + apply streq_spec in E; subst k. rewrite streq_refl.
      split; [discriminate|].
      intros H. destruct (linesOf (pl_id l) (readLines done)); discriminate.
    + rewrite streq_sym, E, app_nil_r. apply Hk.
  - intros k n. rewrite Hr, mapGet_mapSet.
    destruct (streq k (pl_id l)) eqn:E.
    + apply streq_spec in E; subst k. intros H; injection H as <-.
      rewrite view_record. apply summarises_bump, Hnode.
    + intros H. apply summarises_other; [apply streq_false, E|apply Hs, H].
Qed.

Lemma aggregated_fold (lines done : list jsstring)
    (m : list (jsstring * T)) :
  aggregated view exempt done m ->
  aggregated view exempt (done ++ lines)
    (fold_left (aggregateWith newNode record) lines m).
Proof.
  revert done m; induction lines as [|line lines IH]; intros done m H.
  - rewrite app_nil_r. exact H.
  - cbn [fold_left].
    replace (done ++ line :: lines) with ((done ++ [line]) ++ lines)
      by (rewrite <- app_assoc; reflexivity).
    apply IH, aggregated_step, H.
Qed.

Lemma aggregated_all (lines : list jsstring) :
  aggregated view exempt lines
    (fold_left (aggregateWith newNode record) lines []).
Proof.
  apply (aggregated_fold lines [] []).
  constructor; [constructor| |discriminate].
  intros k. split; reflexivity.
Qed.

End Aggregation.

Lemma LogEngine_view_record (host : bool) (l : ProbeLine)
    (node : LogEngine.TempNode) :
  LogEngine_counts (LogEngine.recordLine host l node)
  = bumpCounts host l (LogEngine_counts node).
Proof.
  unfold LogEngine.recordLine, bumpCounts.
  destruct (streq (pl_level l) (lit "good")); reflexivity.
Qed.

Lemma RawEngine_view_record (l : ProbeLine) (node : RawEngine.TempNode) :
  RawEngine_counts (RawEngine.recordLine l node)
  = bumpCounts false l (RawEngine_counts node).
Proof.
  unfold RawEngine.recordLine, bumpCounts.
  destruct (streq (pl_level l) (lit "good")); [reflexivity|].
  unfold RawEngine_counts. cbn [RawEngine.t_id RawEngine.t_good
    RawEngine.t_bad RawEngine.t_badUdp6 RawEngine.t_nonUdp6Error negb].
  rewrite andb_true_r. reflexivity.
Qed.

Lemma aggregate_aggregated (lines : list jsstring) :
  aggregated LogEngine_counts (LogEngine.isIpv6UnsupportedNetwork lines)
    lines (LogEngine.aggregate lines).
Proof.
  apply (aggregated_all LogEngine_counts LogEngine.newTempNode
           (LogEngine.recordLine (LogEngine.isIpv6UnsupportedNetwork lines))).
  - reflexivity.
  - apply LogEngine_view_record.
Qed.

Lemma RawEngine_aggregate_aggregated (lines : list jsstring) :
  aggregated RawEngine_counts false lines (RawEngine.aggregate lines).
Proof.
  apply (aggregated_all RawEngine_counts RawEngine.newTempNode
           RawEngine.recordLine).
  - reflexivity.
  - apply RawEngine_view_record.
Qed.



Lemma toResult_fields (checkedAt : jsstring) (node : LogEngine.TempNode) :
  n_id (LogEngine.toResult checkedAt node) = LogEngine.t_id node
  /\ n_status (LogEngine.toResult checkedAt node) = LogEngine.statusOf node
  /\ n_name (LogEngine.toResult checkedAt node) = LogEngine.t_name node
  /\ n_region (LogEngine.toResult checkedAt node) = LogEngine.t_region node
  /\ n_latencyMs (LogEngine.toResult checkedAt node)
     = LogEngine.t_udpLatencyMs node.
Proof. repeat split. Qed.

Lemma aggregate_ids (checkedAt : jsstring) (lines : list jsstring) :
  map n_id (map (fun kv => LogEngine.toResult checkedAt (snd kv))
              (LogEngine.aggregate lines))
  = map fst (LogEngine.aggregate lines).
Proof.
  destruct (aggregate_aggregated lines) as [Hn _ Hs].
  rewrite map_map. apply map_ext_in. intros [k node] Hin. cbn [snd fst].
  apply (sum_id _ _ _ _ (Hs k node (mapGet_In _ _ _ Hn Hin))).
Qed.

Lemma RawEngine_aggregate_ids (checkedAt : jsstring) (lines : list jsstring) :
  map n_id (map (fun kv => RawEngine.toResult checkedAt (snd kv))
              (RawEngine.aggregate lines))
  = map fst (RawEngine.aggregate lines).
Proof.
  destruct (RawEngine_aggregate_aggregated lines) as [Hn _ Hs].
  rewrite map_map. apply map_ext_in. intros [k node] Hin. cbn [snd fst].
  apply (sum_id _ _ _ _ (Hs k node (mapGet_In _ _ _ Hn Hin))).
Qed.




(** ** Latency text *)

Lemma takeWhile_app_stop {A} (p : A -> bool) (l rest : list A) :
  forallb p l = true ->
  match rest with [] => True | x :: _ => p x = false end ->
  takeWhile p (l ++ rest) = l /\ dropWhile p (l ++ rest) = rest.
Proof.
  intros Hl Hr. induction l as [|x l IH]; cbn [app].
  - destruct rest as [|y rest]; cbn; [split; reflexivity|].
    rewrite Hr. split; reflexivity.
  - cbn [forallb] in Hl. apply andb_true_iff in Hl as [Hx Hl].
    cbn. rewrite Hx. destruct (IH Hl) as [-> ->]. split; reflexivity.
Qed.

Lemma takeWhile_forallb {A} (p : A -> bool) (l : list A) :
  forallb p (takeWhile p l) = true.
Proof.
  induction l as [|x l IH]; cbn [takeWhile]; [reflexivity|].
  destruct (p x) eqn:E; [|reflexivity]. cbn [forallb]. rewrite E. exact IH.
Qed.

Lemma matchNumber_head (ds fs rest : jsstring) :
  ds <> [] -> forallb isDigit ds = true -> forallb isDigit fs = true ->
  match rest with
  | [] => True
  | c :: _ => isDigit c = false /\ c <> 46%N
  end ->
  matchNumber (numberText ds fs ++ rest) = Some (ds, fs, rest).
Proof.
  intros Hne Hds Hfs Hrest. unfold matchNumber, numberText.
  destruct fs as [|f fs].
  - destruct (takeWhile_app_stop isDigit ds rest Hds) as [-> ->].
    { destruct rest; [exact I|apply Hrest]. }
    destruct ds; [congruence|].
    destruct rest as [|c rest]; [reflexivity|].
    destruct Hrest as [_ Hc].
    destruct (N.eqb_spec c 46); [contradiction|].
    destruct c as [|p]; [reflexivity|].
    repeat (destruct p as [p|p|]; try reflexivity); contradiction.
  - rewrite <- app_assoc.
    change ((46%N :: f :: fs) ++ rest) with (46%N :: (f :: fs) ++ rest).
    destruct (takeWhile_app_stop isDigit ds (46%N :: (f :: fs) ++ rest) Hds)
      as [-> ->]; [reflexivity|].
    destruct ds; [congruence|].
    destruct (takeWhile_app_stop isDigit (f :: fs) rest Hfs) as [-> ->].
    { destruct rest; [exact I|apply Hrest]. }
    reflexivity.
Qed.

(** [matchNumber] without the test for the dot: a text that does not
    start with a dot. *)
Lemma not_dot (c : N) (A : Type) (a b : A) :
  c <> 46%N -> match c with 46%N => a | _ => b end = b.
Proof.
  intros Hc. destruct c as [|p]; [reflexivity|].
  repeat (destruct p as [p|p|]; try reflexivity). contradiction.
Qed.

(** What [matchNumber] returns is a number at the head of the text. *)
Lemma matchNumber_sound (s ds fs rest : jsstring) :
  matchNumber s = Some (ds, fs, rest) ->
  s = numberText ds fs ++ rest
  /\ ds <> [] /\ forallb isDigit ds = true /\ forallb isDigit fs = true.
Proof.
  unfold matchNumber.
  pose proof (takeWhile_dropWhile isDigit s) as Hs.
  pose proof (takeWhile_forallb isDigit s) as Hds.
  destruct (takeWhile isDigit s) as [|d ds'] eqn:Et; [discriminate|].
  assert (Hplain : s = numberText (d :: ds') [] ++ dropWhile isDigit s
                   /\ d :: ds' <> [] /\ forallb isDigit (d :: ds') = true
                   /\ forallb isDigit [] = true).
  { split; [symmetry; exact Hs|]. split; [discriminate|].
    split; [exact Hds|reflexivity]. }
  destruct (dropWhile isDigit s) as [|c s2] eqn:Ed.
  { intros [= <- <- <-]. exact Hplain. }
  destruct (N.eqb_spec c 46) as [->|Hc].
  - pose proof (takeWhile_dropWhile isDigit s2) as Hs2.
    pose proof (takeWhile_forallb isDigit s2) as Hfs.
    destruct (takeWhile isDigit s2) as [|f fs'] eqn:Ef.
    + intros [= <- <- <-]. exact Hplain.
    + intros [= <- <- <-]. split; [|split; [discriminate|split; assumption]].
      unfold numberText. rewrite <- Hs, <- app_assoc.
      cbn [app] in Hs2 |- *. rewrite Hs2. reflexivity.
  - rewrite (not_dot c _ _ _ Hc). intros [= <- <- <-]. exact Hplain.
Qed.

Lemma digit_not_space (c : N) : isDigit c = true -> isWhiteSpace c = false.
Proof.
  unfold isDigit. intros H. apply andb_true_iff in H as [H1 H2].
  apply N.leb_le in H1, H2.
  assert (Hc : (c = 48 \/ c = 49 \/ c = 50 \/ c = 51 \/ c = 52 \/ c = 53
                \/ c = 54 \/ c = 55 \/ c = 56 \/ c = 57)%N) by lia.
  repeat (destruct Hc as [->|Hc]; [reflexivity|]). subst; reflexivity.
Qed.

(** A unit starts with a code unit that is neither white space, nor a
    digit, nor a dot, and is matched where a word ends. *)
Lemma unit_shape (unit : jsstring) :
  In unit (milliUnits ++ microUnits) ->
  exists c1 c2, unit = [c1; c2]
    /\ isWhiteSpace c1 = false /\ isDigit c1 = false /\ c1 <> 46%N
    /\ forall post, wordEnd post ->
         LogEngine.matchUnit (unit ++ post) = Some unit.
Proof.
  intros H. cbn [milliUnits microUnits app In] in H.
  repeat (destruct H as [<-|H];
          [eexists _, _; split; [reflexivity|];
           split; [reflexivity|]; split; [reflexivity|];
           split; [discriminate|];
           intros [|c post] Hp; cbn in *; try rewrite Hp; reflexivity|]).
  destruct H.
Qed.

(** What [matchUnit] returns is a unit at the head of the text, at the
    end of a word. *)
Lemma matchUnit_sound (s unit : jsstring) :
  LogEngine.matchUnit s = Some unit ->
  exists post,
    s = unit ++ post /\ In unit (milliUnits ++ microUnits) /\ wordEnd post.
Proof.
  destruct s as [|c1 [|c2 post]]; cbn [LogEngine.matchUnit];
    try discriminate.
  destruct (_ && _ && _) eqn:E; [|discriminate].
  intros [= <-]. exists post. split; [reflexivity|].
  apply andb_true_iff in E as [E Hpost].
  apply andb_true_iff in E as [E1 E2].
  split.
  - unfold LogEngine.isMicroSign in E1.
    cbn [milliUnits microUnits app In].
    apply orb_true_iff in E2 as [E2|E2]; apply N.eqb_eq in E2; subst c2;
      repeat (apply orb_true_iff in E1 as [E1|E1]);
      apply N.eqb_eq in E1; subst c1; tauto.
  - destruct post as [|c post]; [exact I|].
    apply negb_true_iff in Hpost. exact Hpost.
Qed.

Lemma matchLatencyAt_complete (s ds fs unit : jsstring) :
  matchesAt s ds fs unit ->
  LogEngine.matchLatencyAt s = Some (ds, fs, unit).
Proof.
  intros (ws & post & -> & Hne & Hds & Hfs & Hws & Hunit & Hpost).
  destruct (unit_shape unit Hunit) as (c1 & c2 & -> & Hc1 & Hd1 & Hdot & Hm).
  unfold LogEngine.matchLatencyAt. rewrite matchNumber_head; try assumption.
  - destruct (takeWhile_app_stop isWhiteSpace ws ([c1; c2] ++ post) Hws)
      as [_ ->]; [exact Hc1|].
    rewrite (Hm post Hpost). reflexivity.
  - destruct ws as [|w ws]; cbn [app].
    + split; assumption.
    + cbn [forallb] in Hws. apply andb_true_iff in Hws as [Hw _]. split.
      * destruct (isDigit w) eqn:E; [|reflexivity].
        rewrite (digit_not_space w E) in Hw. discriminate.
      * intros ->. discriminate.
Qed.

Lemma matchLatencyAt_sound (s ds fs unit : jsstring) :
  LogEngine.matchLatencyAt s = Some (ds, fs, unit) ->
  matchesAt s ds fs unit.
Proof.
  unfold LogEngine.matchLatencyAt.
  destruct (matchNumber s) as [[[ds' fs'] rest]|] eqn:En; [|discriminate].
  destruct (LogEngine.matchUnit _) as [unit'|] eqn:Eu; [|discriminate].
  intros [= <- <- <-].
  destruct (matchNumber_sound _ _ _ _ En) as (-> & Hne & Hds & Hfs).
  destruct (matchUnit_sound _ _ Eu) as (post & Hpost & Hunit & Hend).
  exists (takeWhile isWhiteSpace rest), post.
  split; [|split; [exact Hne|split; [exact Hds|split; [exact Hfs|]]]].
  - rewrite <- Hpost, takeWhile_dropWhile. reflexivity.
  - split; [apply takeWhile_forallb|]. split; assumption.
Qed.

(** [text.match]: the leftmost match of the calibrated pattern. *)
Lemma findLatency_leftmost (pre tail ds fs unit : jsstring) :
  unmatched (fun s => exists ds' fs' unit', matchesAt s ds' fs' unit')
    pre tail ->
  matchesAt tail ds fs unit ->
  LogEngine.findLatency (pre ++ tail) = Some (ds, fs, unit).
Proof.
  intros Hpre Htail. induction pre as [|c pre IH]; cbn [app].
  - pose proof (matchLatencyAt_complete _ _ _ _ Htail) as E.
    destruct tail; cbn [LogEngine.findLatency]; rewrite E; reflexivity.
  - cbn [LogEngine.findLatency].
    destruct (LogEngine.matchLatencyAt (c :: pre ++ tail))
      as [[[ds' fs'] unit']|] eqn:E.
    + exfalso. apply (Hpre [] (c :: pre) eq_refl); [discriminate|].
      exists ds', fs', unit'. apply matchLatencyAt_sound, E.
    + apply IH. intros p1 p2 Hp. apply (Hpre (c :: p1) p2).
      rewrite Hp. reflexivity.
Qed.

Lemma raw_matchLatencyAt_complete (s ds fs : jsstring) :
  rawMatchesAt s ds fs -> RawEngine.matchLatencyAt s = Some (ds, fs).
Proof.
  intros (post & -> & Hne & Hds & Hfs).
  unfold RawEngine.matchLatencyAt.
  rewrite matchNumber_head; try assumption; [reflexivity|].
  split; [reflexivity|discriminate].
Qed.

Lemma startsWith_app_skipn (p s : jsstring) :
  startsWith p s = true -> s = p ++ skipn (length p) s.
Proof.
  revert s. induction p as [|x p IH]; intros [|y s]; cbn;
    try reflexivity; try discriminate.
  intros H. apply andb_true_iff in H as [Hx Hp].
  apply N.eqb_eq in Hx. subst y. f_equal. apply IH, Hp.
Qed.

Lemma raw_matchLatencyAt_sound (s ds fs : jsstring) :
  RawEngine.matchLatencyAt s = Some (ds, fs) -> rawMatchesAt s ds fs.
Proof.
  unfold RawEngine.matchLatencyAt.
  destruct (matchNumber s) as [[[ds' fs'] rest]|] eqn:En; [|discriminate].
  destruct (startsWith (lit "ms") rest) eqn:Es; [|discriminate].
  intros [= <- <-].
  destruct (matchNumber_sound _ _ _ _ En) as (-> & Hne & Hds & Hfs).
  exists (skipn (length (lit "ms")) rest).
  split; [|split; [exact Hne|split; assumption]].
  rewrite <- (startsWith_app_skipn _ _ Es). reflexivity.
Qed.

Lemma raw_findLatency_leftmost (pre tail ds fs : jsstring) :
  unmatched (fun s => exists ds' fs', rawMatchesAt s ds' fs') pre tail ->
  rawMatchesAt tail ds fs ->
  RawEngine.findLatency (pre ++ tail) = Some (ds, fs).
Proof.
  intros Hpre Htail. induction pre as [|c pre IH]; cbn [app].
  - pose proof (raw_matchLatencyAt_complete _ _ _ Htail) as E.
    destruct tail; cbn [RawEngine.findLatency]; rewrite E; reflexivity.
  - cbn [RawEngine.findLatency].
    destruct (RawEngine.matchLatencyAt (c :: pre ++ tail))
      as [[ds' fs']|] eqn:E.
    + exfalso. apply (Hpre [] (c :: pre) eq_refl); [discriminate|].
      exists ds', fs'. apply raw_matchLatencyAt_sound, E.
    + apply IH. intros p1 p2 Hp. apply (Hpre (c :: p1) p2).
      rewrite Hp. reflexivity.
Qed.

(** A text in which the pattern of the raw-output revision matches
    nowhere holds no latency for it. *)
Lemma raw_findLatency_none (text : jsstring) :
  unmatched (fun s => exists ds fs, rawMatchesAt s ds fs) text [] ->
  RawEngine.findLatency text = None.
Proof.
  induction text as [|c text IH]; intros H.
  - cbn [RawEngine.findLatency]. reflexivity.
  - cbn [RawEngine.findLatency].
    destruct (RawEngine.matchLatencyAt (c :: text)) as [[ds fs]|] eqn:E.
    + exfalso. apply (H [] (c :: text) eq_refl); [discriminate|].
      exists ds, fs. rewrite app_nil_r. apply raw_matchLatencyAt_sound, E.
    + apply IH. intros p1 p2 Hp. apply (H (c :: p1) p2).
      rewrite Hp. reflexivity.
Qed.

(** [toFixed2] of a non-negative number is a multiple of 1/100 within
    half of 1/100 of the number. *)
Lemma toFixed2_rounds (x : Q) :
  (0 <= x)%Q ->
  exists k : Z,
    (toFixed2 x == k # 100)%Q
    /\ (x - (1 # 200) < toFixed2 x)%Q
    /\ (toFixed2 x <= x + (1 # 200))%Q.
Proof.
  intros Hx. unfold toFixed2.
  apply Qle_bool_iff in Hx. rewrite Hx.
  set (y := (x * 100 + (1 # 2))%Q).
  exists (Qfloor y).
  pose proof (Qfloor_le y) as H1. pose proof (Qlt_floor y) as H2.
  rewrite inject_Z_plus in H2. change (inject_Z 1) with 1%Q in H2.
  assert (E : (Qred (Qfloor y # 100) == inject_Z (Qfloor y) * (1 # 100))%Q).
  { rewrite Qred_correct. unfold Qeq, Qmult, inject_Z. cbn. lia. }
  split; [apply Qred_correct|].
  rewrite E. unfold y in *. clear E Hx.
  set (k := inject_Z (Qfloor (x * 100 + (1 # 2)))) in *. clearbody k.
  split; lra.
Qed.

(** [toFixed2] of any number is a multiple of 1/100 within half of
    1/100 of the number. *)
Lemma toFixed2_near (x : Q) :
  exists k : Z,
    (toFixed2 x == k # 100)%Q
    /\ (x - (1 # 200) <= toFixed2 x)%Q
    /\ (toFixed2 x <= x + (1 # 200))%Q.
Proof.
  destruct (Qlt_le_dec x 0) as [Hneg|Hpos].
  - unfold toFixed2.
    assert (E0 : Qle_bool 0 x = false).
    { destruct (Qle_bool 0 x) eqn:E; [|reflexivity].
      apply Qle_bool_iff in E. lra. }
    rewrite E0. set (y := ((- x) * 100 + (1 # 2))%Q).
    exists (- Qfloor y).
    pose proof (Qfloor_le y) as H1. pose proof (Qlt_floor y) as H2.
    rewrite inject_Z_plus in H2. change (inject_Z 1) with 1%Q in H2.
    assert (E : (Qred (- (Qfloor y # 100))
                 == - (inject_Z (Qfloor y) * (1 # 100)))%Q).
    { rewrite Qred_correct. unfold Qeq, Qmult, Qopp, inject_Z. cbn. lia. }
    split.
    + rewrite Qred_correct. unfold Qeq, Qopp. cbn. lia.
    + rewrite E. unfold y in *. clear E E0.
      set (k := inject_Z (Qfloor (- x * 100 + (1 # 2)))) in *. clearbody k.
      split; lra.
  - destruct (toFixed2_rounds x Hpos) as (k & Hk & Hlo & Hhi).
    exists k. split; [exact Hk|]. split; [lra|exact Hhi].
Qed.

Lemma milliUnit_isMs (unit : jsstring) :
  In unit milliUnits -> streq (unitToLowerCase unit) (lit "ms") = true.
Proof. intros [<-|[<-|[<-|[<-|[]]]]]; reflexivity. Qed.

Lemma microUnit_isMs (unit : jsstring) :
  In unit microUnits -> streq (unitToLowerCase unit) (lit "ms") = false.
Proof.
  intros H. cbn [microUnits In] in H.
  repeat (destruct H as [<-|H]; [reflexivity|]). destruct H.
Qed.

Lemma recordLine_good (host : bool) (l : ProbeLine)
    (node : LogEngine.TempNode) :
  pl_level l = lit "good" ->
  LogEngine.t_udpLatencyMs (LogEngine.recordLine host l node)
  = if streq (pl_probeType l) (lit "udp")
    then match LogEngine.parseLatencyMs (pl_resultText l) with
         | Some latency => Some latency
         | None => LogEngine.t_udpLatencyMs node
         end
    else LogEngine.t_udpLatencyMs node.
Proof.
  intros Hl. unfold LogEngine.recordLine. rewrite Hl, streq_refl. reflexivity.
Qed.

Lemma raw_recordLine_good (l : ProbeLine) (node : RawEngine.TempNode) :
  pl_level l = lit "good" ->
  RawEngine.t_latencySamples (RawEngine.recordLine l node)
  = match RawEngine.parseLatencyMs (pl_resultText l) with
    | Some latency => RawEngine.t_latencySamples node ++ [latency]
    | None => RawEngine.t_latencySamples node
    end.
Proof.
  intros Hl. unfold RawEngine.recordLine. rewrite Hl, streq_refl. reflexivity.
Qed.

(** A match of either pattern starts with a digit: a text without
    digits in front of a match holds no earlier one. *)
Lemma unmatched_no_digit (matches : jsstring -> Prop) (pre tail : jsstring) :
  (forall s, matches s -> match s with
                          | c :: _ => isDigit c = true
                          | [] => False
                          end) ->
  forallb (fun c => negb (isDigit c)) pre = true ->
  unmatched matches pre tail.
Proof.
  intros Hdigit Hpre p1 p2 -> Hne Hm.
  rewrite forallb_app in Hpre. apply andb_true_iff in Hpre as [_ Hp2].
  destruct p2 as [|c p2]; [congruence|].
  specialize (Hdigit _ Hm). cbn [app] in Hdigit.
  cbn [forallb] in Hp2. rewrite Hdigit in Hp2. discriminate.
Qed.

(** C8 (as amended). On a [good] line the parsers read the latency from
    the leftmost match of their pattern in the result text.  The
    calibrated revision does so on lines of probe type [udp], with a
    pattern of a number (digits, optionally a dot and digits), optional
    white space and one of the units ms, us, µs (U+00B5) and μs (U+03BC)
    in either case, ending at a word boundary: a value in ms is rounded
    to the nearest whole number; a value in microseconds is divided by
    1000 as a binary64 number and that quotient is rounded to 2 decimals
    (a multiple of 0.01 within 0.005 of it).  The raw-output revision
    does so on lines of every probe type, with a pattern of a number
    directly followed by the two letters ms, and rounds the value to the
    nearest whole number; a text in which that pattern matches nowhere,
    as a value in microseconds, gives no latency. *)
Theorem udp_latency_extraction (l : ProbeLine) (pre tail ds fs : jsstring)
    (v : Q) :
  pl_level l = lit "good" ->
  pl_resultText l = pre ++ tail ->
  decimalValue ds fs = Fin v ->
  (forall host node unit q,
     pl_probeType l = lit "udp" ->
     matchesAt tail ds fs unit ->
     unmatched (fun s => exists ds' fs' unit', matchesAt s ds' fs' unit')
       pre tail ->
     toDouble (v / 1000)%Q = Fin q ->
     exists latency,
       LogEngine.parseLatencyMs (pl_resultText l) = Some latency
       /\ LogEngine.t_udpLatencyMs (LogEngine.recordLine host l node)
          = Some latency
       /\ (In unit milliUnits -> latency = Math_round v)
       /\ (In unit microUnits ->
           latency = toFixed2 q
           /\ exists k : Z,
                (latency == k # 100)%Q
                /\ (q - (1 # 200) <= latency)%Q
                /\ (latency <= q + (1 # 200))%Q))
  /\ (forall node,
        rawMatchesAt tail ds fs ->
        unmatched (fun s => exists ds' fs', rawMatchesAt s ds' fs')
          pre tail ->
        RawEngine.parseLatencyMs (pl_resultText l) = Some (Math_round v)
        /\ RawEngine.t_latencySamples (RawEngine.recordLine l node)
           = RawEngine.t_latencySamples node ++ [Math_round v])
  /\ (forall node,
        unmatched (fun s => exists ds' fs', rawMatchesAt s ds' fs')
          (pl_resultText l) [] ->
        RawEngine.parseLatencyMs (pl_resultText l) = None
        /\ RawEngine.t_latencySamples (RawEngine.recordLine l node)
           = RawEngine.t_latencySamples node).
Proof.
  intros Hlevel Htext Hv. split; [|split].
  - intros host node unit q Htype Hm Hpre Hq.
    assert (Hfind : LogEngine.findLatency (pl_resultText l)
                    = Some (ds, fs, unit)).
    { rewrite Htext. apply findLatency_leftmost; assumption. }
    destruct Hm as (ws & post & _ & _ & _ & _ & _ & Hunit & _).
    apply in_app_iff in Hunit.
    assert (Hparse :
      LogEngine.parseLatencyMs (pl_resultText l)
      = Some (if streq (unitToLowerCase unit) (lit "ms")
              then Math_round v else toFixed2 q)).
    { unfold LogEngine.parseLatencyMs. rewrite Hfind, Hv, Hq.
      destruct (streq _ _); reflexivity. }
    eexists. split; [exact Hparse|]. split.
    + rewrite (recordLine_good host l node Hlevel), Htype, streq_refl, Hparse.
      reflexivity.
    + split; intros Hin.
      * rewrite (milliUnit_isMs _ Hin). reflexivity.
      * rewrite (microUnit_isMs _ Hin). split; [reflexivity|].
        apply toFixed2_near.
  - intros node Hm Hpre.
    assert (Hparse : RawEngine.parseLatencyMs (pl_resultText l)
                     = Some (Math_round v)).
    { unfold RawEngine.parseLatencyMs. rewrite Htext.
      rewrite (raw_findLatency_leftmost pre tail ds fs Hpre Hm), Hv.
      reflexivity. }
    split; [exact Hparse|].
    rewrite (raw_recordLine_good l node Hlevel), Hparse. reflexivity.
  - intros node Hnone.
    assert (Hparse : RawEngine.parseLatencyMs (pl_resultText l) = None).
    { unfold RawEngine.parseLatencyMs.
      rewrite (raw_findLatency_none _ Hnone). reflexivity. }
    split; [exact Hparse|].
    rewrite (raw_recordLine_good l node Hlevel), Hparse. reflexivity.
Qed.

(** The wording of C8 against the raw-output revision: a [good] line of
    probe type [udp] whose result text is a number and the unit us, which
    the claimed pattern matches, gets the latency 0.84 in the calibrated
    revision and no latency in the raw-output revision. *)
Lemma udp_latency_counterexample :
  let stderr := lit "good: derp/a/b/udp: 845us" in
  matchesAt (lit "845us") (lit "845") [] (lit "us")
  /\ map n_latencyMs
       (LogEngine.parseNodesFromProbeLog (H := asciiRuntime) stderr [] ∅)
     = [Some (21 # 25)%Q]
  /\ map n_latencyMs
       (RawEngine.parseNodesFromProbeLog (H := asciiRuntime) stderr [] ∅)
     = [None].
Proof.
  cbv zeta. split; [|split; vm_compute; reflexivity].
  exists [], []. cbn [numberText app].
  split; [reflexivity|]. split; [discriminate|].
  split; [reflexivity|]. split; [reflexivity|]. split; [reflexivity|].
  split; [|exact I]. cbn [milliUnits microUnits app In]. tauto.
Qed.

(** The two revisions on the same result texts: the earlier pattern
    knows only "ms" and no word boundary; the quotient of the later one
    is rounded as a binary64 number. *)
Example latency_units_by_revision :
  LogEngine.parseLatencyMs (lit "1500us") = Some (3 # 2)%Q
  /\ RawEngine.parseLatencyMs (lit "1500us") = None
  /\ LogEngine.parseLatencyMs (lit "31.4 MS") = Some 31%Q
  /\ RawEngine.parseLatencyMs (lit "31.4 MS") = None
  /\ LogEngine.parseLatencyMs (lit "12msec") = None
  /\ RawEngine.parseLatencyMs (lit "12msec") = Some 12%Q
  /\ LogEngine.parseLatencyMs (lit "845us") = Some (21 # 25)%Q
  /\ LogEngine.parseLatencyMs (lit "1005us") = Some 1%Q
  /\ LogEngine.parseLatencyMs (lit "2.49999999999999999999ms") = Some 3%Q
  /\ LogEngine.parseLatencyMs (lit "attempt 2: 31ms") = Some 31%Q.
Proof. vm_compute. repeat split. Qed.

(** ** RawOutputParser *)

Lemma firstTruthy_nonEmpty (candidates : list jsstring) (s : jsstring) :
  RawEngine.firstTruthy candidates = Some s -> s <> [].
Proof.
  induction candidates as [|[|c cs] rest IH]; cbn; intros H.
  - discriminate.
  - apply IH, H.
  - injection H as <-. discriminate.
Qed.

Lemma normalizeStatus_rule (latency loss : option Q) (err : option jsstring) :
  (forall s, err = Some s -> s <> []) ->
  RawEngine.normalizeStatus latency loss err = rawRule err latency loss.
Proof.
  intros Herr. unfold RawEngine.normalizeStatus, rawRule.
  destruct err as [[|c s]|].
  - exfalso. apply (Herr [] eq_refl). reflexivity.
  - reflexivity.
  - destruct latency as [l|]; [|reflexivity].
    unfold Qgeb. destruct loss as [p|]; [destruct (Qle_bool 20 p)|];
      cbn [orb]; reflexivity.
Qed.

Lemma holds_unique (obj : jsobject) (k : jsstring) (v w : json) :
  holds obj k v -> holds obj k w -> v = w.
Proof.
  intros (f1 & b1 & E1 & N1). revert obj E1.
  induction f1 as [|[k1 v1] f1 IH]; intros obj E1 (f2 & b2 & E2 & N2).
  - destruct f2 as [|[k2 v2] f2]; subst obj.
    + cbn [app] in E2. congruence.
    + cbn [app] in E2. injection E2 as <- <- _.
      exfalso. apply N2. left. reflexivity.
  - destruct f2 as [|[k2 v2] f2]; subst obj.
    + cbn [app] in E2. injection E2 as -> -> _.
      exfalso. apply N1. left. reflexivity.
    + cbn [app] in E2. injection E2 as <- <- E2.
      apply (IH (fun H => N1 (or_intror H)) _ eq_refl).
      exists f2, b2. split; [exact E2|].
      intros H. apply N2. right. exact H.
Qed.

Lemma getProp_holds (k : jsstring) (obj : jsobject) :
  match RawEngine.getProp k obj with
  | Some v => holds obj k v
  | None => forall v, ~ holds obj k v
  end.
Proof.
  induction obj as [|[k' v'] obj IH]; cbn [RawEngine.getProp].
  - intros v (front & back & E & _). destruct front; discriminate E.
  - destruct (streq k k') eqn:Ek.
    + apply streq_spec in Ek as <-. exists [], obj. split; [reflexivity|].
      intros [].
    + apply streq_false in Ek.
      destruct (RawEngine.getProp k obj) as [v|].
      * destruct IH as (front & back & -> & Hn).
        exists ((k', v') :: front), back. split; [reflexivity|].
        intros [H|H]; [apply Ek; symmetry; exact H|exact (Hn H)].
      * intros v (front & back & E & Hn).
        destruct front as [|[k1 v1] front]; cbn [app] in E.
        -- injection E as E1 _ _. apply Ek. symmetry. exact E1.
        -- injection E as _ _ E. apply (IH v).
           exists front, back. split; [exact E|].
           intros H. apply Hn. right. exact H.
Qed.

Lemma stringProp_field (k : String.string) (obj : jsobject) :
  match RawEngine.stringProp k obj with
  | [] => forall s, ~ textField obj (lit k) s
  | s => textField obj (lit k) s
  end.
Proof.
  unfold RawEngine.stringProp.
  pose proof (getProp_holds (lit k) obj) as H.
  destruct (RawEngine.getProp (lit k) obj) as [v|].
  - destruct v as [| | |[|c s]| |];
      try (intros s' [Hs' _]; pose proof (holds_unique _ _ _ _ H Hs');
           discriminate).
    + intros s' [Hs' Hne]. pose proof (holds_unique _ _ _ _ H Hs') as E.
      injection E as <-. apply Hne. reflexivity.
    + split; [exact H|discriminate].
  - intros s [Hs _]. exact (H _ Hs).
Qed.

Section RawFacts.

Context `{RT : Runtime}.

Lemma toNumber_field (k : jsstring) (obj : jsobject) :
  match toNumber (RawEngine.getProp k obj) with
  | Some q => numberField obj k q
  | None => forall q, ~ numberField obj k q
  end.
Proof.
  unfold toNumber.
  pose proof (getProp_holds k obj) as H.
  destruct (RawEngine.getProp k obj) as [v|].
  - destruct v as [| |[q|]|s| |].
    all: try (intros q' [Hq|(s' & Hs' & _)];
              [pose proof (holds_unique _ _ _ _ H Hq)
              |pose proof (holds_unique _ _ _ _ H Hs')]; discriminate).
    + left. exact H.
    + destruct (stringToNumber s) as [q|] eqn:Es.
      * right. exists s. split; [exact H|exact Es].
      * intros q' [Hq|(s' & Hs' & Es')].
        -- pose proof (holds_unique _ _ _ _ H Hq). discriminate.
        -- pose proof (holds_unique _ _ _ _ H Hs') as E.
           injection E as <-. congruence.
  - intros q [Hq|(s & Hs & _)]; [exact (H _ Hq)|exact (H _ Hs)].
Qed.

Lemma numberProp_field (k : String.string) (obj : jsobject) :
  match RawEngine.numberProp k obj with
  | Some q => numberField obj (lit k) q
  | None => forall q, ~ numberField obj (lit k) q
  end.
Proof. apply toNumber_field. Qed.

Lemma firstTruthy_fields (obj : jsobject) (names : list String.string) :
  firstField (textField obj) (map lit names)
    (RawEngine.firstTruthy (map (fun k => RawEngine.stringProp k obj) names)).
Proof.
  induction names as [|k names IH]; cbn [map RawEngine.firstTruthy].
  - intros k a [].
  - pose proof (stringProp_field k obj) as Hk.
    destruct (RawEngine.stringProp k obj) as [|c s].
    + destruct (RawEngine.firstTruthy _) as [a|]; cbn [firstField] in IH |- *.
      * destruct IH as (front & k1 & back & E & Hr & Hfront).
        exists (lit k :: front), k1, back. rewrite E.
        split; [reflexivity|]. split; [exact Hr|].
        intros k' a' [<-|Hin]; [apply Hk|apply Hfront, Hin].
      * intros k' a' [<-|Hin]; [apply Hk|apply IH, Hin].
    + exists [], (lit k), (map lit names).
      split; [reflexivity|]. split; [exact Hk|]. intros k' a' [].
Qed.

Lemma firstDefined_fields (obj : jsobject) (names : list String.string) :
  firstField (numberField obj) (map lit names)
    (RawEngine.firstDefined
       (map (fun k => RawEngine.numberProp k obj) names)).
Proof.
  induction names as [|k names IH]; cbn [map RawEngine.firstDefined].
  - intros k a [].
  - pose proof (numberProp_field k obj) as Hk.
    destruct (RawEngine.numberProp k obj) as [q|].
    + exists [], (lit k), (map lit names).
      split; [reflexivity|]. split; [exact Hk|]. intros k' a' [].
    + destruct (RawEngine.firstDefined _) as [a|]; cbn [firstField] in IH |- *.
      * destruct IH as (front & k1 & back & E & Hr & Hfront).
        exists (lit k :: front), k1, back. rewrite E.
        split; [reflexivity|]. split; [exact Hr|].
        intros k' a' [<-|Hin]; [apply Hk|apply Hfront, Hin].
      * intros k' a' [<-|Hin]; [apply Hk|apply IH, Hin].
Qed.

Lemma pickOne_nodes (checkedAt : jsstring)
    (acc : gset jsstring * list ProbeNodeResult) (obj : jsobject) :
  snd (RawEngine.pickOne checkedAt acc obj) = snd acc
  \/ exists node,
       snd (RawEngine.pickOne checkedAt acc obj) = snd acc ++ [node]
       /\ fromObject obj node.
Proof.
  destruct acc as [seen nodes]. unfold RawEngine.pickOne.
  destruct (negb (nonEmpty (RawEngine.idOf obj)) && _ && _ && _);
    [left; reflexivity|].
  destruct (bool_decide _); [left; reflexivity|].
  right. eexists. cbn [snd]. split; [reflexivity|].
  unfold fromObject. cbn [n_raw n_message n_latencyMs n_lossPct n_status].
  split; [reflexivity|].
  split; [exact (firstTruthy_fields obj [_; _; _])|].
  split; [exact (firstDefined_fields obj [_; _; _; _])|].
  split; [exact (firstDefined_fields obj [_; _; _])|].
  apply normalizeStatus_rule.
  intros s Hs. unfold RawEngine.errOf in Hs.
  apply (firstTruthy_nonEmpty _ _ Hs).
Qed.

Lemma pick_fold (checkedAt : jsstring) (objs : list jsobject) :
  forall acc node,
    In node (snd (fold_left (RawEngine.pickOne checkedAt) objs acc)) ->
    In node (snd acc) \/ exists obj, In obj objs /\ fromObject obj node.
Proof.
  induction objs as [|obj objs IH]; intros acc node Hin; cbn [fold_left] in Hin.
  - left; exact Hin.
  - destruct (IH _ _ Hin) as [H|(o & Ho & Hf)].
    + destruct (pickOne_nodes checkedAt acc obj) as [E|(n & E & Hn)];
        rewrite E in H.
      * left; exact H.
      * apply in_app_iff in H as [H|[<-|[]]]; [left; exact H|].
        right. exists obj. split; [left; reflexivity|exact Hn].
    + right. exists o. split; [right; exact Ho|exact Hf].
Qed.

(** An object with no identifier and nothing but a latency. *)
Lemma pickOne_latency_only (checkedAt : jsstring) (obj : jsobject) (v : Q) :
  RawEngine.idOf obj = [] ->
  RawEngine.latencyOf obj = Some v ->
  RawEngine.lossOf obj = None ->
  RawEngine.errOf obj = None ->
  RawEngine.firstTruthy [RawEngine.stringProp "name" obj;
                         RawEngine.stringProp "nodeName" obj; []] = None ->
  snd (RawEngine.pickOne checkedAt (∅, []) obj)
  = [{| n_id := lit "node-1"; n_name := lit "Node 1";
        n_region :=
          RawEngine.firstTruthy [RawEngine.stringProp "region" obj;
                                 RawEngine.stringProp "regionName" obj;
                                 RawEngine.stringProp "regionCode" obj];
        n_latencyMs := Some v; n_lossPct := None; n_avgLatencyMs := None;
        n_status := if Qle_bool 180 v then degraded else healthy;
        n_message := None; n_checkedAt := checkedAt; n_raw := Some obj |}].
Proof.
  intros Hid Hl Hp He Hn. unfold RawEngine.pickOne.
  rewrite Hid, Hl, Hp, He, Hn. cbn [nonEmpty negb andb].
  rewrite bool_decide_eq_false_2 by apply not_elem_of_empty.
  reflexivity.
Qed.

Lemma wrapper_props (w : jsstring) (items : list json) (k : String.string) :
  RawEngine.stringProp k [(w, JArr items)] = []
  /\ RawEngine.numberProp k [(w, JArr items)] = None.
Proof.
  unfold RawEngine.stringProp, RawEngine.numberProp. cbn [RawEngine.getProp].
  destruct (streq (lit k) w); split; reflexivity.
Qed.

Lemma pickOne_wrapper (checkedAt : jsstring) acc (w : jsstring)
    (items : list json) :
  RawEngine.pickOne checkedAt acc [(w, JArr items)] = acc.
Proof.
  destruct acc as [seen nodes].
  unfold RawEngine.pickOne, RawEngine.idOf, RawEngine.latencyOf,
    RawEngine.lossOf, RawEngine.errOf.
  rewrite !(proj1 (wrapper_props w items _)),
          !(proj2 (wrapper_props w items _)).
  reflexivity.
Qed.

Lemma numberProp_single (k : String.string) (name : jsstring)
    (value : json) :
  RawEngine.numberProp k [(name, value)]
  = if streq (lit k) name then toNumber (Some value) else None.
Proof.
  unfold RawEngine.numberProp. cbn [RawEngine.getProp].
  destruct (streq (lit k) name); reflexivity.
Qed.

(** A record with one property, under a latency name. *)
Lemma latency_record_props (name : jsstring) (value : json) (v : Q) :
  In name latencyNames ->
  toNumber (Some value) = Some v ->
  let obj := [(name, value)] in
  RawEngine.idOf obj = []
  /\ RawEngine.latencyOf obj = Some v
  /\ RawEngine.lossOf obj = None
  /\ RawEngine.errOf obj = None
  /\ RawEngine.firstTruthy [RawEngine.stringProp "name" obj;
                            RawEngine.stringProp "nodeName" obj; []] = None
  /\ RawEngine.firstTruthy [RawEngine.stringProp "region" obj;
                            RawEngine.stringProp "regionName" obj;
                            RawEngine.stringProp "regionCode" obj] = None.
Proof.
  intros Hname Hv obj.
  assert (Hl : RawEngine.latencyOf obj = Some v).
  { unfold RawEngine.latencyOf, obj. rewrite !numberProp_single, Hv.
    destruct Hname as [<-|[<-|[<-|[<-|[]]]]]; reflexivity. }
  split; [|split; [exact Hl|]];
    destruct Hname as [<-|[<-|[<-|[<-|[]]]]]; repeat split; reflexivity.
Qed.

(** C7. Every node of the RawOutputParser comes from an object found in
    the document and carries its values: its message is the first
    non-empty text among the object's fields [error], [err] and
    [message], its latency the first number among the fields [latencyMs],
    [latency_ms], [latency] and [pingMs], its loss the first number among
    [lossPct], [loss_pct] and [packetLossPct], a number being a finite
    number or a text that converts to one.  Its status is [down] if it
    has a message, else [unknown] if it has no latency, else [degraded]
    if its loss is at least 20 or its latency at least 180, else
    [healthy].  A record that holds only a latency and no identifier,
    given alone, inside an array, or as the array of a wrapping object,
    yields exactly one node, with the generated id "node-1". *)
Theorem raw_record_status (checkedAt : jsstring) :
  (forall raw node,
     In node (RawEngine.pickNodeRecords checkedAt raw) ->
     exists obj,
       In obj (RawEngine.flattenObjects raw)
       /\ n_raw node = Some obj
       /\ firstField (textField obj) errorNames (n_message node)
       /\ firstField (numberField obj) latencyNames (n_latencyMs node)
       /\ firstField (numberField obj) lossNames (n_lossPct node)
       /\ n_status node
          = match n_message node with
            | Some _ => down
            | None =>
                match n_latencyMs node with
                | None => unknown
                | Some latency =>
                    if match n_lossPct node with
                       | Some loss => Qle_bool 20 loss
                       | None => false
                       end
                       || Qle_bool 180 latency
                    then degraded
                    else healthy
                end
            end)
  /\ (forall name value v wrapper,
        In name latencyNames ->
        toNumber (Some value) = Some v ->
        let record := JObj [(name, value)] in
        let node :=
          {| n_id := lit "node-1"; n_name := lit "Node 1";
             n_region := None;
             n_latencyMs := Some v; n_lossPct := None;
             n_avgLatencyMs := None;
             n_status := if Qle_bool 180 v then degraded else healthy;
             n_message := None; n_checkedAt := checkedAt;
             n_raw := Some [(name, value)] |} in
        RawEngine.pickNodeRecords checkedAt record = [node]
        /\ RawEngine.pickNodeRecords checkedAt (JArr [record]) = [node]
        /\ RawEngine.pickNodeRecords checkedAt
             (JObj [(wrapper, JArr [record])]) = [node]).
Proof.
  split.
  - intros raw node Hin. unfold RawEngine.pickNodeRecords in Hin.
    destruct (pick_fold checkedAt _ _ _ Hin) as [[]|(obj & Ho & Hf)].
    exists obj. split; [exact Ho|]. exact Hf.
  - intros name value v wrapper Hname Hv record node.
    destruct (latency_record_props name value v Hname Hv)
      as (Hid & Hl & Hp & He & Hn & Hr).
    assert (Hone :
      snd (RawEngine.pickOne checkedAt (∅, []) [(name, value)]) = [node]).
    { rewrite (pickOne_latency_only checkedAt _ v Hid Hl Hp He Hn), Hr.
      reflexivity. }
    assert (Hflat : forall rest,
              RawEngine.visit (JObj [(name, value)]) ++ rest
              = [(name, value)] :: rest).
    { intros rest.
      destruct value as [| |n|s| |]; try reflexivity; discriminate Hv. }
    unfold RawEngine.pickNodeRecords, RawEngine.flattenObjects.
    change (RawEngine.visit (JArr [record]))
      with (RawEngine.visit record ++ []).
    change (RawEngine.visit (JObj [(wrapper, JArr [record])]))
      with ([(wrapper, JArr [record])]
            :: (RawEngine.visit record ++ []) ++ []).
    rewrite <- (app_nil_r (RawEngine.visit record)) at 1.
    unfold record. rewrite !Hflat. cbn [app fold_left].
    split; [exact Hone|]. split; [exact Hone|].
    rewrite pickOne_wrapper. exact Hone.
Qed.

End RawFacts.

Lemma raw_record_status_witness :
  In (lit "latency") latencyNames
  /\ map n_id
       (RawEngine.pickNodeRecords (H := asciiRuntime) (lit "now")
          (JObj [(lit "latency", JNum (Fin 5))]))
     = [lit "node-1"].
Proof.
  assert (H : In (lit "latency") latencyNames)
    by (right; right; left; reflexivity).
  split; [exact H|].
  rewrite (proj1 (proj2 (raw_record_status (RT := asciiRuntime) (lit "now"))
                   (lit "latency") (JNum (Fin 5)) 5%Q [] H eq_refl)).
  reflexivity.
Defined.

(** ** Region ordering *)

Section SortFacts.

Context {A : Type} (cmp : A -> A -> Q) (P : A -> Prop).

Notation le := (signLe cmp).

Hypothesis le_total : forall a b, P a -> P b -> le a b \/ le b a.
Hypothesis le_trans :
  forall a b c, P a -> P b -> P c -> le a b -> le b c -> le a c.

Lemma insertBy_In (x z : A) (l : list A) :
  In z (insertBy cmp x l) <-> z = x \/ In z l.
Proof.
  split; intros H.
  - apply (Permutation_in _ (insertBy_Permutation cmp x l)) in H.
    destruct H as [H|H]; [left; congruence|right; exact H].
  - apply (Permutation_in _ (Permutation_sym (insertBy_Permutation cmp x l))).
    destruct H as [H|H]; [left; congruence|right; exact H].
Qed.

Lemma insertBy_sorted (x : A) (l : list A) :
  P x -> Forall P l ->
  StronglySorted le l -> StronglySorted le (insertBy cmp x l).
Proof.
  intros Px Pl Hs. induction Hs as [|y l Hs IH Hy]; cbn [insertBy].
  - constructor; constructor.
  - apply Forall_cons_iff in Pl as [Py Pl].
    destruct (Qle_bool (cmp x y) 0) eqn:E.
    + constructor; [constructor; assumption|].
      constructor; [exact E|].
      rewrite Forall_forall in Hy, Pl. apply Forall_forall. intros z Hz.
      apply (le_trans x y z Px Py (Pl z Hz) E (Hy z Hz)).
    + constructor; [exact (IH Pl)|].
      apply Forall_forall. intros z Hz. apply insertBy_In in Hz as [->|Hz].
      * destruct (le_total x y Px Py) as [H|H];
          [unfold signLe in H; congruence|exact H].
      * rewrite Forall_forall in Hy. apply Hy, Hz.
Qed.

Lemma Array_sort_sorted (l : list A) :
  Forall P l -> StronglySorted le (Array_sort cmp l).
Proof.
  induction l as [|x l IH]; cbn [Array_sort fold_right]; intros Pl;
    [constructor|].
  apply Forall_cons_iff in Pl as [Px Pl].
  apply insertBy_sorted; [exact Px| |exact (IH Pl)].
  apply Forall_forall. intros z Hz.
  apply (Permutation_in _ (Array_sort_Permutation cmp l)) in Hz.
  rewrite Forall_forall in Pl. apply Pl, Hz.
Qed.

(** A sorted arrangement of elements that the order tells apart is
    unique. *)
Lemma sorted_unique (l1 l2 : list A) :
  (forall a b, In a l1 -> In b l1 -> le a b -> le b a -> a = b) ->
  StronglySorted le l1 -> StronglySorted le l2 -> Permutation l1 l2 ->
  l1 = l2.
Proof.
  revert l2. induction l1 as [|a l1 IH]; intros l2 Hanti H1 H2 Hp.
  - apply Permutation_nil in Hp. congruence.
  - destruct l2 as [|b l2].
    { apply Permutation_sym, Permutation_nil in Hp. discriminate. }
    apply StronglySorted_inv in H1 as [H1 Ha].
    apply StronglySorted_inv in H2 as [H2 Hb].
    rewrite Forall_forall in Ha, Hb.
    assert (Hab : a = b).
    { assert (Hina : In a (b :: l2))
        by (apply (Permutation_in _ Hp); left; reflexivity).
      assert (Hinb : In b (a :: l1))
        by (apply (Permutation_in _ (Permutation_sym Hp)); left; reflexivity).
      destruct Hina as [Hina|Hina]; [congruence|].
      destruct Hinb as [Hinb|Hinb]; [congruence|].
      apply Hanti; [left; reflexivity|right; exact Hinb| |].
      - apply Ha, Hinb.
      - apply Hb, Hina. }
    subst b. f_equal. apply IH.
    + intros x y Hx Hy. apply Hanti; right; assumption.
    + exact H1.
    + exact H2.
    + apply (Permutation_cons_inv Hp).
Qed.

End SortFacts.

Section RegionOrder.

Context `{RT : Runtime} `{!LocaleOrder RT}.
Variable regionIdMap : gmap jsstring Q.

(** What follows from the consistency of [localeCompare]. *)
Lemma locale_lt_gt (a b : jsstring) :
  localeCompare a b < 0 -> 0 < localeCompare b a.
Proof.
  intros H.
  destruct (Z.lt_trichotomy (localeCompare b a) 0) as [H'|[H'|H']].
  - pose proof (locale_lt_trans a b a H H') as Haa.
    rewrite locale_refl in Haa. lia.
  - apply locale_eq_sym in H'. lia.
  - exact H'.
Qed.

Lemma locale_gt_lt (a b : jsstring) :
  0 < localeCompare a b -> localeCompare b a < 0.
Proof.
  intros H.
  destruct (Z.lt_trichotomy (localeCompare b a) 0) as [H'|[H'|H']].
  - exact H'.
  - apply locale_eq_sym in H'. lia.
  - pose proof (locale_gt_trans a b a H H') as Haa.
    rewrite locale_refl in Haa. lia.
Qed.

Lemma locale_total (a b : jsstring) :
  localeCompare a b <= 0 \/ localeCompare b a <= 0.
Proof.
  destruct (Z_le_gt_dec (localeCompare a b) 0) as [H|H]; [left; exact H|].
  right. assert (H' : 0 < localeCompare a b) by lia.
  apply locale_gt_lt in H'. lia.
Qed.

Lemma locale_le_trans (a b c : jsstring) :
  localeCompare a b <= 0 -> localeCompare b c <= 0 -> localeCompare a c <= 0.
Proof.
  intros Hab Hbc.
  destruct (Z_le_gt_dec (localeCompare a c) 0) as [H|H]; [exact H|].
  assert (Hac : 0 < localeCompare a c) by lia. clear H.
  destruct (Z.eq_dec (localeCompare a b) 0) as [Eab|Eab].
  - destruct (Z.eq_dec (localeCompare b c) 0) as [Ebc|Ebc].
    + rewrite (locale_eq_trans a b c Eab Ebc) in Hac. lia.
    + assert (Hcb : 0 < localeCompare c b) by (apply locale_lt_gt; lia).
      pose proof (locale_gt_trans a c b Hac Hcb). lia.
  - assert (Hlt : localeCompare a b < 0) by lia.
    pose proof (locale_gt_lt a c Hac) as Hca.
    pose proof (locale_lt_trans c a b Hca Hlt) as Hcb.
    destruct (Z.eq_dec (localeCompare b c) 0) as [Ebc|Ebc].
    + apply locale_eq_sym in Ebc. lia.
    + apply locale_lt_gt in Hcb. lia.
Qed.

Lemma nameLe_total (a b : ProbeNodeResult) :
  (localeCompare (n_name a) (n_name b) = 0 -> n_name a = n_name b) ->
  nameLe a b \/ nameLe b a.
Proof.
  intros Hsep. unfold nameLe.
  destruct (Z.lt_trichotomy (localeCompare (n_name a) (n_name b)) 0)
    as [H|[H|H]].
  - left; left; exact H.
  - apply Hsep in H.
    destruct (locale_total (regionOr (n_region a)) (regionOr (n_region b)))
      as [H'|H'].
    + left; right; split; assumption.
    + right; right; split; [symmetry; exact H|exact H'].
  - right; left. apply locale_gt_lt. exact H.
Qed.

Lemma nameLe_trans (a b c : ProbeNodeResult) :
  nameLe a b -> nameLe b c -> nameLe a c.
Proof.
  unfold nameLe. intros [H1|[E1 H1]] [H2|[E2 H2]].
  - left. eapply locale_lt_trans; eassumption.
  - left. rewrite <- E2. exact H1.
  - left. rewrite E1. exact H2.
  - right. split; [congruence|]. eapply locale_le_trans; eassumption.
Qed.

Lemma nameLe_antisym (a b : ProbeNodeResult) :
  nameLe a b -> nameLe b a ->
  n_name a = n_name b
  /\ localeCompare (regionOr (n_region a)) (regionOr (n_region b)) = 0.
Proof.
  unfold nameLe. intros [H1|[E1 H1]] [H2|[E2 H2]].
  - apply locale_lt_gt in H1. lia.
  - rewrite E2, locale_refl in H1. lia.
  - rewrite E1, locale_refl in H2. lia.
  - split; [exact E1|].
    destruct (Z.eq_dec (localeCompare (regionOr (n_region a))
                          (regionOr (n_region b))) 0) as [E|E]; [exact E|].
    assert (H : localeCompare (regionOr (n_region a))
                  (regionOr (n_region b)) < 0) by lia.
    apply locale_lt_gt in H. lia.
Qed.

Lemma byName_le (a b : ProbeNodeResult) :
  (localeCompare (n_name a) (n_name b) = 0 -> n_name a = n_name b) ->
  Qle_bool
    (if negb (streq (n_name a) (n_name b))
     then inject_Z (localeCompare (n_name a) (n_name b))
     else inject_Z (localeCompare (regionOr (n_region a))
                                  (regionOr (n_region b)))) 0 = true
  <-> nameLe a b.
Proof.
  intros Hsep. unfold nameLe. rewrite Qle_bool_iff.
  destruct (streq (n_name a) (n_name b)) eqn:E; cbn [negb].
  - apply streq_spec in E. change 0%Q with (inject_Z 0).
    rewrite <- Zle_Qle. rewrite E, locale_refl. split.
    + intros H. right. split; [reflexivity|exact H].
    + intros [H|[_ H]]; [lia|exact H].
  - apply streq_false in E. change 0%Q with (inject_Z 0).
    rewrite <- Zle_Qle. split.
    + intros H. left.
      destruct (Z.eq_dec (localeCompare (n_name a) (n_name b)) 0) as [E0|E0];
        [apply Hsep in E0; contradiction|lia].
    + intros [H|[H _]]; [lia|contradiction].
Qed.

(** The sign of the comparator, as an order on nodes. *)
Lemma compareNodes_le (a b : ProbeNodeResult) :
  (localeCompare (n_name a) (n_name b) = 0 -> n_name a = n_name b) ->
  Qle_bool (compareNodes regionIdMap a b) 0 = true <-> nodeLe regionIdMap a b.
Proof.
  intros Hsep. unfold compareNodes, nodeLe.
  destruct (regionSortValue a regionIdMap) as [x|],
           (regionSortValue b regionIdMap) as [y|].
  - destruct (Qeq_bool x y) eqn:E; cbn [negb].
    + apply Qeq_bool_iff in E. rewrite (byName_le a b Hsep). split.
      * intros H. right. split; assumption.
      * intros [H|[_ H]]; [|exact H].
        rewrite E in H. exfalso. apply (Qlt_irrefl _ H).
    + apply Qeq_bool_neq in E. rewrite Qle_bool_iff. split.
      * intros H. left. apply Qle_lteq in H as [H|H].
        -- lra.
        -- exfalso. apply E. lra.
      * intros [H|[H _]]; [lra|contradiction].
  - split; [intros _; exact I|reflexivity].
  - split; [discriminate|intros []].
  - apply (byName_le a b Hsep).
Qed.

Lemma nodeLe_total (a b : ProbeNodeResult) :
  (localeCompare (n_name a) (n_name b) = 0 -> n_name a = n_name b) ->
  nodeLe regionIdMap a b \/ nodeLe regionIdMap b a.
Proof.
  intros Hsep. unfold nodeLe.
  destruct (regionSortValue a regionIdMap) as [x|],
           (regionSortValue b regionIdMap) as [y|]; auto.
  - destruct (Q_dec x y) as [[H|H]|H].
    + left; left; exact H.
    + right; left; exact H.
    + destruct (nameLe_total a b Hsep) as [N|N].
      * left; right; split; assumption.
      * right; right; split; [symmetry; exact H|exact N].
  - apply (nameLe_total a b Hsep).
Qed.

Lemma nodeLe_trans (a b c : ProbeNodeResult) :
  nodeLe regionIdMap a b -> nodeLe regionIdMap b c -> nodeLe regionIdMap a c.
Proof.
  unfold nodeLe.
  destruct (regionSortValue a regionIdMap) as [x|],
           (regionSortValue b regionIdMap) as [y|],
           (regionSortValue c regionIdMap) as [z|]; try tauto.
  - intros [H1|[E1 N1]] [H2|[E2 N2]].
    + left. lra.
    + left. lra.
    + left. lra.
    + right. split; [lra|eapply nameLe_trans; eassumption].
  - apply nameLe_trans.
Qed.

Lemma nodeLe_antisym (a b : ProbeNodeResult) :
  nodeLe regionIdMap a b -> nodeLe regionIdMap b a ->
  n_name a = n_name b
  /\ localeCompare (regionOr (n_region a)) (regionOr (n_region b)) = 0.
Proof.
  unfold nodeLe.
  destruct (regionSortValue a regionIdMap) as [x|],
           (regionSortValue b regionIdMap) as [y|]; try tauto.
  - intros [H1|[E1 N1]] [H2|[E2 N2]]; try lra.
    apply nameLe_antisym; assumption.
  - apply nameLe_antisym.
Qed.

(** Nodes whose names [localeCompare] keeps apart are put in order by
    the sort. *)
Lemma sort_by_nodeLe (nodes l : list ProbeNodeResult) :
  separatedNames nodes ->
  (forall a, In a l -> In a nodes) ->
  StronglySorted (signLe (compareNodes regionIdMap))
    (Array_sort (compareNodes regionIdMap) l)
  /\ StronglySorted (nodeLe regionIdMap)
       (Array_sort (compareNodes regionIdMap) l).
Proof.
  intros Hsep Hl.
  assert (Hs : StronglySorted (signLe (compareNodes regionIdMap))
                 (Array_sort (compareNodes regionIdMap) l)).
  { apply (Array_sort_sorted _ (fun a => In a nodes)).
    - intros a b Ha Hb. unfold signLe.
      rewrite (compareNodes_le a b (Hsep a b Ha Hb)),
              (compareNodes_le b a (Hsep b a Hb Ha)).
      apply nodeLe_total, (Hsep a b Ha Hb).
    - intros a b c Ha Hb Hc. unfold signLe.
      rewrite (compareNodes_le a b (Hsep a b Ha Hb)),
              (compareNodes_le b c (Hsep b c Hb Hc)),
              (compareNodes_le a c (Hsep a c Ha Hc)).
      apply nodeLe_trans.
    - apply Forall_forall, Hl. }
  split; [exact Hs|].
  assert (Hin : Forall (fun a => In a nodes)
                  (Array_sort (compareNodes regionIdMap) l)).
  { apply Forall_forall. intros a Ha. apply Hl.
    apply (Permutation_in _
             (Array_sort_Permutation (compareNodes regionIdMap) l)), Ha. }
  induction Hs as [|x s Hs IH Hx]; [constructor|].
  apply Forall_cons_iff in Hin as [Px Ps].
  constructor; [exact (IH Ps)|].
  rewrite Forall_forall in Hx, Ps |- *. intros y Hy.
  apply (compareNodes_le x y (Hsep x y Px (Ps y Hy))), Hx, Hy.
Qed.

(** When [localeCompare] also keeps the regions of nodes of one name
    apart, the sorted list does not depend on the order of the nodes. *)
Lemma sort_order_independent (nodes nodes' : list ProbeNodeResult) :
  separatedNames nodes ->
  separatedRegions nodes ->
  Permutation nodes nodes' ->
  Array_sort (compareNodes regionIdMap) nodes'
  = Array_sort (compareNodes regionIdMap) nodes.
Proof.
  intros Hsep Hreg Hperm. symmetry.
  apply (sorted_unique (compareNodes regionIdMap)).
  - intros a b Ha Hb Hab Hba.
    apply (Permutation_in _ (Array_sort_Permutation _ nodes)) in Ha, Hb.
    unfold signLe in Hab, Hba.
    apply (compareNodes_le a b (Hsep a b Ha Hb)) in Hab.
    apply (compareNodes_le b a (Hsep b a Hb Ha)) in Hba.
    destruct (nodeLe_antisym a b Hab Hba) as [Hn Hr].
    apply Hreg; assumption.
  - apply (sort_by_nodeLe nodes nodes Hsep). auto.
  - apply (sort_by_nodeLe nodes nodes' Hsep).
    intros a Ha. apply (Permutation_in _ (Permutation_sym Hperm)), Ha.
  - rewrite !Array_sort_Permutation. exact Hperm.
Qed.

End RegionOrder.






(** [compareUnits] is such an order. *)
Lemma compareUnits_refl (a : jsstring) : compareUnits a a = 0.
Proof.
  induction a as [|x a IH]; cbn [compareUnits]; [reflexivity|].
  rewrite N.ltb_irrefl. exact IH.
Qed.

Lemma compareUnits_zero (a b : jsstring) : compareUnits a b = 0 -> a = b.
Proof.
  revert b; induction a as [|x a IH]; intros [|y b]; cbn [compareUnits];
    try discriminate; [reflexivity|].
  destruct (N.ltb_spec x y) as [Hxy|Hxy]; [discriminate|].
  destruct (N.ltb_spec y x) as [Hyx|Hyx]; [discriminate|].
  intros E. f_equal; [lia|apply IH, E].
Qed.

Lemma compareUnits_sym (a b : jsstring) :
  compareUnits a b < 0 <-> 0 < compareUnits b a.
Proof.
  revert b; induction a as [|x a IH]; intros [|y b]; cbn [compareUnits];
    try lia.
  destruct (N.ltb_spec x y), (N.ltb_spec y x); try lia. apply IH.
Qed.

Lemma compareUnits_trans (a b c : jsstring) :
  compareUnits a b <= 0 -> compareUnits b c <= 0 -> compareUnits a c <= 0.
Proof.
  revert b c; induction a as [|x a IH]; intros [|y b] [|z c];
    cbn [compareUnits]; try lia.
  destruct (N.ltb_spec x y), (N.ltb_spec y x), (N.ltb_spec y z),
           (N.ltb_spec z y), (N.ltb_spec x z), (N.ltb_spec z x);
    try lia.
  apply IH.
Qed.

(** A [localeCompare] that compares sort keys by code units is
    consistent. *)
Lemma sortKeys_consistent (RT : Runtime) (key : jsstring -> jsstring) :
  (forall a b, localeCompare a b = compareUnits (key a) (key b)) ->
  LocaleOrder RT.
Proof.
  intros Hkey.
  assert (Hlt : forall a b c,
            compareUnits a b < 0 -> compareUnits b c < 0 ->
            compareUnits a c < 0).
  { intros a b c Hab Hbc.
    assert (H : compareUnits a c <= 0)
      by (apply (compareUnits_trans a b c); lia).
    destruct (Z.eq_dec (compareUnits a c) 0) as [E|E]; [|lia].
    apply compareUnits_zero in E; subst c.
    apply compareUnits_sym in Hab. lia. }
  constructor.
  - intros a. rewrite Hkey. apply compareUnits_refl.
  - intros a b. rewrite !Hkey. intros E.
    apply compareUnits_zero in E. rewrite E. apply compareUnits_refl.
  - intros a b c. rewrite !Hkey. intros E1 E2.
    apply compareUnits_zero in E1, E2. rewrite E1, E2.
    apply compareUnits_refl.
  - intros a b c. rewrite !Hkey. apply Hlt.
  - intros a b c. rewrite !Hkey. intros Hab Hbc.
    apply compareUnits_sym. apply compareUnits_sym in Hab, Hbc.
    exact (Hlt _ _ _ Hbc Hab).
Qed.

Lemma asciiRuntime_locale : LocaleOrder asciiRuntime.
Proof. apply (sortKeys_consistent asciiRuntime (fun s => s)). reflexivity. Qed.

Lemma collatingRuntime_locale : LocaleOrder collatingRuntime.
Proof.
  apply (sortKeys_consistent collatingRuntime collationKey). reflexivity.
Qed.


(** ** The parser hands distinct nodes to the sort *)

Lemma mapSet_In {V} (k : jsstring) (v : V) (m : list (jsstring * V)) :
  forall k' v', In (k', v') (mapSet k v m) ->
    (k' = k /\ v' = v) \/ In (k', v') m.
Proof.
  induction m as [|[k0 v0] m IH]; intros k' v'; cbn [mapSet In].
  - intros [H|[]]. left. injection H as <- <-. split; reflexivity.
  - destruct (streq k k0); cbn [In].
    + intros [H|H]; [left; injection H as <- <-; split; reflexivity|].
      right; right; exact H.
    + intros [H|H]; [right; left; exact H|].
      destruct (IH _ _ H) as [H'|H']; [left; exact H'|right; right; exact H'].
Qed.

Lemma recordLine_names (host : bool) (l : ProbeLine)
    (node : LogEngine.TempNode) :
  LogEngine.t_name (LogEngine.recordLine host l node) = LogEngine.t_name node
  /\ LogEngine.t_region (LogEngine.recordLine host l node)
     = LogEngine.t_region node.
Proof.
  unfold LogEngine.recordLine.
  destruct (streq (pl_level l) (lit "good")); split; reflexivity.
Qed.

Lemma aggregate_wellNamed (host : bool) (lines : list jsstring) :
  forall m, wellNamed m ->
    wellNamed (fold_left (LogEngine.aggregateLine host) lines m).
Proof.
  induction lines as [|line lines IH]; intros m Hm; [exact Hm|].
  cbn [fold_left]. apply IH. unfold LogEngine.aggregateLine.
  destruct (readProbeLine line) as [l|]; [|exact Hm].
  intros k node Hin. apply mapSet_In in Hin as [[-> ->]|Hin]; [|apply Hm, Hin].
  destruct (recordLine_names host l
              match mapGet (pl_id l) m with
              | Some n => n
              | None => LogEngine.newTempNode l
              end) as [-> ->].
  destruct (mapGet (pl_id l) m) as [n|] eqn:E.
  - assert (Hin : In (pl_id l, n) m).
    { clear -E. induction m as [|[k0 v0] m IH]; cbn [mapGet] in E;
        [discriminate|].
      destruct (streq (pl_id l) k0) eqn:E0.
      - apply streq_spec in E0. injection E as ->. left. congruence.
      - right. apply IH, E. }
    apply Hm, Hin.
  - exists (pl_cloudRegion l). split; reflexivity.
Qed.

Lemma parser_nodes_distinct (checkedAt : jsstring) (lines : list jsstring) :
  let nodes := map (fun kv => LogEngine.toResult checkedAt (snd kv))
                 (LogEngine.aggregate lines) in
  forall a b, In a nodes -> In b nodes ->
    n_name a = n_name b ->
    regionOr (n_region a) = regionOr (n_region b) -> a = b.
Proof.
  intros nodes a b Ha Hb Hname Hregion.
  destruct (aggregate_aggregated lines) as [Hn _ _].
  assert (Hw : wellNamed (LogEngine.aggregate lines)).
  { apply aggregate_wellNamed. intros k node []. }
  apply in_map_iff in Ha as ([ka ta] & <- & Ha).
  apply in_map_iff in Hb as ([kb tb] & <- & Hb).
  cbn [snd] in *.
  destruct (Hw _ _ Ha) as (ra & Era & ->).
  destruct (Hw _ _ Hb) as (rb & Erb & ->).
  destruct (toResult_fields checkedAt ta) as (_ & _ & Na & Ra & _).
  destruct (toResult_fields checkedAt tb) as (_ & _ & Nb & Rb & _).
  rewrite Na, Nb in Hname. rewrite Ra, Rb, Era, Erb in Hregion.
  cbn [regionOr] in Hregion. subst rb. rewrite Hname in Ha.
  pose proof (mapGet_In _ _ _ Hn Ha) as Ga.
  pose proof (mapGet_In _ _ _ Hn Hb) as Gb.
  congruence.
Qed.

(** Two diagnostic texts that aggregate to the same nodes, in whatever
    order their lines came, are parsed to the same list when
    [localeCompare] keeps the names, and the regions under one name,
    apart. *)
Lemma parse_order_independent `{RT : Runtime} `{!LocaleOrder RT}
    (stderr1 stderr2 checkedAt : jsstring) (regionIdMap : gmap jsstring Q) :
  let nodes1 := map (fun kv => LogEngine.toResult checkedAt (snd kv))
                  (LogEngine.aggregate (logLines stderr1)) in
  let nodes2 := map (fun kv => LogEngine.toResult checkedAt (snd kv))
                  (LogEngine.aggregate (logLines stderr2)) in
  separatedNames nodes1 ->
  separatedRegions nodes1 ->
  Permutation nodes1 nodes2 ->
  LogEngine.parseNodesFromProbeLog stderr2 checkedAt regionIdMap
  = LogEngine.parseNodesFromProbeLog stderr1 checkedAt regionIdMap.
Proof.
  intros nodes1 nodes2 Hsep Hreg Hperm. unfold LogEngine.parseNodesFromProbeLog.
  apply sort_order_independent; assumption.
Qed.

(** ** The engine run on concrete cycles *)

(** The first case of the test suite: json flags stripped, derp-map
    appended, two healthy nodes in table order, exit code 1 still ok. *)
Example test_suite_healthy_cycle :
  let env :=
    {| DERPPROBE_BIN := None;
       DERPPROBE_ARGS := Some (lit "--json -once --foo bar");
       DERPPROBE_DERP_MAP := Some (lit "/tmp/derp-map.json");
       DERPPROBE_TIMEOUT_MS := None |} in
  let i :=
    LogEngine_run (H := asciiRuntime) exampleTable
      (start (RT := asciiRuntime) env 0 LogEngine.emptyStore)
      [StderrData (lit "good: derp/nyc/us-east/udp: 31ms" ++ [10%N]);
       StderrData (lit "good: derp/sea/us-west/udp: 20ms" ++ [10%N]);
       ChildClose (Some 1) exampleClock] in
  i_command i = lit "derpprobe"
  /\ i_args i
     = [lit "-once"; lit "--foo"; lit "bar"; lit "-derp-map";
        lit "/tmp/derp-map.json"]
  /\ option_map r_ok (result i) = Some true
  /\ option_map (fun r => map n_id (r_nodes r)) (result i)
     = Some [lit "sea-us-west"; lit "nyc-us-east"]
  /\ option_map (fun r => map n_status (r_nodes r)) (result i)
     = Some [healthy; healthy]
  /\ option_map (fun r => map n_lossPct (r_nodes r)) (result i)
     = Some [Some 0%Q; Some 0%Q]
  /\ option_map (fun r => s_total (r_summary r)) (result i) = Some 2.
Proof. vm_compute. repeat split. Qed.

(** The second case: a down node and exit code 2. *)
Example test_suite_down_cycle :
  let env :=
    {| DERPPROBE_BIN := None; DERPPROBE_ARGS := Some (lit "-once");
       DERPPROBE_DERP_MAP := None; DERPPROBE_TIMEOUT_MS := None |} in
  let i :=
    LogEngine_run (H := asciiRuntime) ∅
      (start (RT := asciiRuntime) env 0 LogEngine.emptyStore)
      [StderrData (lit "bad: derp/lhr/eu-west/tcp: i/o timeout" ++ [10%N]);
       ChildClose (Some 2) exampleClock] in
  option_map r_ok (result i) = Some false
  /\ option_map r_error (result i)
     = Some (Some (lit "derpprobe exited with code 2"))
  /\ option_map (fun r => map n_status (r_nodes r)) (result i) = Some [down]
  /\ option_map (fun r => map n_message (r_nodes r)) (result i)
     = Some [Some (lit "tcp: i/o timeout")].
Proof. vm_compute. repeat split. Qed.

(** The third case: the launch fails. *)
Example test_suite_spawn_error :
  let env :=
    {| DERPPROBE_BIN := None; DERPPROBE_ARGS := None;
       DERPPROBE_DERP_MAP := None; DERPPROBE_TIMEOUT_MS := None |} in
  let i :=
    LogEngine_run (H := asciiRuntime) ∅
      (start (RT := asciiRuntime) env 0 LogEngine.emptyStore)
      [ChildError (lit "spawn failed") exampleClock] in
  option_map r_ok (result i) = Some false
  /\ option_map r_error (result i) = Some (Some (lit "spawn failed"))
  /\ option_map r_nodes (result i) = Some []
  /\ outcome i = Some LaunchFailed.
Proof. vm_compute. repeat split. Qed.

(** The fourth case: [-once] with a configured timeout of 10 ms. *)
Example test_suite_timeout :
  let env :=
    {| DERPPROBE_BIN := None; DERPPROBE_ARGS := Some (lit "-once");
       DERPPROBE_DERP_MAP := None;
       DERPPROBE_TIMEOUT_MS := Some (lit "10") |} in
  let i :=
    LogEngine_run (H := asciiRuntime) ∅
      (start (RT := asciiRuntime) env 0 LogEngine.emptyStore)
      [TimerFired {| nowMs := 65000; isoNow := lit "now";
                 createdMs := fun _ => 65000 |}] in
  configuredTimeoutMs (H := asciiRuntime) env = 10%Q
  /\ i_timeoutMs i = 65000%Q
  /\ kills i = [SIGTERM]
  /\ option_map r_error (result i)
     = Some (Some (lit "derpprobe timed out after 65000ms")).
Proof. vm_compute. repeat split. Qed.

(** A udp6 failure of the host-level kind leaves the node healthy in the
    calibrated revision and degraded in the raw-output revision, where the
    cycle is still reported ok. *)
Example ipv6_unavailable_cycle :
  let stderr :=
    lit "good: derp/nyc/us-east/udp: 31ms" ++ [10%N]
    ++ lit "bad: derp/nyc/us-east/udp6: write udp [::]:1->[2a01::1]:3478: "
    ++ lit "sendto: network is unreachable" in
  map n_status
    (LogEngine.parseNodesFromProbeLog (H := asciiRuntime) stderr [] ∅)
  = [healthy]
  /\ map n_status
       (RawEngine.parseNodesFromProbeLog (H := asciiRuntime) stderr [] ∅)
     = [degraded]
  /\ RawEngine.isIpv6OnlyProbeFailure stderr = true.
Proof. vm_compute. repeat split. Qed.

(** Both revisions, from [runDerpprobe], on a cycle that exits with
    code 1 after a host-level udp6 failure: the calibrated revision sees
    only healthy nodes, the raw-output revision sees its leniency rule
    hold. *)
Example runDerpprobe_lenient_cycle :
  let env :=
    {| DERPPROBE_BIN := None; DERPPROBE_ARGS := None;
       DERPPROBE_DERP_MAP := None; DERPPROBE_TIMEOUT_MS := None |} in
  let events :=
    [StderrData (lit "good: derp/nyc/us-east/udp: 31ms" ++ [10%N]);
     StderrData
       (lit "bad: derp/nyc/us-east/udp6: dial udp [::]:0: "
        ++ lit "connect: network is unreachable" ++ [10%N]);
     ChildClose (Some 1) exampleClock] in
  option_map r_ok
    (fst (LogEngine_runDerpprobe (H := asciiRuntime) env ∅ 0
            LogEngine.emptyStore events)) = Some true
  /\ option_map r_ok
       (RawEngine_runDerpprobe (H := asciiRuntime) env ∅ 0 events)
     = Some true.
Proof. vm_compute. repeat split. Qed.

(** ** Witnesses *)

Lemma ok_iff_exit_code_and_leniency_witness :
  let events :=
    [StderrData (lit "bad: derp/lhr/eu-west/tcp: i/o timeout" ++ [10%N])] in
  existsb isTerminal events = false
  /\ outcome
       (LogEngine_run (H := asciiRuntime) ∅
          (spawnWith (lit "derpprobe") [lit "-once"] 75000%Q 0
             LogEngine.emptyStore)
          (events ++ [ChildClose (Some 2) exampleClock]))
     = Some Completed.
Proof.
  intros events. split; [reflexivity|].
  exact (proj1 (proj1 (ok_iff_exit_code_and_leniency (RT := asciiRuntime) ∅
                         (lit "derpprobe") [lit "-once"] 75000%Q 0 events
                         (Some 2) exampleClock eq_refl)
                  LogEngine.emptyStore)).
Defined.



Lemma udp_latency_extraction_witness :
  let l := {| pl_level := lit "good"; pl_shortRegion := lit "nyc";
              pl_cloudRegion := lit "us-east"; pl_probeType := lit "udp";
              pl_resultText := lit "845" ++ [181; 115]%N |} in
  decimalValue (lit "845") [] = Fin 845
  /\ toDouble (845 / 1000)%Q = Fin (3805541685128069 # 4503599627370496)%Q
  /\ exists latency,
       LogEngine.t_udpLatencyMs
         (LogEngine.recordLine false l (LogEngine.newTempNode l))
       = Some latency
       /\ (latency == 84 # 100)%Q.
Proof.
  intros l.
  assert (Hv : decimalValue (lit "845") [] = Fin 845)
    by (vm_compute; reflexivity).
  assert (Hq : toDouble (845 / 1000)%Q
               = Fin (3805541685128069 # 4503599627370496)%Q)
    by (vm_compute; reflexivity).
  assert (Hu : In [181; 115]%N microUnits)
    by (do 4 right; left; reflexivity).
  assert (Hm : matchesAt (lit "845" ++ [181; 115]%N) (lit "845") []
                 [181; 115]%N).
  { exists [], []. cbn [numberText app].
    split; [reflexivity|]. split; [discriminate|].
    split; [reflexivity|]. split; [reflexivity|]. split; [reflexivity|].
    split; [|exact I]. apply in_app_iff. right. exact Hu. }
  assert (Hpre : unmatched
                   (fun s => exists ds' fs' unit', matchesAt s ds' fs' unit')
                   [] (lit "845" ++ [181; 115]%N)).
  { intros p1 p2 E Hne. destruct p1; destruct p2; try discriminate E.
    contradiction. }
  split; [exact Hv|]. split; [exact Hq|].
  destruct (proj1 (udp_latency_extraction l [] (lit "845" ++ [181; 115]%N)
                     (lit "845") [] 845%Q eq_refl eq_refl Hv)
              false (LogEngine.newTempNode l) [181; 115]%N _
              eq_refl Hm Hpre Hq)
    as (latency & _ & Hl & _ & Hmicro).
  exists latency. split; [exact Hl|].
  destruct (Hmicro Hu) as [-> _]. vm_compute. reflexivity.
Defined.


(** ** Argument assembly: tokens, the derp-map argument, the timeout *)

Lemma dropWhile_idem {A} (p : A -> bool) (l : list A) :
  dropWhile p (dropWhile p l) = dropWhile p l.
Proof.
  induction l as [|x l IH]; [reflexivity|]. cbn [dropWhile].
  destruct (p x) eqn:E; [exact IH|]. cbn [dropWhile]. rewrite E. reflexivity.
Qed.

Lemma dropWhile_snoc {A} (p : A -> bool) (l : list A) (c : A) :
  p c = false -> dropWhile p (l ++ [c]) = dropWhile p l ++ [c].
Proof.
  intros Hc. induction l as [|x l IH]; cbn [dropWhile app].
  - rewrite Hc. reflexivity.
  - destruct (p x); [exact IH|reflexivity].
Qed.

Lemma dropWhile_In {A} (p : A -> bool) (l : list A) (x : A) :
  In x (dropWhile p l) -> In x l.
Proof.
  induction l as [|y l IH]; cbn [dropWhile]; [tauto|].
  destruct (p y); [|tauto]. intros H. right. exact (IH H).
Qed.

Lemma trimEnd_cons (c : N) (s : jsstring) :
  isWhiteSpace c = false -> trimEnd (c :: s) = c :: trimEnd s.
Proof.
  intros Hc. unfold trimEnd. cbn [rev].
  rewrite (dropWhile_snoc _ _ _ Hc), rev_app_distr. reflexivity.
Qed.

Lemma trimEnd_idem (s : jsstring) : trimEnd (trimEnd s) = trimEnd s.
Proof. unfold trimEnd. rewrite rev_involutive, dropWhile_idem. reflexivity. Qed.

Lemma trimStart_trimEnd (s : jsstring) :
  trimStart (trimEnd (trimStart s)) = trimEnd (trimStart s).
Proof.
  unfold trimStart at 2 3.
  induction s as [|c s IH]; [reflexivity|]. cbn [dropWhile].
  destruct (isWhiteSpace c) eqn:E; [exact IH|].
  rewrite (trimEnd_cons _ _ E). unfold trimStart. cbn [dropWhile].
  rewrite E. reflexivity.
Qed.

Lemma trim_idem (s : jsstring) : trim (trim s) = trim s.
Proof.
  unfold trim. rewrite trimStart_trimEnd. apply trimEnd_idem.
Qed.

Lemma trim_In (s : jsstring) (c : N) : In c (trim s) -> In c s.
Proof.
  unfold trim, trimEnd, trimStart. intros H.
  apply in_rev, dropWhile_In, in_rev, dropWhile_In in H. exact H.
Qed.

(** A string that [trim] leaves alone and that is not empty starts with a
    unit that is no white space. *)
Lemma trimmed_head (c : N) (s : jsstring) :
  trim (c :: s) = c :: s -> isWhiteSpace c = false.
Proof.
  intros H. destruct (isWhiteSpace c) eqn:E; [|reflexivity]. exfalso.
  assert (Hlen : (length (trim (c :: s)) <= length s)%nat).
  { unfold trim, trimEnd, trimStart. cbn [dropWhile]. rewrite E.
    rewrite length_rev.
    assert (Hd : forall (l : jsstring),
               (length (dropWhile isWhiteSpace l) <= length l)%nat).
    { induction l as [|x l IH]; cbn [dropWhile length]; [lia|].
      destruct (isWhiteSpace x); cbn [length]; lia. }
    etransitivity; [apply Hd|]. rewrite length_rev. apply Hd. }
  rewrite H in Hlen. cbn [length] in Hlen. lia.
Qed.

Lemma split_In (sep : N) (s w : jsstring) :
  In w (split sep s) -> ~ In sep w.
Proof.
  revert w. induction s as [|c s IH]; intros w; cbn [split].
  - intros [<-|[]]. intros [].
  - destruct (N.eqb c sep) eqn:E.
    + intros [<-|H]; [intros []|exact (IH _ H)].
    + destruct (split sep s) as [|w0 ws] eqn:Es.
      * intros [<-|[]]. intros [->|[]]. rewrite N.eqb_refl in E. discriminate.
      * intros [<-|H].
        -- intros [->|Hin]; [rewrite N.eqb_refl in E; discriminate|].
           exact (IH w0 (or_introl eq_refl) Hin).
        -- exact (IH w (or_intror H)).
Qed.

Lemma split_whole (sep : N) (s : jsstring) :
  ~ In sep s -> split sep s = [s].
Proof.
  induction s as [|c s IH]; intros H; cbn [split]; [reflexivity|].
  destruct (N.eqb c sep) eqn:E.
  - apply N.eqb_eq in E. exfalso. apply H. left. exact E.
  - rewrite IH; [reflexivity|]. intros Hin. apply H. right. exact Hin.
Qed.

Lemma split_app (sep : N) (a b : jsstring) :
  ~ In sep a -> split sep (a ++ sep :: b) = a :: split sep b.
Proof.
  induction a as [|c a IH]; intros H; cbn [split app].
  - rewrite N.eqb_refl. reflexivity.
  - destruct (N.eqb c sep) eqn:E.
    + apply N.eqb_eq in E. exfalso. apply H. left. exact E.
    + rewrite IH; [reflexivity|]. intros Hin. apply H. right. exact Hin.
Qed.



Lemma split_join (tokens : list jsstring) :
  tokens <> [] -> Forall (fun t => ~ In 32%N t) tokens ->
  split 32 (join [32%N] tokens) = tokens.
Proof.
  induction tokens as [|t ts IH]; intros Hne Hall; [congruence|].
  inversion Hall as [|? ? Ht Hts]; subst.
  destruct ts as [|t2 ts].
  - cbn [join]. apply split_whole. exact Ht.
  - change (join [32%N] (t :: t2 :: ts))
      with (t ++ 32%N :: join [32%N] (t2 :: ts)).
    rewrite (split_app _ _ _ Ht), IH; [reflexivity|discriminate|exact Hts].
Qed.

(** X2. Reading back what was written: for a list of
    plain tokens that is not empty, [parseArgs] of the tokens joined by
    single spaces is the list itself, in order. *)
Theorem parseArgs_join (tokens : list jsstring) :
  tokens <> [] -> Forall plainToken tokens ->
  parseArgs (join (lit " ") tokens) = tokens.
Proof.
  intros Hne Hall. change (lit " ") with [32%N].
  unfold parseArgs.
  assert (Hsplit : split 32 (join [32%N] tokens) = tokens).
  { apply split_join; [exact Hne|].
    eapply Forall_impl; [|exact Hall]. intros t (_ & _ & _ & H). exact H. }
  assert (Htrim : nonEmpty (trim (join [32%N] tokens)) = true).
  { destruct tokens as [|t ts]; [congruence|].
    inversion Hall as [|? ? (Ht & _ & Htr & _) _]; subst.
    destruct t as [|c t]; [congruence|].
    pose proof (trimmed_head _ _ Htr) as Hc.
    assert (Hj : exists rest, join [32%N] ((c :: t) :: ts) = c :: rest).
    { destruct ts; cbn [join app]; eauto. }
    destruct Hj as (rest & ->).
    unfold trim, trimStart. cbn [dropWhile]. rewrite Hc.
    rewrite (trimEnd_cons _ _ Hc). reflexivity. }
  rewrite Htrim. cbn [negb]. rewrite Hsplit.
  clear Hsplit Htrim Hne.
  induction Hall as [|t ts (Ht & Hjson & Htr & _) _ IH]; [reflexivity|].
  cbn [map filter]. rewrite Htr.
  destruct t as [|c t]; [congruence|]. cbn [nonEmpty filter].
  rewrite Hjson. cbn [negb]. f_equal. exact IH.
Qed.

Lemma parseArgs_join_witness :
  parseArgs (join (lit " ") [lit "-once"; lit "--foo"; lit "bar"])
  = [lit "-once"; lit "--foo"; lit "bar"].
Proof.
  apply parseArgs_join; [discriminate|].
  repeat constructor; try discriminate; try reflexivity;
    unfold lit; cbn; intros H;
    repeat (destruct H as [H|H]; [discriminate|]); exact H.
Defined.

Lemma hasDerpMapFlag_app (a b : list jsstring) :
  hasDerpMapFlag (a ++ b) = hasDerpMapFlag a || hasDerpMapFlag b.
Proof.
  induction a as [|t a IH]; cbn [hasDerpMapFlag app]; [reflexivity|].
  destruct (streq t (lit "-derp-map") || streq t (lit "--derp-map"));
    [reflexivity|].
  destruct (startsWith (lit "-derp-map=") t
            || startsWith (lit "--derp-map=") t); [reflexivity|exact IH].
Qed.

(** X3. [appendDerpMapArg] keeps the given
    arguments in front and in order; it leaves a list alone that already
    names a derp map, or when no location is configured; with a location
    that is not blank the result always names a derp map; and applying it
    a second time changes nothing, so the flag is never passed twice. *)
Theorem appendDerpMapArg_once (args : list jsstring)
    (derpMap : option jsstring) :
  (exists extra, appendDerpMapArg args derpMap = args ++ extra)
  /\ (hasDerpMapFlag args = true -> appendDerpMapArg args derpMap = args)
  /\ (derpMap = None -> appendDerpMapArg args derpMap = args)
  /\ (forall m, derpMap = Some m ->
        (trim m = [] -> appendDerpMapArg args derpMap = args)
        /\ (trim m <> [] ->
            hasDerpMapFlag (appendDerpMapArg args derpMap) = true
            /\ (hasDerpMapFlag args = false ->
                appendDerpMapArg args derpMap
                = args ++ [lit "-derp-map"; trim m])))
  /\ appendDerpMapArg (appendDerpMapArg args derpMap) derpMap
     = appendDerpMapArg args derpMap.
Proof.
  assert (Hflag : forall v,
            hasDerpMapFlag (args ++ [lit "-derp-map"; v]) = true).
  { intros v. rewrite hasDerpMapFlag_app. apply orb_true_r. }
  unfold appendDerpMapArg.
  destruct derpMap as [m|].
  2:{ repeat split; try reflexivity; try discriminate.
      exists []. symmetry. apply app_nil_r. }
  assert (Hc : negb (nonEmpty m) || negb (nonEmpty (trim m))
               = match trim m with [] => true | _ => false end).
  { destruct m; [reflexivity|]. cbn [nonEmpty negb orb].
    destruct (trim _); reflexivity. }
  rewrite Hc. clear Hc.
  destruct (trim m) as [|c t] eqn:Etrim; cbv iota.
  - split; [exists []; symmetry; apply app_nil_r|].
    split; [reflexivity|]. split; [reflexivity|]. split; [|reflexivity].
    intros m' [= <-]. split; [reflexivity|]. rewrite Etrim. congruence.
  - destruct (hasDerpMapFlag args) eqn:Ehas.
    + rewrite Ehas.
      split; [exists []; symmetry; apply app_nil_r|].
      split; [reflexivity|]. split; [reflexivity|]. split; [|reflexivity].
      intros m' [= <-]. rewrite Etrim. split; [discriminate|]. intros _.
      split; [reflexivity|discriminate].
    + rewrite Hflag.
      split; [eexists; reflexivity|].
      split; [discriminate|]. split; [discriminate|]. split; [|reflexivity].
      intros m' [= <-]. rewrite Etrim. split; [discriminate|]. intros _.
      split; [reflexivity|reflexivity].
Qed.

Lemma Qltb_false (a b : Q) : Qltb a b = false <-> (b <= a)%Q.
Proof.
  unfold Qltb. rewrite negb_false_iff. apply Qle_bool_iff.
Qed.

(** X4. The effective timeout is never below the
    configured one; it differs from it only under a single-shot flag and
    a configured value below 65000 ms, and resolving it again changes
    nothing.  With [DERPPROBE_TIMEOUT_MS] unset, or set to a text that is
    no finite number, the configured timeout is 75000 ms, and so is the
    effective one whatever the arguments. *)
Theorem timeout_never_lowered `{Runtime} :
  (forall base args,
     (base <= resolveTimeoutMs base args)%Q
     /\ (hasOnceFlag args = false -> resolveTimeoutMs base args = base)
     /\ ((65000 <= base)%Q -> resolveTimeoutMs base args = base)
     /\ resolveTimeoutMs (resolveTimeoutMs base args) args
        = resolveTimeoutMs base args)
  /\ (forall env,
        (DERPPROBE_TIMEOUT_MS env = None
         \/ exists text, DERPPROBE_TIMEOUT_MS env = Some text
                         /\ stringToNumber text = NonFinite) ->
        configuredTimeoutMs env = 75000%Q /\ timeoutMsOf env = 75000%Q).
Proof.
  split.
  - intros base args. unfold resolveTimeoutMs.
    destruct (hasOnceFlag args); cbn [andb];
      [|repeat split; try reflexivity; apply Qle_refl].
    destruct (Qltb base MIN_ONCE_TIMEOUT_MS) eqn:E.
    + apply Qltb_lt in E. repeat split.
      * apply Qlt_le_weak. exact E.
      * discriminate.
      * intros Hle. exfalso. exact (Qlt_not_le _ _ E Hle).
    + rewrite E. repeat split; try reflexivity. apply Qle_refl.
  - intros env Henv.
    assert (Hc : configuredTimeoutMs env = 75000%Q).
    { unfold configuredTimeoutMs.
      destruct Henv as [->|(text & -> & Htext)]; cbn [option_map toNumber];
        [reflexivity|]. rewrite Htext. reflexivity. }
    split; [exact Hc|]. unfold timeoutMsOf, resolveTimeoutMs. rewrite Hc.
    destruct (hasOnceFlag (argsOf env)); reflexivity.
Qed.

(** ** Summary *)










(** ** What every response carries *)

Lemma exitError_None (ok : bool) (code : option Z) :
  ok = true <-> exitError ok code = None.
Proof.
  unfold exitError. destruct ok; cbn [negb]; [tauto|].
  destruct code; split; discriminate.
Qed.

Lemma LogEngine_complete_coherent `{Runtime} regionIdMap startedAt st stderr
    code now createdAt checkedAt :
  coherent (snd (LogEngine.complete regionIdMap startedAt st stderr code
                   now createdAt checkedAt)).
Proof.
  unfold LogEngine.complete.
  destruct (LogEngine.updateNodeLossFromHistory _ _ _ _) as [st' nodes].
  cbn [snd]. unfold coherent. cbn [r_summary r_nodes r_ok r_error].
  split; [reflexivity|]. split; [reflexivity|]. apply exitError_None.
Qed.

Lemma RawEngine_complete_coherent `{Runtime} regionIdMap startedAt stdout
    stderr code now checkedAt :
  coherent (RawEngine.complete regionIdMap startedAt stdout stderr code
              now checkedAt).
Proof.
  unfold RawEngine.complete, coherent. cbn [r_summary r_nodes r_ok r_error].
  split; [reflexivity|]. split; [reflexivity|]. apply exitError_None.
Qed.

Section SupervisorEffects.

Context `{RT : Runtime} {S : Type}.
Variable onClose : Z -> S -> jsstring -> jsstring -> option Z -> Clock
                   -> S * ProbeResponse.
Variable pipesStdout : bool.

Notation sstep := (step onClose pipesStdout).
Notation srun := (run onClose pipesStdout).

Hypothesis onClose_coherent :
  forall startedAt st stdout stderr code clock,
    coherent (snd (onClose startedAt st stdout stderr code clock)).

Lemma step_coherent (i : Invocation S) (e : Event) :
  Forall (fun p => coherent (snd p)) (resolves i) ->
  Forall (fun p => coherent (snd p)) (resolves (sstep i e)).
Proof.
  assert (Hfail : forall clock error, coherent (failure i clock error)).
  { intros clock error. unfold coherent, failure.
    cbn [r_summary r_nodes r_ok r_error].
    split; [reflexivity|]. split; [reflexivity|]. split; discriminate. }
  intros Hall. destruct e; cbn [step].
  - destruct (timerPending i); [|exact Hall]. unfold onTimeout.
    destruct (settled i); cbn [resolves]; [exact Hall|].
    apply Forall_app. split; [exact Hall|]. constructor; [apply Hfail|constructor].
  - destruct pipesStdout; exact Hall.
  - exact Hall.
  - unfold onError. destruct (settled i); cbn [resolves]; [exact Hall|].
    apply Forall_app. split; [exact Hall|]. constructor; [apply Hfail|constructor].
  - unfold onCloseEvent. destruct (settled i); [exact Hall|].
    pose proof (onClose_coherent (i_startedAt i) (store i) (stdoutText i)
                  (stderrText i) code clock) as Hc.
    destruct (onClose _ _ _ _ _ _) as [st' r]. cbn [resolves].
    apply Forall_app. split; [exact Hall|]. constructor; [exact Hc|constructor].
Qed.

Lemma run_coherent (events : list Event) :
  forall i : Invocation S,
    Forall (fun p => coherent (snd p)) (resolves i) ->
    forall r, result (srun i events) = Some r -> coherent r.
Proof.
  induction events as [|e events IH]; intros i Hall r.
  - cbn [run fold_left]. unfold result.
    destruct (resolves i) as [|[o r0] rest]; [discriminate|].
    intros [= <-]. inversion Hall; subst. assumption.
  - rewrite run_cons. apply IH. apply step_coherent. exact Hall.
Qed.

End SupervisorEffects.

(** X6. Whichever way a cycle ends
    (completion, timeout, launch failure) and in both revisions, the
    response that [runDerpprobe] resolves with has a summary that is the
    summary of its own node list, with [total] the number of nodes, and
    carries an [error] text exactly when [ok] is false. *)
Theorem response_summary_and_error `{Runtime} (regionIdMap : gmap jsstring Q)
    command args timeoutMs startedAt (events : list Event) :
  (forall st r,
     result (LogEngine_run regionIdMap
               (spawnWith command args timeoutMs startedAt st) events)
     = Some r ->
     coherent r)
  /\ (forall r,
        result (RawEngine_run regionIdMap
                  (spawnWith command args timeoutMs startedAt tt) events)
        = Some r ->
        coherent r).
Proof.
  split.
  - intros st r. unfold LogEngine_run. apply run_coherent; [|constructor].
    intros. apply LogEngine_complete_coherent.
  - intros r. unfold RawEngine_run. apply run_coherent; [|constructor].
    intros. apply RawEngine_complete_coherent.
Qed.

Section SupervisorOutput.

Context `{RT : Runtime} {S : Type}.
Variable onClose : Z -> S -> jsstring -> jsstring -> option Z -> Clock
                   -> S * ProbeResponse.
Variable pipesStdout : bool.

Notation sstep := (step onClose pipesStdout).
Notation srun := (run onClose pipesStdout).

(** Output events only append to the two captured texts. *)
Lemma run_output (data : list Event) :
  existsb isTerminal data = false ->
  forall i : Invocation S,
    srun i data
    = {| i_command := i_command i; i_args := i_args i;
         i_timeoutMs := i_timeoutMs i; i_startedAt := i_startedAt i;
         timerPending := timerPending i; settled := settled i;
         stdoutText :=
           stdoutText i
           ++ (if pipesStdout then capturedStdout data else []);
         stderrText := stderrText i ++ capturedStderr data;
         kills := kills i; resolves := resolves i; store := store i |}.
Proof.
  induction data as [|e data IH]; intros H i.
  - cbn [run fold_left capturedStdout capturedStderr flat_map].
    destruct pipesStdout; rewrite !app_nil_r; destruct i; reflexivity.
  - cbn [existsb] in H. apply orb_false_iff in H as [He Hes].
    rewrite run_cons, (IH Hes).
    destruct e; try discriminate;
      cbn [step capturedStdout capturedStderr flat_map].
    + destruct pipesStdout; [|reflexivity].
      cbn [onData i_command i_args i_timeoutMs i_startedAt timerPending
             settled stdoutText stderrText kills resolves store].
      rewrite <- app_assoc. reflexivity.
    + cbn [onData i_command i_args i_timeoutMs i_startedAt timerPending
             settled stdoutText stderrText kills resolves store].
      rewrite <- app_assoc. reflexivity.
Qed.

(** X7. How the child's output arrives does
    not matter: two runs whose output events, up to the same later
    events, carry the same diagnostic text when concatenated (and the
    same standard output, where it is listened to) end in the same state
    with the same response, however the text was cut into chunks and
    however the two streams were interleaved. *)
Theorem output_chunking_irrelevant (data1 data2 later : list Event)
    (i : Invocation S) :
  existsb isTerminal data1 = false ->
  existsb isTerminal data2 = false ->
  capturedStderr data1 = capturedStderr data2 ->
  (pipesStdout = true -> capturedStdout data1 = capturedStdout data2) ->
  srun i (data1 ++ later) = srun i (data2 ++ later).
Proof.
  intros H1 H2 Herr Hout. rewrite !run_app. f_equal.
  rewrite (run_output data1 H1), (run_output data2 H2), Herr.
  destruct pipesStdout; [rewrite (Hout eq_refl)|]; reflexivity.
Qed.

Lemma step_effects (startedAt : Z) (st0 : S) (i : Invocation S) (e : Event) :
  effectsOk onClose startedAt st0 i ->
  effectsOk onClose startedAt st0 (sstep i e).
Proof.
  unfold effectsOk. intros [Hstart H].
  destruct (resolves i) as [|[o r] [|]] eqn:Eres; [| |destruct H].
  - destruct H as (Hs & Ht & Hk & Hst).
    destruct e; cbn [step].
    + rewrite Ht. unfold onTimeout. rewrite Hs.
      cbn [i_startedAt resolves settled timerPending kills store].
      rewrite Eres, Hk. cbn [app]. auto.
    + destruct pipesStdout; [|rewrite Eres; auto].
      cbn [onData i_startedAt resolves settled timerPending kills store].
      rewrite Eres. auto.
    + cbn [onData i_startedAt resolves settled timerPending kills store].
      rewrite Eres. auto.
    + unfold onError. rewrite Hs.
      cbn [i_startedAt resolves settled timerPending kills store].
      rewrite Eres. cbn [app]. auto.
    + unfold onCloseEvent. rewrite Hs.
      destruct (onClose _ _ _ _ _ _) as [st' r] eqn:Eclose.
      cbn [i_startedAt resolves settled timerPending kills store].
      rewrite Eres. cbn [app]. repeat split; try assumption.
      exists (stdoutText i), (stderrText i), code, clock.
      rewrite <- Hstart, <- Hst, Eclose. reflexivity.
  - destruct H as (Hs & Ht & Ho).
    assert (Hsame : sstep i e = i \/
                    exists toStdout chunk, sstep i e = onData i toStdout chunk).
    { destruct e; cbn [step].
      - rewrite Ht. left; reflexivity.
      - destruct pipesStdout; [right; eauto|left; reflexivity].
      - right; eauto.
      - unfold onError. rewrite Hs. left; reflexivity.
      - unfold onCloseEvent. rewrite Hs. left; reflexivity. }
    destruct Hsame as [->|(b & chunk & ->)].
    + rewrite Eres. auto.
    + cbn [onData i_startedAt resolves settled timerPending kills store].
      rewrite Eres. auto.
Qed.

Lemma run_effects (startedAt : Z) (st0 : S) (events : list Event) :
  forall i : Invocation S,
    effectsOk onClose startedAt st0 i ->
    effectsOk onClose startedAt st0 (srun i events).
Proof.
  induction events as [|e events IH]; intros i Hi; [exact Hi|].
  rewrite run_cons. apply IH, step_effects, Hi.
Qed.

Lemma spawn_effects command args timeoutMs startedAt (st : S) :
  effectsOk onClose startedAt st
    (spawnWith command args timeoutMs startedAt st).
Proof. unfold effectsOk. cbn. auto. Qed.

(** X8. The supervisor signals the child
    exactly when the cycle timed out, and then once, with SIGTERM: a
    child that closed or failed to start is never signalled, whatever
    events follow. *)
Theorem signal_only_on_timeout command args timeoutMs startedAt (st : S)
    (events : list Event) :
  let i := srun (spawnWith command args timeoutMs startedAt st) events in
  kills i = match outcome i with
            | Some TimedOut => [SIGTERM]
            | _ => []
            end.
Proof.
  cbn zeta.
  pose proof (run_effects startedAt st events _
                (spawn_effects command args timeoutMs startedAt st)) as [_ H].
  unfold outcome.
  destruct (resolves (srun _ events)) as [|[o r] [|]]; [| |destruct H].
  - tauto.
  - destruct H as (_ & _ & Ho). destruct o; tauto.
Qed.

(** X9. The process-wide state (the probe
    history and the calibrators of the calibrated revision) is the one
    the cycle started with while the promise is open and after a timeout
    or a launch failure: such a cycle records nothing.  After a
    completion it is the state the [close] handler computed from the
    initial one, once. *)
Theorem state_kept_unless_completed command args timeoutMs startedAt (st : S)
    (events : list Event) :
  let i := srun (spawnWith command args timeoutMs startedAt st) events in
  match outcome i with
  | Some Completed =>
      exists stdout stderr code clock,
        store i = fst (onClose startedAt st stdout stderr code clock)
  | _ => store i = st
  end.
Proof.
  cbn zeta.
  pose proof (run_effects startedAt st events _
                (spawn_effects command args timeoutMs startedAt st)) as [_ H].
  unfold outcome.
  destruct (resolves (srun _ events)) as [|[o r] [|]]; [| |destruct H].
  - tauto.
  - destruct H as (_ & _ & Ho). destruct o; tauto.
Qed.

End SupervisorOutput.

Lemma output_chunking_irrelevant_witness :
  let onClose := LogEngine_onClose (H := asciiRuntime) ∅ in
  let i := spawnWith (lit "derpprobe") [lit "-once"] 75000%Q 0
             LogEngine.emptyStore in
  let line := lit "good: derp/nyc/us-east/udp: 31ms" in
  let later := [ChildClose (Some 0) {| nowMs := 5; isoNow := lit "now";
                 createdMs := fun _ => 5 |}] in
  run (RT := asciiRuntime) onClose false i
    ([StderrData (lit "good: derp/nyc/"); StdoutData (lit "noise");
      StderrData (lit "us-east/udp: 31ms")] ++ later)
  = run (RT := asciiRuntime) onClose false i ([StderrData line] ++ later).
Proof.
  cbn zeta.
  apply (output_chunking_irrelevant (RT := asciiRuntime)
           (LogEngine_onClose (H := asciiRuntime) ∅) false);
    [reflexivity|reflexivity|reflexivity|discriminate].
Defined.

(** ** Smoothing: what a cycle reports and what it touches *)

Lemma lossPctOf_counts (h : list LogEngine.NodeProbeSample) :
  LogEngine.lossPctOf h
  = inject_Z (lossOfCounts (LogEngine.successCount h) (length h)).
Proof. reflexivity. Qed.

Lemma lossInRange_window :
  forallb (fun n => forallb (lossInRange n) (seq 0 (S n))) (seq 1 10) = true.
Proof. vm_compute. reflexivity. Qed.

Lemma lossOfCounts_range (n s : nat) :
  (1 <= n <= 10)%nat -> (s <= n)%nat ->
  0 <= lossOfCounts s n <= 100
  /\ (lossOfCounts s n = 0 <-> s = n)
  /\ (lossOfCounts s n = 100 <-> s = 0%nat).
Proof.
  intros Hn Hs.
  pose proof lossInRange_window as H. rewrite forallb_forall in H.
  specialize (H n ltac:(apply in_seq; lia)). rewrite forallb_forall in H.
  specialize (H s ltac:(apply in_seq; lia)).
  unfold lossInRange in H. cbv zeta in H.
  apply andb_true_iff in H as [H H4]. apply andb_true_iff in H as [H H3].
  apply andb_true_iff in H as [H1 H2].
  apply Z.leb_le in H1, H2. apply Bool.eqb_prop in H3, H4.
  split; [lia|]. split.
  - rewrite <- Z.eqb_eq, H3. apply Nat.eqb_eq.
  - rewrite <- Z.eqb_eq, H4. apply Nat.eqb_eq.
Qed.

Lemma successCount_le (h : list LogEngine.NodeProbeSample) :
  (LogEngine.successCount h <= length h)%nat.
Proof. unfold LogEngine.successCount. apply filter_length_le. Qed.

Lemma successCount_all (h : list LogEngine.NodeProbeSample) :
  LogEngine.successCount h = length h
  <-> Forall (fun s => LogEngine.success s = true) h.
Proof.
  unfold LogEngine.successCount.
  induction h as [|x h IH]; cbn [filter length].
  - split; [constructor|reflexivity].
  - pose proof (filter_length_le LogEngine.success h) as Hle.
    destruct (LogEngine.success x) eqn:E; cbn [length].
    + split.
      * intros H. constructor; [exact E|]. apply IH. lia.
      * intros H. inversion H; subst. f_equal. apply IH. assumption.
    + split; [lia|]. intros H. inversion H; congruence.
Qed.

Lemma successCount_none (h : list LogEngine.NodeProbeSample) :
  LogEngine.successCount h = 0%nat
  <-> Forall (fun s => LogEngine.success s = false) h.
Proof.
  unfold LogEngine.successCount.
  induction h as [|x h IH]; cbn [filter length].
  - split; [constructor|reflexivity].
  - destruct (LogEngine.success x) eqn:E; cbn [length].
    + split; [discriminate|]. intros H. inversion H; congruence.
    + rewrite IH. split.
      * intros H. constructor; assumption.
      * intros H. inversion H; assumption.
Qed.

Lemma pushSample_nonempty (h : list LogEngine.NodeProbeSample) s :
  (1 <= length (LogEngine.pushSample h s))%nat.
Proof.
  rewrite pushSample_suffix, length_skipn, length_app. cbn [length].
  unfold PROBE_WINDOW_SIZE. lia.
Qed.

Lemma avgLatencyOf_None (h : list LogEngine.NodeProbeSample) :
  LogEngine.avgLatencyOf h = None
  <-> Forall (fun s => LogEngine.latencyMs s = None) h.
Proof.
  unfold LogEngine.avgLatencyOf.
  assert (E : LogEngine.latencySamplesOf h = []
              <-> Forall (fun s => LogEngine.latencyMs s = None) h).
  { unfold LogEngine.latencySamplesOf.
    induction h as [|x h IH]; cbn [flat_map].
    - split; [constructor|reflexivity].
    - destruct (LogEngine.latencyMs x) eqn:El; cbn [app].
      + split; [discriminate|]. intros H. inversion H; congruence.
      + rewrite IH. split.
        * intros H. constructor; assumption.
        * intros H. inversion H; assumption. }
  rewrite <- E. destruct (LogEngine.latencySamplesOf h); split; congruence.
Qed.

Lemma toFixed2_nonneg (x : Q) :
  (0 <= x)%Q -> (0 <= toFixed2 x)%Q /\ exists k : Z, (toFixed2 x == k # 100)%Q.
Proof.
  intros Hx. destruct (toFixed2_rounds x Hx) as (k & Hk & Hlo & _).
  split; [|exists k; exact Hk].
  rewrite Hk in *.
  assert (Hk0 : 0 <= k).
  { destruct (Z_lt_le_dec k 0) as [Hneg|]; [|assumption]. exfalso.
    assert (H : (k # 100 <= -1 # 100)%Q).
    { unfold Qle. cbn. lia. }
    lra. }
  unfold Qle. cbn. lia.
Qed.

Lemma updateNode_fields (now : Z) (createdAt : jsstring -> Z)
    (st : LogEngine.Store)
    (node : ProbeNodeResult) :
  exists latency,
    let window :=
      LogEngine.pushSample
        (match LogEngine.nodeProbeHistory st !! n_id node with
         | Some h => h
         | None => []
         end)
        {| LogEngine.success := LogEngine.isSuccess (n_status node);
           LogEngine.latencyMs := latency |} in
    snd (LogEngine.updateNode now createdAt st node)
    = {| n_id := n_id node; n_name := n_name node;
         n_region := n_region node; n_latencyMs := latency;
         n_lossPct := Some (LogEngine.lossPctOf window);
         n_avgLatencyMs := LogEngine.avgLatencyOf window;
         n_status := n_status node; n_message := n_message node;
         n_checkedAt := n_checkedAt node; n_raw := n_raw node |}
    /\ LogEngine.nodeProbeHistory (fst (LogEngine.updateNode now createdAt st node))
       = <[n_id node := window]> (LogEngine.nodeProbeHistory st)
    /\ match n_latencyMs node with
       | None =>
           latency = None
           /\ LogEngine.nodeLatencyCalibrators
                (fst (LogEngine.updateNode now createdAt st node))
              = LogEngine.nodeLatencyCalibrators st
       | Some l =>
           exists c,
             latency = Some (snd (LogEngine.calibrate c l now))
       end.
Proof.
  unfold LogEngine.updateNode.
  destruct (n_latencyMs node) as [l|].
  - destruct (LogEngine.getNodeLatencyCalibrator _ _ _) as [cs c].
    destruct (LogEngine.calibrate c l now) as [c' v] eqn:Ecal.
    exists (Some v). cbv zeta. split; [reflexivity|]. split; [reflexivity|].
    exists c. rewrite Ecal. reflexivity.
  - exists None. cbv zeta. split; [reflexivity|]. split; [reflexivity|].
    split; reflexivity.
Qed.

Lemma calibrate_nonneg (c : LogEngine.Calibrator) (r : Q) (t : Z) :
  (0 <= snd (LogEngine.calibrate c r t))%Q
  /\ exists k : Z, (snd (LogEngine.calibrate c r t) == k # 100)%Q.
Proof.
  rewrite calibrate_result. apply toFixed2_nonneg. apply Q.le_max_l.
Qed.

Lemma updateNode_inRange (now : Z) (createdAt : jsstring -> Z)
    (st : LogEngine.Store)
    (node : ProbeNodeResult) :
  let st' := fst (LogEngine.updateNode now createdAt st node) in
  let node' := snd (LogEngine.updateNode now createdAt st node) in
  exists window p,
    LogEngine.nodeProbeHistory st' !! n_id node = Some window
    /\ (1 <= length window <= 10)%nat
    /\ n_lossPct node' = Some (inject_Z p)
    /\ 0 <= p <= 100
    /\ (p = 0 <-> Forall (fun s => LogEngine.success s = true) window)
    /\ (p = 100 <-> Forall (fun s => LogEngine.success s = false) window)
    /\ (n_avgLatencyMs node' = None
        <-> Forall (fun s => LogEngine.latencyMs s = None) window)
    /\ (n_latencyMs node' = None <-> n_latencyMs node = None)
    /\ (forall v, n_latencyMs node' = Some v ->
          (0 <= v)%Q /\ exists k : Z, (v == k # 100)%Q).
Proof.
  cbv zeta. destruct (updateNode_fields now createdAt st node) as (latency & H).
  cbv zeta in H. destruct H as (Hnode & Hhist & Hlat).
  set (window := LogEngine.pushSample _ _) in *.
  exists window, (lossOfCounts (LogEngine.successCount window) (length window)).
  assert (Hlen : (1 <= length window <= 10)%nat).
  { split; [apply pushSample_nonempty|apply pushSample_length]. }
  destruct (lossOfCounts_range (length window)
              (LogEngine.successCount window) Hlen
              (successCount_le window)) as (Hr & H0 & H100).
  rewrite Hnode, Hhist.
  cbn [n_lossPct n_latencyMs n_avgLatencyMs].
  split; [apply lookup_insert_eq|]. split; [exact Hlen|].
  split; [rewrite lossPctOf_counts; reflexivity|]. split; [exact Hr|].
  split; [rewrite H0; apply successCount_all|].
  split; [rewrite H100; apply successCount_none|].
  split; [apply avgLatencyOf_None|].
  destruct (n_latencyMs node) as [l|].
  - destruct Hlat as (c & ->). split; [split; discriminate|].
    intros v [= <-]. apply calibrate_nonneg.
  - destruct Hlat as [-> _]. split; [tauto|]. discriminate.
Qed.

Lemma updateNodeLossFromHistory_Forall (P : ProbeNodeResult -> Prop)
    (now : Z) (createdAt : jsstring -> Z)
    (nodes : list ProbeNodeResult) :
  (forall st node, P (snd (LogEngine.updateNode now createdAt st node))) ->
  forall st,
    Forall P (snd (LogEngine.updateNodeLossFromHistory now createdAt st nodes)).
Proof.
  intros HP. induction nodes as [|node rest IH]; intros st.
  - constructor.
  - cbn [LogEngine.updateNodeLossFromHistory].
    pose proof (HP st node) as H1.
    destruct (LogEngine.updateNode now createdAt st node) as [st1 node'].
    pose proof (IH st1) as H2.
    destruct (LogEngine.updateNodeLossFromHistory now createdAt st1 rest) as [st2 rest'].
    constructor; assumption.
Qed.

(** X10. After a cycle is recorded for a
    node, its window holds between 1 and 10 samples and its loss
    percentage is a whole number between 0 and 100, which is 0 exactly
    when every sample of the window is a success and 100 exactly when
    none is; its average latency is absent exactly when no sample of the
    window has a latency; its latency is present exactly when the parser
    found one, and is then non-negative with at most two decimals.  So
    every node of a completed response of the calibrated revision has a
    loss percentage in that range and no negative latency. *)
Theorem reported_metrics_in_range :
  (forall now createdAt st node,
     let st' := fst (LogEngine.updateNode now createdAt st node) in
     let node' := snd (LogEngine.updateNode now createdAt st node) in
     exists window p,
       LogEngine.nodeProbeHistory st' !! n_id node = Some window
       /\ (1 <= length window <= 10)%nat
       /\ n_lossPct node' = Some (inject_Z p)
       /\ 0 <= p <= 100
       /\ (p = 0 <-> Forall (fun s => LogEngine.success s = true) window)
       /\ (p = 100 <-> Forall (fun s => LogEngine.success s = false) window)
       /\ (n_avgLatencyMs node' = None
           <-> Forall (fun s => LogEngine.latencyMs s = None) window)
       /\ (n_latencyMs node' = None <-> n_latencyMs node = None)
       /\ (forall v, n_latencyMs node' = Some v ->
             (0 <= v)%Q /\ exists k : Z, (v == k # 100)%Q))
  /\ (forall (RT : Runtime) regionIdMap startedAt st stderr code now
        createdAt checkedAt,
        Forall inRange
          (r_nodes (snd (LogEngine.complete regionIdMap startedAt st stderr
                           code now createdAt checkedAt)))).
Proof.
  split; [exact updateNode_inRange|].
  intros RT regionIdMap startedAt st stderr code now createdAt checkedAt.
  unfold LogEngine.complete.
  pose proof (updateNodeLossFromHistory_Forall inRange now createdAt
                (LogEngine.parseNodesFromProbeLog stderr checkedAt
                   regionIdMap)) as H.
  destruct (LogEngine.updateNodeLossFromHistory _ _ _ _) as [st' nodes] eqn:E.
  cbn [snd r_nodes].
  change nodes with (snd (st', nodes)). rewrite <- E. apply H.
  clear. intros st node.
  destruct (updateNode_inRange now createdAt st node)
    as (window & p & _ & _ & Hp & Hr & _ & _ & _ & _ & Hv).
  split; [exists p; split; assumption|exact Hv].
Qed.

Lemma updateNode_frame (now : Z) (createdAt : jsstring -> Z)
    (st : LogEngine.Store)
    (node : ProbeNodeResult) :
  let st' := fst (LogEngine.updateNode now createdAt st node) in
  identityOf (snd (LogEngine.updateNode now createdAt st node)) = identityOf node
  /\ n_lossPct (snd (LogEngine.updateNode now createdAt st node)) <> None
  /\ LogEngine.nodeProbeHistory st' !! n_id node <> None
  /\ (forall id, id <> n_id node ->
        LogEngine.nodeProbeHistory st' !! id
        = LogEngine.nodeProbeHistory st !! id)
  /\ (forall id, id <> n_id node \/ n_latencyMs node = None ->
        LogEngine.nodeLatencyCalibrators st' !! id
        = LogEngine.nodeLatencyCalibrators st !! id).
Proof.
  cbv zeta. destruct (updateNode_fields now createdAt st node) as (latency & H).
  cbv zeta in H. destruct H as (Hnode & Hhist & Hlat).
  rewrite Hnode, Hhist. split; [reflexivity|]. split; [discriminate|].
  split; [rewrite lookup_insert_eq; discriminate|].
  split; [intros id Hid; apply lookup_insert_ne; congruence|].
  intros id Hid.
  destruct (n_latencyMs node) as [l|] eqn:El.
  - destruct Hid as [Hid|Hid]; [|discriminate].
    destruct (updateNode_calibrator now createdAt st node l El) as (_ & _ & Hother).
    exact (Hother id Hid).
  - destruct Hlat as [_ ->]. reflexivity.
Qed.

(** X11. [updateNodeLossFromHistory] keeps the nodes in
    number and order and changes only their latency, loss percentage and
    average latency; every node gets a loss percentage and a history
    window.  The history of an id that is not in the list is untouched,
    and so is the calibrator of an id for which no listed node carries a
    latency. *)
Theorem smoothing_frame (now : Z) (createdAt : jsstring -> Z)
    (nodes : list ProbeNodeResult) :
  forall st,
    let st' := fst (LogEngine.updateNodeLossFromHistory now createdAt st nodes) in
    let nodes' := snd (LogEngine.updateNodeLossFromHistory now createdAt st nodes) in
    map identityOf nodes' = map identityOf nodes
    /\ Forall (fun n => n_lossPct n <> None) nodes'
    /\ (forall id, In id (map n_id nodes) ->
          LogEngine.nodeProbeHistory st' !! id <> None)
    /\ (forall id, ~ In id (map n_id nodes) ->
          LogEngine.nodeProbeHistory st' !! id
          = LogEngine.nodeProbeHistory st !! id)
    /\ (forall id,
          (forall n, In n nodes -> n_id n = id -> n_latencyMs n = None) ->
          LogEngine.nodeLatencyCalibrators st' !! id
          = LogEngine.nodeLatencyCalibrators st !! id).
Proof.
  induction nodes as [|node rest IH]; intros st; cbv zeta.
  - cbn. repeat split; try constructor; try reflexivity. intros id [].
  - cbn [LogEngine.updateNodeLossFromHistory].
    destruct (updateNode_frame now createdAt st node) as (Hid & Hloss & Hsome & Hh & Hc).
    cbv zeta in *.
    destruct (LogEngine.updateNode now createdAt st node) as [st1 node'].
    specialize (IH st1). cbv zeta in IH.
    destruct (LogEngine.updateNodeLossFromHistory now createdAt st1 rest)
      as [st2 rest'].
    cbn [fst snd] in *.
    destruct IH as (IHid & IHloss & IHsome & IHh & IHc).
    split; [cbn [map]; rewrite Hid, IHid; reflexivity|].
    split; [constructor; assumption|].
    split; [|split].
    + intros id Hin.
      destruct (in_dec (list_eq_dec N.eq_dec) id (map n_id rest)) as [Hr|Hr].
      * exact (IHsome id Hr).
      * rewrite (IHh id Hr). cbn [map In] in Hin.
        destruct Hin as [<-|Hin]; [exact Hsome|contradiction].
    + intros id Hin. cbn [map In] in Hin.
      rewrite IHh by tauto. apply Hh. intros ->. tauto.
    + intros id Hnone. rewrite IHc.
      * apply Hc.
        destruct (list_eq_dec N.eq_dec id (n_id node)) as [->|Hne];
          [right|left; exact Hne].
        apply Hnone; [left; reflexivity|reflexivity].
      * intros n Hn. apply Hnone. right. exact Hn.
Qed.

Lemma toFixed2_comp (x y : Q) : (x == y)%Q -> toFixed2 x = toFixed2 y.
Proof.
  intros E. unfold toFixed2.
  assert (Hb : Qle_bool 0 x = Qle_bool 0 y).
  { destruct (Qle_bool 0 x) eqn:Ex, (Qle_bool 0 y) eqn:Ey; try reflexivity.
    - apply Qle_bool_iff in Ex. rewrite E in Ex. apply Qle_bool_iff in Ex.
      congruence.
    - apply Qle_bool_iff in Ey. rewrite <- E in Ey. apply Qle_bool_iff in Ey.
      congruence. }
  rewrite Hb. destruct (Qle_bool 0 y); apply Qred_complete; rewrite E;
    reflexivity.
Qed.

(** X12. The first latency of a node that has
    no calibrator yet creates one, started at the time read when it is
    created (a second reading of the clock, after the one of the cycle)
    and holding that one sample, stamped with the time of the cycle.
    When the cycle's time is less than the two minutes of the warm-up
    after the calibrator's start, as it is unless the clock was set back
    by as much between the two readings, the cycle reports the latency
    less the 10 ms fallback when the measurement is above 10 ms, and 0
    otherwise. *)
Theorem first_sample_calibration (now : Z) (createdAt : jsstring -> Z)
    (st : LogEngine.Store)
    (node : ProbeNodeResult) (l : Q) :
  n_latencyMs node = Some l ->
  LogEngine.nodeLatencyCalibrators st !! n_id node = None ->
  let st' := fst (LogEngine.updateNode now createdAt st node) in
  let node' := snd (LogEngine.updateNode now createdAt st node) in
  (exists c,
     LogEngine.nodeLatencyCalibrators st' !! n_id node = Some c
     /\ LogEngine.startTime c = createdAt (n_id node)
     /\ LogEngine.deque c
        = [{| LogEngine.timestamp := now; LogEngine.rtt := l |}])
  /\ (now - createdAt (n_id node) < 2 * 60 * 1000 ->
      ((10 < l)%Q -> n_latencyMs node' = Some (toFixed2 (l - 10)))
      /\ ((l <= 10)%Q -> n_latencyMs node' = Some 0%Q)).
Proof.
  intros Hl Hnone. cbv zeta.
  destruct (updateNode_calibrator now createdAt st node l Hl) as (Hlat & Hcal & _).
  cbv zeta in Hlat, Hcal. rewrite Hnone in Hlat, Hcal.
  rewrite Hlat, Hcal. clear Hlat Hcal.
  unfold LogEngine.calibrate, LogEngine.createLatencyCalibrator.
  cbn [LogEngine.deque LogEngine.windowSize LogEngine.warmupPeriod
       LogEngine.fallbackMs LogEngine.startTime LogEngine.shiftExpired
       fst snd].
  change (LogEngine.popNotBelow l []) with (@nil LogEngine.DelayPoint).
  cbn [app]. unfold LogEngine.baselineOf.
  cbn [LogEngine.rtt LogEngine.startTime LogEngine.warmupPeriod
       LogEngine.fallbackMs].
  split.
  { eexists. split; [reflexivity|]. split; reflexivity. }
  intros Hwarm.
  assert (Ew : (now - createdAt (n_id node)
                <? CALIBRATION_WARMUP_MINS * 60 * 1000) = true).
  { apply Z.ltb_lt. exact Hwarm. }
  rewrite Ew.
  cbn [andb]. unfold CALIBRATION_FALLBACK_MS.
  split.
  - intros H. f_equal.
    assert (E : Qgtb l 10 = true).
    { unfold Qgtb. apply negb_true_iff.
      destruct (Qle_bool l 10) eqn:E; [|reflexivity].
      apply Qle_bool_iff in E. exfalso. exact (Qlt_not_le _ _ H E). }
    rewrite E. apply toFixed2_comp. apply Q.max_r. lra.
  - intros H. f_equal.
    assert (E : Qgtb l 10 = false).
    { unfold Qgtb. apply negb_false_iff. apply Qle_bool_iff. exact H. }
    rewrite E. change 0%Q with (toFixed2 0) at 2. apply toFixed2_comp.
    rewrite Q.max_l; [reflexivity|lra].
Qed.

Lemma first_sample_calibration_witness :
  n_latencyMs
    (snd (LogEngine.updateNode 1000 (fun _ => 1003) LogEngine.emptyStore
            nodeWithLatency))
  = Some 21%Q.
Proof.
  refine (proj1 (proj2 (first_sample_calibration 1000 (fun _ => 1003)
                          LogEngine.emptyStore nodeWithLatency 31%Q
                          eq_refl eq_refl) _) eq_refl).
  reflexivity.
Defined.

(** The rolling average is the rounded binary64 mean: the mean of 0.01
    and 0.02 is the binary64 number just below 0.015, which [toFixed(2)]
    rounds down. *)
Example rolling_average_of_doubles :
  let sample latency :=
    {| LogEngine.success := true; LogEngine.latencyMs := Some latency |} in
  LogEngine.avgLatencyOf [sample (1 # 100)%Q; sample (2 # 100)%Q]
  = Some (1 # 100)%Q
  /\ LogEngine.avgLatencyOf [sample 31%Q; sample 12%Q] = Some 22%Q
  /\ LogEngine.avgLatencyOf [sample 31%Q; {| LogEngine.success := false;
                                             LogEngine.latencyMs := None |}]
     = Some 31%Q.
Proof. vm_compute. repeat split. Qed.

(** ** Log lines: the timestamp and the grammar *)

Lemma trim_trimStart (s : jsstring) : trim (dropWhile isWhiteSpace s) = trim s.
Proof. unfold trim, trimStart. rewrite dropWhile_idem. reflexivity. Qed.

Lemma dropWhile_app_all {A} (p : A -> bool) (a b : list A) :
  forallb p a = true -> dropWhile p (a ++ b) = dropWhile p b.
Proof.
  induction a as [|x a IH]; cbn [forallb app dropWhile]; [reflexivity|].
  intros H. apply andb_true_iff in H as [-> H]. exact (IH H).
Qed.

Lemma dropWhile_app_keep {A} (p : A -> bool) (a b : list A) :
  dropWhile p a <> [] -> dropWhile p (a ++ b) = dropWhile p a ++ b.
Proof.
  induction a as [|x a IH]; cbn [app dropWhile]; [congruence|].
  destruct (p x); [exact IH|reflexivity].
Qed.

Lemma trimEnd_app (a b : jsstring) :
  trimEnd b <> [] -> trimEnd (a ++ b) = a ++ trimEnd b.
Proof.
  unfold trimEnd. intros H. rewrite rev_app_distr.
  rewrite dropWhile_app_keep.
  - rewrite rev_app_distr, rev_involutive. reflexivity.
  - intros E. apply H. rewrite E. reflexivity.
Qed.

(** A text that [trim] leaves alone, behind a text that starts with a
    unit that is no white space, is left alone as a whole. *)
Lemma trim_app (c : N) (a b : jsstring) :
  isWhiteSpace c = false -> b <> [] -> trim b = b ->
  trim (c :: a ++ b) = c :: a ++ b.
Proof.
  intros Hc Hne Hb. unfold trim, trimStart. cbn [dropWhile]. rewrite Hc.
  assert (Hend : trimEnd b = b).
  { destruct b as [|x b]; [congruence|].
    pose proof (trimmed_head _ _ Hb) as Hx.
    unfold trim, trimStart in Hb. cbn [dropWhile] in Hb. rewrite Hx in Hb.
    exact Hb. }
  change (c :: a ++ b) with ((c :: a) ++ b).
  rewrite trimEnd_app; rewrite Hend; [reflexivity|exact Hne].
Qed.

Lemma digits_numeral (n : nat) (ds rest : jsstring) :
  isNumeral n ds -> digits n (ds ++ rest) = Some rest.
Proof.
  revert ds. induction n as [|n IH]; intros ds [Hlen Hds].
  - destruct ds; [reflexivity|discriminate].
  - destruct ds as [|c ds]; [discriminate|].
    cbn [forallb] in Hds. apply andb_true_iff in Hds as [Hc Hds].
    cbn [digits app]. rewrite Hc. apply IH. split; [|exact Hds].
    cbn [length] in Hlen. lia.
Qed.

Lemma spaces1_gap (g rest : jsstring) :
  isGap g -> spaces1 (g ++ rest) = Some (dropWhile isWhiteSpace rest).
Proof.
  intros [Hne Hg]. destruct g as [|c g]; [congruence|].
  cbn [forallb] in Hg. apply andb_true_iff in Hg as [Hc Hg].
  cbn [spaces1 app]. rewrite Hc, (dropWhile_app_all _ _ _ Hg). reflexivity.
Qed.

Lemma numeral_not_space (n : nat) (ds rest : jsstring) :
  isNumeral (S n) ds ->
  dropWhile isWhiteSpace (ds ++ rest) = ds ++ rest.
Proof.
  intros [Hlen Hds]. destruct ds as [|c ds]; [discriminate|].
  cbn [forallb] in Hds. apply andb_true_iff in Hds as [Hc _].
  cbn [app dropWhile]. rewrite (digit_not_space _ Hc). reflexivity.
Qed.

Lemma expect_here (c : N) (rest : jsstring) : expect c (c :: rest) = Some rest.
Proof. cbn [expect]. rewrite N.eqb_refl. reflexivity. Qed.

Lemma digits_In (n : nat) (s rest : jsstring) (c : N) :
  digits n s = Some rest -> In c rest -> In c s.
Proof.
  revert s. induction n as [|n IH]; intros s; cbn [digits].
  - intros [= ->]. tauto.
  - destruct s as [|x s]; [discriminate|].
    destruct (isDigit x); [|discriminate].
    intros H Hin. right. exact (IH _ H Hin).
Qed.

Lemma expect_In (x : N) (s rest : jsstring) (c : N) :
  expect x s = Some rest -> In c rest -> In c s.
Proof.
  destruct s as [|y s]; cbn [expect]; [discriminate|].
  destruct (N.eqb y x); [|discriminate]. intros [= ->]. right. assumption.
Qed.

Lemma spaces1_In (s rest : jsstring) (c : N) :
  spaces1 s = Some rest -> In c rest -> In c s.
Proof.
  destruct s as [|y s]; cbn [spaces1]; [discriminate|].
  destruct (isWhiteSpace y); [|discriminate]. intros [= <-] Hin.
  right. exact (dropWhile_In _ _ _ Hin).
Qed.

Lemma matchLogPrefix_In (line rest : jsstring) (c : N) :
  matchLogPrefix line = Some rest -> In c rest -> In c line.
Proof.
  unfold matchLogPrefix. intros H Hin.
  repeat match type of H with
         | mbind _ ?o = Some _ =>
             let E := fresh "E" in
             destruct o eqn:E; cbn [mbind option_bind] in H; [|discriminate]
         end.
  apply spaces1_In with (c := c) in H; [|exact Hin].
  repeat match goal with
         | E : digits _ _ = Some ?r, Hr : In c ?r |- _ =>
             apply (digits_In _ _ _ c E) in Hr; clear E
         | E : expect _ _ = Some ?r, Hr : In c ?r |- _ =>
             apply (expect_In _ _ _ c E) in Hr; clear E
         | E : spaces1 _ = Some ?r, Hr : In c ?r |- _ =>
             apply (spaces1_In _ _ c E) in Hr; clear E
         end.
  assumption.
Qed.

Lemma matchLogPrefix_digit (line : jsstring) :
  match line with [] => True | c :: _ => isDigit c = false end ->
  matchLogPrefix line = None.
Proof.
  unfold matchLogPrefix. destruct line as [|c line]; [reflexivity|].
  intros Hc. cbn [digits]. rewrite Hc. reflexivity.
Qed.

Lemma stripLogPrefix_stamp (y mo d gap1 h mi s gap2 rest : jsstring) :
  isStamp y mo d gap1 h mi s gap2 ->
  stripLogPrefix (stamp y mo d gap1 h mi s gap2 ++ rest) = trim rest.
Proof.
  intros (Hy & Hmo & Hd & Hg1 & Hh & Hmi & Hs & Hg2).
  unfold stamp. repeat first [rewrite <- app_assoc | progress cbn [app]].
  unfold stripLogPrefix, matchLogPrefix.
  rewrite (digits_numeral _ _ _ Hy). cbn [mbind option_bind].
  rewrite expect_here. cbn [mbind option_bind].
  rewrite (digits_numeral _ _ _ Hmo). cbn [mbind option_bind].
  rewrite expect_here. cbn [mbind option_bind].
  rewrite (digits_numeral _ _ _ Hd). cbn [mbind option_bind].
  rewrite (spaces1_gap _ _ Hg1). cbn [mbind option_bind].
  rewrite (numeral_not_space _ _ _ Hh).
  rewrite (digits_numeral _ _ _ Hh). cbn [mbind option_bind].
  rewrite expect_here. cbn [mbind option_bind].
  rewrite (digits_numeral _ _ _ Hmi). cbn [mbind option_bind].
  rewrite expect_here. cbn [mbind option_bind].
  rewrite (digits_numeral _ _ _ Hs). cbn [mbind option_bind].
  rewrite (spaces1_gap _ _ Hg2). apply trim_trimStart.
Qed.

(** X13. [stripLogPrefix] drops a leading
    timestamp of the logger (four digits, a slash, two digits, a slash,
    two digits, white space, three pairs of digits separated by colons,
    white space) and trims what is left; a line that does not start with
    a digit is only trimmed; and what it returns is always trimmed. *)
Theorem stripLogPrefix_timestamp :
  (forall y mo d gap1 h mi s gap2 rest,
     isStamp y mo d gap1 h mi s gap2 ->
     stripLogPrefix (stamp y mo d gap1 h mi s gap2 ++ rest) = trim rest)
  /\ (forall line,
        match line with [] => True | c :: _ => isDigit c = false end ->
        stripLogPrefix line = trim line)
  /\ (forall line, trim (stripLogPrefix line) = stripLogPrefix line).
Proof.
  split; [|split].
  - intros y mo d gap1 h mi s gap2 rest. apply stripLogPrefix_stamp.
  - intros line Hline. unfold stripLogPrefix.
    rewrite (matchLogPrefix_digit _ Hline). reflexivity.
  - intros line. unfold stripLogPrefix. apply trim_idem.
Qed.

(** X14. Every line the parsers read from the
    diagnostic text is non-empty, carries no surrounding white space and
    no line feed, and consists of units of the text; blank lines are
    never read. *)
Theorem logLines_clean (stderr line : jsstring) :
  In line (logLines stderr) ->
  line <> [] /\ trim line = line /\ ~ In 10%N line
  /\ forall c, In c line -> In c stderr.
Proof.
  unfold logLines. rewrite filter_In, in_map_iff.
  intros [(raw & <- & Hraw) Hne].
  split; [intros E; rewrite E in Hne; discriminate|].
  split; [unfold stripLogPrefix; apply trim_idem|].
  assert (Hsub : forall c, In c (stripLogPrefix raw) -> In c raw).
  { intros c Hc. unfold stripLogPrefix in Hc. apply trim_In in Hc.
    destruct (matchLogPrefix raw) as [rest|] eqn:E; [|exact Hc].
    exact (matchLogPrefix_In _ _ _ E Hc). }
  split.
  - intros Hin. exact (split_In _ _ _ Hraw (Hsub _ Hin)).
  - intros c Hc. apply Hsub in Hc. revert Hraw Hc. clear.
    revert raw. induction stderr as [|x s IH]; intros raw; cbn [split].
    + intros [<-|[]] [].
    + destruct (N.eqb x 10).
      * intros [<-|H]; [intros []|]. intros Hc. right. exact (IH _ H Hc).
      * destruct (split 10 s) as [|w ws] eqn:Es.
        -- intros [<-|[]] [->|[]]. left. reflexivity.
        -- intros [<-|H].
           ++ intros [->|Hc]; [left; reflexivity|].
              right. apply (IH w); [left; reflexivity|exact Hc].
           ++ intros Hc. right. apply (IH raw); [right; exact H|exact Hc].
Qed.

Lemma logLines_clean_witness :
  lit "good: x" <> []
  /\ trim (lit "good: x") = lit "good: x"
  /\ ~ In 10%N (lit "good: x")
  /\ forall c, In c (lit "good: x") -> In c (lit " good: x").
Proof.
  apply (logLines_clean (lit " good: x") (lit "good: x")).
  vm_compute. left. reflexivity.
Defined.

(** ** Reading back a line of the probe *)

Lemma notColon_all (s : jsstring) :
  ~ In 58%N s -> forallb notColon s = true.
Proof.
  intros H. apply forallb_forall. intros c Hc. unfold notColon.
  apply negb_true_iff, N.eqb_neq. intros ->. contradiction.
Qed.

Lemma not_In_app {A} (x : A) (a b : list A) :
  ~ In x a -> ~ In x b -> ~ In x (a ++ b).
Proof. intros Ha Hb H. apply in_app_or in H as [H|H]; contradiction. Qed.

Lemma not_In_cons {A} (x y : A) (l : list A) :
  x <> y -> ~ In x l -> ~ In x (y :: l).
Proof. intros Hne Hl [H|H]; [congruence|contradiction]. Qed.

Lemma matchResultText_spaced (text : jsstring) :
  text <> [] -> trim text = text ->
  forallb (fun c => negb (isLineTerminator c)) text = true ->
  matchResultText (32%N :: text) = Some text.
Proof.
  intros Hne Htrim Hline. destruct text as [|c text]; [congruence|].
  pose proof (trimmed_head _ _ Htrim) as Hc.
  unfold matchResultText.
  change (takeWhile isWhiteSpace (32%N :: c :: text))
    with (32%N :: takeWhile isWhiteSpace (c :: text)).
  change (dropWhile isWhiteSpace (32%N :: c :: text))
    with (dropWhile isWhiteSpace (c :: text)).
  cbn [dropWhile takeWhile]. rewrite Hc, Hline. reflexivity.
Qed.

Lemma readProbeLine_format (l : ProbeLine) :
  printable l -> readProbeLine (formatLine l) = Some l.
Proof.
  intros (Hlevel & (Hs1 & Hs2 & _) & (Hc1 & Hc2 & _) & (Ht1 & Ht2 & _)
          & Hne & Htrim & Hline).
  destruct l as [level short cloud type text]. cbn [pl_level pl_shortRegion
    pl_cloudRegion pl_probeType pl_resultText] in *.
  set (path := short ++ 47%N :: cloud ++ 47%N :: type).
  assert (Hpath : takeWhile notColon (path ++ lit ": " ++ text) = path
                  /\ dropWhile notColon (path ++ lit ": " ++ text)
                     = lit ": " ++ text).
  { apply takeWhile_app_stop; [|reflexivity].
    apply notColon_all. unfold path.
    apply not_In_app; [exact Hs1|].
    apply not_In_cons; [discriminate|].
    apply not_In_app; [exact Hc1|].
    apply not_In_cons; [discriminate|exact Ht1]. }
  destruct Hpath as [Htake Hdrop].
  assert (Hsplit : split 47 path = [short; cloud; type]).
  { unfold path. rewrite (split_app _ _ _ Hs2), (split_app _ _ _ Hc2),
      (split_whole _ _ Ht2). reflexivity. }
  assert (Hnonempty : path <> []).
  { unfold path. destruct short; discriminate. }
  assert (Hbody : forall lv : jsstring,
            (s ← expect 58 (lit ": derp/" ++ path ++ lit ": " ++ text);
             s ← spaces1 s; s ← literal (lit "derp/") s;
             let p := takeWhile notColon s in
             match p with
             | [] => None
             | _ =>
                 s ← expect 58 (dropWhile notColon s);
                 resultText ← matchResultText s;
                 Some (lv, p, resultText)
             end) = Some (lv, path, text)).
  { intros lv.
    change (lit ": derp/" ++ path ++ lit ": " ++ text)
      with (58%N :: 32%N :: lit "derp/" ++ path ++ lit ": " ++ text).
    rewrite expect_here. cbn [mbind option_bind].
    change (spaces1 (32%N :: lit "derp/" ++ path ++ lit ": " ++ text))
      with (Some (lit "derp/" ++ path ++ lit ": " ++ text)).
    cbn [mbind option_bind].
    change (literal (lit "derp/") (lit "derp/" ++ path ++ lit ": " ++ text))
      with (Some (path ++ lit ": " ++ text)).
    cbn [mbind option_bind]. cbv zeta. rewrite Htake, Hdrop.
    destruct path as [|p0 path']; [congruence|].
    change (lit ": " ++ text) with (58%N :: 32%N :: text).
    rewrite expect_here. cbn [mbind option_bind].
    rewrite (matchResultText_spaced _ Hne Htrim Hline). reflexivity. }
  assert (Hmatch : matchLine
                     (formatLine
                        {| pl_level := level; pl_shortRegion := short;
                           pl_cloudRegion := cloud; pl_probeType := type;
                           pl_resultText := text |})
                   = Some (level, path, text)).
  { unfold formatLine.
    cbn [pl_level pl_shortRegion pl_cloudRegion pl_probeType pl_resultText].
    assert (Hform : short ++ 47%N :: cloud ++ 47%N :: type ++ lit ": " ++ text
                    = path ++ lit ": " ++ text).
    { unfold path. rewrite <- app_assoc. cbn [app]. rewrite <- app_assoc.
      reflexivity. }
    rewrite Hform.
    destruct Hlevel as [-> | ->];
      [exact (Hbody (lit "good"))|exact (Hbody (lit "bad"))]. }
  unfold readProbeLine. rewrite Hmatch, Hsplit. reflexivity.
Qed.

Lemma formatLine_shape (l : ProbeLine) :
  printable l ->
  exists c body,
    formatLine l = c :: body ++ pl_resultText l
    /\ isWhiteSpace c = false /\ isDigit c = false
    /\ ~ In 10%N (formatLine l).
Proof.
  intros (Hlevel & (_ & _ & Hs) & (_ & _ & Hc) & (_ & _ & Ht)
          & Hne & Htrim & Hline).
  assert (Htext : ~ In 10%N (pl_resultText l)).
  { intros Hin. rewrite forallb_forall in Hline.
    specialize (Hline _ Hin). discriminate. }
  assert (Htail : ~ In 10%N
            (lit ": derp/" ++ pl_shortRegion l ++ 47%N :: pl_cloudRegion l
             ++ 47%N :: pl_probeType l ++ lit ": " ++ pl_resultText l)).
  { apply not_In_app.
    { unfold lit. cbn. intros H.
      repeat (destruct H as [H|H]; [discriminate|]). exact H. }
    apply not_In_app; [exact Hs|]. apply not_In_cons; [discriminate|].
    apply not_In_app; [exact Hc|]. apply not_In_cons; [discriminate|].
    apply not_In_app; [exact Ht|].
    apply not_In_cons; [discriminate|].
    apply not_In_cons; [discriminate|exact Htext]. }
  unfold formatLine.
  destruct Hlevel as [-> | ->].
  - exists 103%N,
      (lit "ood: derp/" ++ pl_shortRegion l ++ 47%N :: pl_cloudRegion l
       ++ 47%N :: pl_probeType l ++ lit ": ").
    split.
    { change (lit "good") with (103%N :: lit "ood").
      change (lit "ood: derp/") with (lit "ood" ++ lit ": derp/").
      repeat first [rewrite <- app_assoc | progress cbn [app]]. reflexivity. }
    split; [reflexivity|]. split; [reflexivity|].
    apply not_In_app; [|exact Htail].
    unfold lit. cbn. intros H.
    repeat (destruct H as [H|H]; [discriminate|]). exact H.
  - exists 98%N,
      (lit "ad: derp/" ++ pl_shortRegion l ++ 47%N :: pl_cloudRegion l
       ++ 47%N :: pl_probeType l ++ lit ": ").
    split.
    { change (lit "bad") with (98%N :: lit "ad").
      change (lit "ad: derp/") with (lit "ad" ++ lit ": derp/").
      repeat first [rewrite <- app_assoc | progress cbn [app]]. reflexivity. }
    split; [reflexivity|]. split; [reflexivity|].
    apply not_In_app; [|exact Htail].
    unfold lit. cbn. intros H.
    repeat (destruct H as [H|H]; [discriminate|]). exact H.
Qed.

Lemma trim_carriage_return (s : jsstring) : trim (s ++ [13%N]) = trim s.
Proof.
  unfold trim, trimEnd.
  assert (H : forall t : jsstring,
            dropWhile isWhiteSpace (rev (t ++ [13%N]))
            = dropWhile isWhiteSpace (rev t)).
  { intros t. rewrite rev_app_distr. reflexivity. }
  unfold trimStart.
  induction s as [|c s IH]; [reflexivity|].
  cbn [app dropWhile]. destruct (isWhiteSpace c); [exact IH|].
  change (c :: s ++ [13%N]) with ((c :: s) ++ [13%N]).
  rewrite H. reflexivity.
Qed.

(** X15. Reading back what the probe prints: a
    result printed as [level: derp/short/cloud/type: text] is read by the
    line grammar as exactly that level, those two regions, that probe
    type and that text; and the diagnostic text that holds this line
    behind a timestamp of the logger and with a carriage return at its
    end is read as this one line. *)
Theorem probe_line_round_trip (l : ProbeLine) :
  printable l ->
  readProbeLine (formatLine l) = Some l
  /\ probeLines (formatLine l) = [l]
  /\ forall y mo d gap1 h mi s gap2,
       isStamp y mo d gap1 h mi s gap2 ->
       ~ In 10%N (stamp y mo d gap1 h mi s gap2) ->
       probeLines (stamp y mo d gap1 h mi s gap2 ++ formatLine l ++ [13%N])
       = [l].
Proof.
  intros Hl. pose proof (readProbeLine_format l Hl) as Hread.
  destruct (formatLine_shape l Hl) as (c & body & Hshape & Hc & Hdigit & Hlf).
  assert (Htrim : trim (formatLine l) = formatLine l).
  { rewrite Hshape. apply trim_app; [exact Hc| |]; apply Hl. }
  assert (Hone : forall text,
            ~ In 10%N text -> stripLogPrefix text = formatLine l ->
            probeLines text = [l]).
  { intros text Hno Hstrip. unfold probeLines, logLines.
    rewrite (split_whole _ _ Hno). cbn [map]. rewrite Hstrip.
    rewrite Hshape at 1. cbn [filter nonEmpty]. rewrite <- Hshape.
    unfold readLines. cbn [flat_map]. rewrite Hread. reflexivity. }
  split; [exact Hread|]. split.
  - apply Hone; [exact Hlf|].
    unfold stripLogPrefix. rewrite matchLogPrefix_digit; [exact Htrim|].
    rewrite Hshape. exact Hdigit.
  - intros y mo d gap1 h mi s gap2 Hstamp Hno.
    apply Hone.
    + apply not_In_app; [exact Hno|].
      apply not_In_app; [exact Hlf|]. intros [H|[]]. discriminate.
    + rewrite (stripLogPrefix_stamp _ _ _ _ _ _ _ _ _ Hstamp).
      rewrite trim_carriage_return. exact Htrim.
Qed.

Lemma probe_line_round_trip_witness :
  readProbeLine (lit "good: derp/nyc/us-east/udp: 31ms") = Some exampleLine
  /\ probeLines (lit "2026/01/02 03:04:05 good: derp/nyc/us-east/udp: 31ms"
                 ++ [13%N])
     = [exampleLine].
Proof.
  assert (Hp : printable exampleLine).
  { unfold printable, isSegment, exampleLine, lit. cbn.
    repeat split; try discriminate; try reflexivity; try (left; reflexivity);
      intros H; repeat (destruct H as [H|H]; [discriminate|]); exact H. }
  assert (Hs : isStamp (lit "2026") (lit "01") (lit "02") [32%N]
                 (lit "03") (lit "04") (lit "05") [32%N]).
  { unfold isStamp, isNumeral, isGap.
    repeat split; try reflexivity; discriminate. }
  split.
  - exact (proj1 (probe_line_round_trip exampleLine Hp)).
  - apply (proj2 (proj2 (probe_line_round_trip exampleLine Hp))
             (lit "2026") (lit "01") (lit "02") [32%N]
             (lit "03") (lit "04") (lit "05") [32%N] Hs).
    unfold stamp, lit. cbn. intros H.
    repeat (destruct H as [H|H]; [discriminate|]). exact H.
Defined.

(** ** What the LogParser puts into a node *)

Section Observed.

Context {T X : Type}.
Variable view : T -> Counts.
Variable newNode : ProbeLine -> T.
Variable record : ProbeLine -> T -> T.
Variable exempt : bool.
Variable obs : T -> X.
Variable init : ProbeLine -> X.
Variable upd : ProbeLine -> X -> X.

Hypothesis view_new : forall l, view (newNode l) = freshCounts l.
Hypothesis view_record : forall l node,
  view (record l node) = bumpCounts exempt l (view node).
Hypothesis obs_new : forall l, obs (newNode l) = init l.
Hypothesis obs_record : forall l node,
  obs (record l node) = upd l (obs node).




End Observed.








Lemma mapGet_Some_In {V} (k : jsstring) (v : V) (m : list (jsstring * V)) :
  mapGet k m = Some v -> In (k, v) m.
Proof.
  induction m as [|[k0 v0] m IH]; cbn [mapGet]; [discriminate|].
  destruct (streq k k0) eqn:E.
  - apply streq_spec in E. intros [= ->]. left. congruence.
  - intros H. right. exact (IH H).
Qed.




Lemma aggregate_silent (lines : list jsstring) :
  readLines lines = [] -> LogEngine.aggregate lines = [].
Proof.
  intros H. unfold LogEngine.aggregate.
  generalize (LogEngine.isIpv6UnsupportedNetwork lines). intros host.
  assert (Hall : Forall (fun line => readProbeLine line = None) lines).
  { unfold readLines in H. induction lines as [|line lines IH];
      [constructor|].
    cbn [flat_map] in H. apply app_eq_nil in H as [H1 H2].
    constructor; [|exact (IH H2)].
    destruct (readProbeLine line); [discriminate|reflexivity]. }
  clear H. induction Hall as [|line lines Hline _ IH]; [reflexivity|].
  cbn [fold_left]. unfold LogEngine.aggregateLine at 2. rewrite Hline.
  exact IH.
Qed.

(** X17. A completed cycle of the calibrated revision
    whose diagnostic text holds no line of the grammar (an empty text in
    particular) yields a response with no nodes and the all-zero summary,
    and leaves the history and the calibrators untouched.  Since "every
    node is healthy" holds of no nodes, such a cycle is ok exactly when
    the exit code is 0 or 1. *)
Theorem silent_cycle `{Runtime} (regionIdMap : gmap jsstring Q)
    (startedAt : Z) (st : LogEngine.Store) (stderr : jsstring)
    (code : option Z) (now : Z) (createdAt : jsstring -> Z)
    (checkedAt : jsstring) :
  probeLines stderr = [] ->
  let out :=
    LogEngine.complete regionIdMap startedAt st stderr code now createdAt
      checkedAt in
  fst out = st
  /\ r_nodes (snd out) = []
  /\ r_summary (snd out) = emptySummary
  /\ (r_ok (snd out) = true <-> code = Some 0 \/ code = Some 1).
Proof.
  intros Hsilent. cbv zeta. unfold LogEngine.complete,
    LogEngine.parseNodesFromProbeLog.
  rewrite (aggregate_silent _ Hsilent).
  cbn [map Array_sort fold_right LogEngine.updateNodeLossFromHistory
       fst snd r_nodes r_summary r_ok forallb].
  split; [reflexivity|]. split; [reflexivity|]. split; [reflexivity|].
  rewrite andb_true_r, orb_true_iff, !isCode_spec. reflexivity.
Qed.

Lemma silent_cycle_witness :
  r_ok (snd (LogEngine.complete (H := asciiRuntime) ∅ 0 LogEngine.emptyStore
               (lit "derpprobe: no regions") (Some 1) 5 (fun _ => 5)
               (lit "now")))
  = true.
Proof.
  apply (silent_cycle (H := asciiRuntime) ∅ 0 LogEngine.emptyStore
           (lit "derpprobe: no regions") (Some 1) 5 (fun _ => 5)
           (lit "now") eq_refl).
  right. reflexivity.
Defined.

(** ** RawOutputParser: keys, ordinals and the fall back *)


Section RawKeys.

Context `{RT : Runtime}.




End RawKeys.


Lemma parseOutput_plain `{Runtime} (stdout : jsstring) :
  (trim stdout = []
   \/ (JSON_parse (trim stdout) = None
       /\ forall line, In line (split 10 (trim stdout)) ->
                       trim line <> [] -> JSON_parse (trim line) = None)) ->
  RawEngine.parseOutput stdout
  = match trim stdout with
    | [] => JNull
    | text => JObj [(lit "text", JStr text)]
    end.
Proof.
  unfold RawEngine.parseOutput. intros [->|[Hwhole Hlines]]; [reflexivity|].
  destruct (trim stdout) as [|c text] eqn:E; [reflexivity|].
  rewrite Hwhole.
  assert (Hnone : flat_map
                    (fun line => match JSON_parse line with
                                 | Some v => [v]
                                 | None => []
                                 end)
                    (filter nonEmpty (map trim (split 10 (c :: text))))
                  = []).
  { induction (split 10 (c :: text)) as [|line lines IH];
      [reflexivity|].
    cbn [map filter].
    destruct (trim line) as [|x t] eqn:El; cbn [nonEmpty].
    - apply IH. intros l Hl. apply Hlines. right. exact Hl.
    - cbn [flat_map]. rewrite <- El, (Hlines line).
      + apply IH. intros l Hl. apply Hlines. right. exact Hl.
      + left. reflexivity.
      + rewrite El. discriminate. }
  rewrite Hnone. reflexivity.
Qed.

(** X19. When the child's standard output is blank,
    or is no JSON as a whole and on none of its lines, the raw-output
    revision finds no node record in it and takes the nodes of the
    response from the log parser over the diagnostic text; the response
    then carries [null], or the trimmed output wrapped as [{text}], as
    its raw document. *)
Theorem raw_output_fallback `{Runtime} (regionIdMap : gmap jsstring Q)
    (startedAt : Z) (stdout stderr : jsstring) (code : option Z) (now : Z)
    (checkedAt : jsstring) :
  (trim stdout = []
   \/ (JSON_parse (trim stdout) = None
       /\ forall line, In line (split 10 (trim stdout)) ->
                       trim line <> [] -> JSON_parse (trim line) = None)) ->
  let r := RawEngine.complete regionIdMap startedAt stdout stderr code now
             checkedAt in
  RawEngine.pickNodeRecords checkedAt (RawEngine.parseOutput stdout) = []
  /\ r_nodes r = RawEngine.parseNodesFromProbeLog stderr checkedAt regionIdMap
  /\ r_raw r
     = Some match trim stdout with
            | [] => JNull
            | text => JObj [(lit "text", JStr text)]
            end.
Proof.
  intros Hplain. cbv zeta.
  pose proof (parseOutput_plain stdout Hplain) as Hout.
  assert (Hnone : RawEngine.pickNodeRecords checkedAt
                    (RawEngine.parseOutput stdout) = []).
  { rewrite Hout. destruct (trim stdout); reflexivity. }
  split; [exact Hnone|].
  unfold RawEngine.complete. cbn [r_nodes r_raw]. rewrite Hnone, Hout.
  split; reflexivity.
Qed.

Lemma raw_output_fallback_witness :
  r_nodes
    (RawEngine.complete (H := asciiRuntime) ∅ 0 (lit "probe started")
       (lit "good: derp/nyc/us-east/udp: 31ms") (Some 0) 5 (lit "now"))
  = RawEngine.parseNodesFromProbeLog (H := asciiRuntime)
      (lit "good: derp/nyc/us-east/udp: 31ms") (lit "now") ∅.
Proof.
  apply (raw_output_fallback (H := asciiRuntime) ∅ 0 (lit "probe started")
           (lit "good: derp/nyc/us-east/udp: 31ms") (Some 0) 5 (lit "now")).
  right. split; [reflexivity|]. intros line _ _. reflexivity.
Defined.

(** ** The region table *)

Section RegionTable.

Context `{RT : Runtime}.

Notation addRegion :=
  (fun (table : gmap jsstring Q) (value : json) =>
     match regionEntry value with
     | Some (regionCode, regionId) => <[regionCode := regionId]> table
     | None => table
     end).

Lemma regionEntry_sets (value : json) (k : jsstring) (v : Q) :
  regionEntry value = Some (k, v) <-> setsEntry value k v.
Proof.
  unfold regionEntry, setsEntry. split.
  - destruct value as [| | | | |region]; try discriminate.
    pose proof (getProp_holds (lit "RegionCode") region) as Hcode.
    pose proof (toNumber_field (lit "RegionID") region) as Hid.
    destruct (RawEngine.getProp (lit "RegionCode") region)
      as [[| | |s| |]|]; try discriminate.
    destruct (toLowerCase (trim s)) as [|c code] eqn:E; [discriminate|].
    destruct (toNumber _) as [q|]; [|discriminate]. intros [= <- <-].
    exists region, s. split; [reflexivity|]. split; [exact Hcode|].
    split; [symmetry; exact E|]. split; [discriminate|exact Hid].
  - intros (region & code & -> & Hcode & -> & Hne & Hid).
    pose proof (getProp_holds (lit "RegionCode") region) as Hc.
    pose proof (toNumber_field (lit "RegionID") region) as Hn.
    destruct (RawEngine.getProp (lit "RegionCode") region) as [w|];
      [|exfalso; exact (Hc _ Hcode)].
    rewrite (holds_unique _ _ _ _ Hc Hcode).
    destruct (toLowerCase (trim code)) as [|c k]; [contradiction|].
    destruct (toNumber _) as [q|]; [|exfalso; exact (Hn _ Hid)].
    do 2 f_equal.
    destruct Hn as [Hq|(s & Hs & Es)], Hid as [Hv|(s' & Hs' & Es')].
    + pose proof (holds_unique _ _ _ _ Hq Hv) as E. congruence.
    + pose proof (holds_unique _ _ _ _ Hq Hs'). discriminate.
    + pose proof (holds_unique _ _ _ _ Hs Hv). discriminate.
    + pose proof (holds_unique _ _ _ _ Hs Hs') as E.
      injection E as <-. congruence.
Qed.

Lemma fold_regions_In (values : list json) :
  forall (table : gmap jsstring Q) k v,
    fold_left addRegion values table !! k = Some v ->
    table !! k = Some v
    \/ exists value, In value values /\ regionEntry value = Some (k, v).
Proof.
  induction values as [|value values IH]; intros table k v H;
    cbn [fold_left] in H; [left; exact H|].
  destruct (IH _ _ _ H) as [H'|(w & Hw & He)].
  - destruct (regionEntry value) as [[code id]|] eqn:E; [|left; exact H'].
    destruct (decide (code = k)) as [->|Hne].
    + rewrite lookup_insert_eq in H'. injection H' as <-.
      right. exists value. split; [left; reflexivity|exact E].
    + rewrite lookup_insert_ne in H' by exact Hne. left. exact H'.
  - right. exists w. split; [right; exact Hw|exact He].
Qed.

Lemma fold_regions_keep (values : list json) (k : jsstring) :
  Forall (fun value => forall v, regionEntry value <> Some (k, v)) values ->
  forall table : gmap jsstring Q,
    fold_left addRegion values table !! k = table !! k.
Proof.
  induction 1 as [|value values Hvalue _ IH]; intros table; [reflexivity|].
  cbn [fold_left]. rewrite IH.
  destruct (regionEntry value) as [[code id]|] eqn:E; [|reflexivity].
  apply lookup_insert_ne. intros ->. exact (Hvalue id eq_refl).
Qed.

End RegionTable.

(** X20. Every entry of the region table comes
    from a region of the map document: an object with a text under
    [RegionCode] and, under [RegionID], a finite number or a text that
    converts to one; the key of the entry is that text trimmed and put
    in lower case by the runtime, and is never empty; its value is that
    number.  Of the regions with the same key the last one sets the id;
    and a node whose name, trimmed and in lower case, is that key gets
    the id of that region as its sort key. *)
Theorem region_table_entries `{Runtime} (regions : json) :
  (forall k v,
     regionsTable regions !! k = Some v ->
     k <> []
     /\ exists region code,
          In (JObj region) (Object_values regions)
          /\ holds region (lit "RegionCode") (JStr code)
          /\ k = toLowerCase (trim code)
          /\ numberField region (lit "RegionID") v)
  /\ (forall before region after code v,
        Object_values regions = before ++ JObj region :: after ->
        holds region (lit "RegionCode") (JStr code) ->
        toLowerCase (trim code) <> [] ->
        numberField region (lit "RegionID") v ->
        Forall (fun later =>
                  forall v', ~ setsEntry later (toLowerCase (trim code)) v')
          after ->
        regionsTable regions !! toLowerCase (trim code) = Some v
        /\ forall node,
             toLowerCase (trim (n_name node)) = toLowerCase (trim code) ->
             regionSortValue node (regionsTable regions) = Some v).
Proof.
  split.
  - intros k v Hk. unfold regionsTable in Hk.
    apply fold_regions_In in Hk as [Hk|(value & Hin & He)];
      [rewrite lookup_empty in Hk; discriminate|].
    apply regionEntry_sets in He
      as (region & code & -> & Hcode & -> & Hne & Hid).
    split; [exact Hne|]. exists region, code.
    split; [exact Hin|]. split; [exact Hcode|]. split; [reflexivity|exact Hid].
  - intros before region after code v Hvalues Hcode Hne Hid Hafter.
    assert (He : regionEntry (JObj region) = Some (toLowerCase (trim code), v)).
    { apply regionEntry_sets. exists region, code. repeat split; assumption. }
    assert (Hk : regionsTable regions !! toLowerCase (trim code) = Some v).
    { unfold regionsTable. rewrite Hvalues, fold_left_app. cbn [fold_left].
      rewrite fold_regions_keep, He; [apply lookup_insert_eq|].
      eapply Forall_impl; [|exact Hafter].
      intros later Hlater v' Hv'. apply (Hlater v').
      apply regionEntry_sets, Hv'. }
    split; [exact Hk|]. intros node Hname.
    unfold regionSortValue. rewrite Hname, Hk. reflexivity.
Qed.

Lemma region_table_entries_witness :
  regionsTable (H := asciiRuntime) exampleRegions !! lit "nyc" = Some 1%Q
  /\ regionSortValue (H := asciiRuntime) nodeA
       (regionsTable (H := asciiRuntime) exampleRegions)
     = Some 1%Q.
Proof.
  assert (Hcode : holds [(lit "RegionID", JNum (Fin 1));
                         (lit "RegionCode", JStr (lit " NYC "))]
                    (lit "RegionCode") (JStr (lit " NYC "))).
  { exists [(lit "RegionID", JNum (Fin 1))], []. split; [reflexivity|].
    intros [E|[]]. discriminate E. }
  assert (Hid : numberField (H := asciiRuntime)
                  [(lit "RegionID", JNum (Fin 1));
                   (lit "RegionCode", JStr (lit " NYC "))]
                  (lit "RegionID") 1%Q).
  { left. exists [], [(lit "RegionCode", JStr (lit " NYC "))].
    split; [reflexivity|]. intros []. }
  assert (Hne : toLowerCase (Runtime := asciiRuntime) (trim (lit " NYC "))
                <> []) by discriminate.
  destruct (proj2 (region_table_entries (H := asciiRuntime) exampleRegions)
              [] _ [JObj [(lit "RegionID", JNum (Fin 2));
                          (lit "RegionCode", JStr (lit "sea"))]]
              (lit " NYC ") 1%Q eq_refl Hcode Hne Hid) as [H1 H2].
  { constructor; [|constructor].
    intros v' (region & code & E & Hc & Hk & _). injection E as <-.
    assert (Hsea : holds [(lit "RegionID", JNum (Fin 2));
                          (lit "RegionCode", JStr (lit "sea"))]
                     (lit "RegionCode") (JStr (lit "sea"))).
    { exists [(lit "RegionID", JNum (Fin 2))], []. split; [reflexivity|].
      intros [E|[]]. discriminate E. }
    pose proof (holds_unique _ _ _ _ Hc Hsea) as E. injection E as ->.
    discriminate Hk. }
  split; [exact H1|]. apply H2. reflexivity.
Defined.

Lemma regionSortValue_empty `{Runtime} (node : ProbeNodeResult) :
  regionSortValue node ∅ = None.
Proof. unfold regionSortValue. rewrite !lookup_empty. reflexivity. Qed.

(** X21. Without a readable region table the nodes are
    ordered by name.  The table is empty when no location is configured
    or the location is blank, and when the path conversion, the read or
    the decoding fails, or the document has no [Regions] object; and
    over the empty table the parsers return their nodes ordered by
    [localeCompare] on the name and then on the region, provided that
    [localeCompare], a consistent comparator, takes no two different
    names of the returned nodes for equal. *)
Theorem no_region_table `{RT : Runtime} `{!LocaleOrder RT} `{FS : FileSystem} :
  loadRegionIdMapFromDerpMap None = ∅
  /\ (forall location,
        trim location = [] -> loadRegionIdMapFromDerpMap (Some location) = ∅)
  /\ (forall location,
        (startsWith (lit "file://") location = true
         /\ fileURLToPath location = None)
        \/ (exists path,
              (if startsWith (lit "file://") location
               then fileURLToPath location else Some location) = Some path
              /\ (readFileSync path = None
                  \/ exists content,
                       readFileSync path = Some content
                       /\ (JSON_parse content = None
                           \/ exists parsed,
                                JSON_parse content = Some parsed
                                /\ match parsed with
                                   | JObj props =>
                                       match RawEngine.getProp
                                               (lit "Regions") props with
                                       | Some (JObj _) | Some (JArr _) =>
                                           False
                                       | _ => True
                                       end
                                   | _ => True
                                   end))) ->
        loadRegionIdMapFromDerpMap (Some location) = ∅)
  /\ (forall stderr checkedAt,
        (separatedNames (LogEngine.parseNodesFromProbeLog stderr checkedAt ∅)
         -> StronglySorted nameLe
              (LogEngine.parseNodesFromProbeLog stderr checkedAt ∅))
        /\ (separatedNames
              (RawEngine.parseNodesFromProbeLog stderr checkedAt ∅)
            -> StronglySorted nameLe
                 (RawEngine.parseNodesFromProbeLog stderr checkedAt ∅))).
Proof.
  split; [reflexivity|]. split; [|split].
  - intros location Hblank. unfold loadRegionIdMapFromDerpMap.
    rewrite Hblank. cbn [nonEmpty negb]. rewrite orb_true_r. reflexivity.
  - intros location Hcause. unfold loadRegionIdMapFromDerpMap.
    destruct (negb (nonEmpty location) || negb (nonEmpty (trim location)));
      [reflexivity|].
    unfold readRegions.
    destruct Hcause as [[Hfile Hpath]|(path & Hpath & Hread)].
    + rewrite Hfile, Hpath. reflexivity.
    + rewrite Hpath. cbn [mbind option_bind].
      destruct Hread as [Hread|(content & Hread & Hparse)];
        rewrite Hread; cbn [mbind option_bind]; [reflexivity|].
      destruct Hparse as [Hparse|(parsed & Hparse & Hshape)];
        rewrite Hparse; cbn [mbind option_bind]; [reflexivity|].
      destruct parsed as [| | | | |props]; try reflexivity.
      destruct (RawEngine.getProp (lit "Regions") props) as [[| | | | |]|];
        try reflexivity; destruct Hshape.
  - assert (Hsorted : forall l,
              separatedNames (Array_sort (compareNodes ∅) l) ->
              StronglySorted nameLe (Array_sort (compareNodes ∅) l)).
    { intros l Hsep.
      eapply StronglySorted_weaken;
        [|apply (sort_by_nodeLe ∅ _ l Hsep)].
      - intros x y Hxy. unfold nodeLe in Hxy.
        rewrite !regionSortValue_empty in Hxy. exact Hxy.
      - intros a Ha.
        apply (Permutation_in _
                 (Permutation_sym (Array_sort_Permutation _ l))), Ha. }
    intros stderr checkedAt. split; apply Hsorted.
Qed.

Lemma no_region_table_witness :
  let nodes :=
    LogEngine.parseNodesFromProbeLog (H := collatingRuntime)
      (lit "good: derp/nyc/us-east/udp: 31ms" ++ [10%N]
       ++ lit "good: derp/Lhr/eu-west/udp: 12ms") (lit "now") ∅ in
  loadRegionIdMapFromDerpMap (H := collatingRuntime) (H0 := emptyFileSystem)
    (Some (lit "/tmp/derp-map.json")) = ∅
  /\ separatedNames (H := collatingRuntime) nodes
  /\ map n_name nodes = [lit "Lhr"; lit "nyc"]
  /\ StronglySorted (nameLe (H := collatingRuntime)) nodes.
Proof.
  intros nodes.
  pose proof (@no_region_table collatingRuntime collatingRuntime_locale
                emptyFileSystem) as (_ & _ & Hload & Hsort).
  assert (Hsep : separatedNames (H := collatingRuntime) nodes).
  { intros x y Hx Hy E. vm_compute in Hx, Hy.
    destruct Hx as [<-|[<-|[]]], Hy as [<-|[<-|[]]]; try reflexivity;
      vm_compute in E; discriminate E. }
  split.
  - apply Hload. right. exists (lit "/tmp/derp-map.json").
    split; [reflexivity|]. left. reflexivity.
  - split; [exact Hsep|]. split; [vm_compute; reflexivity|].
    exact (proj1 (Hsort _ _) Hsep).
Defined.

(** ** The route handler and the dashboard *)

Lemma exitError_text (code : option Z) :
  exists c text, exitError false code = Some (c :: text).
Proof.
  unfold exitError. cbn [negb]. destruct code as [z|].
  - change (lit "derpprobe exited with code ")
      with (100%N :: lit "erpprobe exited with code ").
    cbn [app]. eauto.
  - change (lit "derpprobe exited with an unknown error")
      with (100%N :: lit "erpprobe exited with an unknown error").
    eauto.
Qed.

Lemma GET_ok (r : ProbeResponse) :
  r_ok r = true ->
  h_status (GET r) = 200 /\ Dashboard.shownError (GET r) = None.
Proof.
  intros Hok. unfold Dashboard.shownError, Dashboard.responseOk, GET.
  cbn [h_status h_body]. rewrite Hok. split; reflexivity.
Qed.

Lemma GET_failed (r : ProbeResponse) :
  r_ok r = false ->
  h_status (GET r) = 503
  /\ Dashboard.shownError (GET r)
     = Some match r_error r with
            | Some (c :: error) => c :: error
            | _ =>
                match r_stderr r with
                | Some (c :: stderr) => c :: stderr
                | _ => Dashboard.fallbackError
                end
            end.
Proof.
  intros Hok. unfold Dashboard.shownError, Dashboard.responseOk, GET.
  cbn [h_status h_body]. rewrite Hok. split; reflexivity.
Qed.

Lemma shownError_nonempty (h : HttpResponse) :
  Dashboard.shownError h <> Some [].
Proof.
  unfold Dashboard.shownError. destruct (Dashboard.responseOk h);
    [discriminate|].
  destruct (r_error (h_body h)) as [[|c e]|]; try discriminate;
    destruct (r_stderr (h_body h)) as [[|c' s]|]; discriminate.
Qed.

Lemma displayed_general `{Runtime} (timeoutMs : Q) (o : Outcome)
    (r : ProbeResponse) :
  let h := GET r in
  (h_status h = 200 <-> r_ok r = true)
  /\ (h_status h = 503 <-> r_ok r = false)
  /\ (Dashboard.shownError h = None <-> r_ok r = true)
  /\ Dashboard.shownError h <> Some [].
Proof.
  cbv zeta. pose proof (shownError_nonempty (GET r)) as Hne.
  destruct (r_ok r) eqn:Hok.
  - destruct (GET_ok r Hok) as [E1 E2]. rewrite E2 in Hne. rewrite E1, E2.
    repeat split; first [discriminate | exact Hne].
  - destruct (GET_failed r Hok) as [E1 E2]. rewrite E2 in Hne.
    rewrite E1, E2.
    repeat split; first [discriminate | exact Hne].
Qed.

Lemma displayed_failure `{Runtime} {S : Type} (i : Invocation S)
    (clock : Clock) :
  displayed (i_timeoutMs i) TimedOut
    (failure i clock
       (lit "derpprobe timed out after "
        ++ numberToString (i_timeoutMs i) ++ lit "ms"))
  /\ forall message, displayed (i_timeoutMs i) LaunchFailed
                       (failure i clock message).
Proof.
  split; [|intros message]; unfold displayed; cbv zeta;
    match goal with
    | |- context [GET ?r] =>
        destruct (displayed_general (i_timeoutMs i) Completed r)
          as (H1 & H2 & H3 & H4);
        destruct (GET_failed r eq_refl) as [_ Hshown]
    end;
    (split; [exact H1|]); (split; [exact H2|]); (split; [exact H3|]);
    (split; [exact H4|]); (split; [reflexivity|]).
  - rewrite Hshown. cbn [failure r_error r_stderr].
    change (lit "derpprobe timed out after ")
      with (100%N :: lit "erpprobe timed out after ").
    reflexivity.
  - exists message. split; [reflexivity|]. rewrite Hshown.
    cbn [failure r_error r_stderr]. destruct message; reflexivity.
Qed.

Lemma displayed_completed `{Runtime} (timeoutMs : Q) (r : ProbeResponse) :
  (exists code, r_error r = exitError (r_ok r) code) ->
  displayed timeoutMs Completed r.
Proof.
  intros [code Herr]. unfold displayed. cbv zeta.
  destruct (displayed_general timeoutMs Completed r) as (H1 & H2 & H3 & H4).
  split; [exact H1|]. split; [exact H2|]. split; [exact H3|].
  split; [exact H4|]. intros Hok. rewrite Hok in Herr.
  destruct (exitError_text code) as (c & text & E). rewrite E in Herr.
  exists (c :: text). split; [exact Herr|].
  rewrite (proj2 (GET_failed r Hok)), Herr. reflexivity.
Qed.

Section SupervisorDisplay.

Context `{RT : Runtime} {S : Type}.
Variable onClose : Z -> S -> jsstring -> jsstring -> option Z -> Clock
                   -> S * ProbeResponse.
Variable pipesStdout : bool.
Variable timeoutMs : Q.

Notation sstep := (step onClose pipesStdout).
Notation srun := (run onClose pipesStdout).

Hypothesis onClose_displayed :
  forall startedAt st stdout stderr code clock,
    displayed timeoutMs Completed
      (snd (onClose startedAt st stdout stderr code clock)).

Lemma step_displays (i : Invocation S) (e : Event) :
  displays timeoutMs i -> displays timeoutMs (sstep i e).
Proof.
  intros [Ht Hall].
  destruct (displayed_failure i (match e with
                                 | TimerFired clock | ChildError _ clock
                                 | ChildClose _ clock => clock
                                 | _ => {| nowMs := 0; isoNow := [];
                 createdMs := fun _ => 0 |}
                                 end)) as [Htimeout Hlaunch].
  rewrite Ht in Htimeout, Hlaunch. unfold displays.
  destruct e; cbn [step].
  - destruct (timerPending i); [|split; assumption]. unfold onTimeout.
    destruct (settled i); cbn [resolves i_timeoutMs]; [split; assumption|].
    split; [exact Ht|]. apply Forall_app. split; [exact Hall|].
    constructor; [|constructor]. cbn [fst snd]. rewrite Ht. exact Htimeout.
  - destruct pipesStdout; split; assumption.
  - split; assumption.
  - unfold onError. destruct (settled i); cbn [resolves i_timeoutMs];
      [split; assumption|].
    split; [exact Ht|]. apply Forall_app. split; [exact Hall|].
    constructor; [|constructor]. apply Hlaunch.
  - unfold onCloseEvent. destruct (settled i); [split; assumption|].
    pose proof (onClose_displayed (i_startedAt i) (store i) (stdoutText i)
                  (stderrText i) code clock) as Hc.
    destruct (onClose _ _ _ _ _ _) as [st' r]. cbn [resolves i_timeoutMs].
    split; [exact Ht|]. apply Forall_app. split; [exact Hall|].
    constructor; [exact Hc|constructor].
Qed.

Lemma run_displays (events : list Event) :
  forall i : Invocation S,
    displays timeoutMs i ->
    forall o r,
      outcome (srun i events) = Some o ->
      result (srun i events) = Some r ->
      displayed timeoutMs o r.
Proof.
  induction events as [|e events IH]; intros i Hi o r.
  - cbn [run fold_left]. unfold outcome, result. destruct Hi as [_ Hall].
    destruct (resolves i) as [|[o0 r0] rest]; [discriminate|].
    intros [= <-] [= <-]. inversion Hall; subst. assumption.
  - rewrite run_cons. apply IH. apply step_displays. exact Hi.
Qed.

End SupervisorDisplay.

(** X22. What the route and the dashboard make of
    a cycle, in both revisions and whatever the events: the status is
    200 for an ok response and 503 otherwise, the dashboard shows an
    error exactly for a response that is not ok, and never an empty
    one.  After a failed completion or a timeout the text shown is the
    [error] text of the engine, never the diagnostic output and never
    the fallback text; those can only show after a launch failure whose
    message is empty. *)
Theorem failed_cycle_display `{Runtime} (regionIdMap : gmap jsstring Q)
    command args timeoutMs startedAt (events : list Event) :
  (forall st o r,
     let i := LogEngine_run regionIdMap
                (spawnWith command args timeoutMs startedAt st) events in
     outcome i = Some o -> result i = Some r -> displayed timeoutMs o r)
  /\ (forall o r,
        let i := RawEngine_run regionIdMap
                   (spawnWith command args timeoutMs startedAt tt) events in
        outcome i = Some o -> result i = Some r -> displayed timeoutMs o r).
Proof.
  split.
  - intros st o r. cbv zeta. unfold LogEngine_run. apply run_displays.
    + intros startedAt' st' stdout stderr code clock.
      apply displayed_completed. exists code.
      unfold LogEngine_onClose, LogEngine.complete.
      destruct (LogEngine.updateNodeLossFromHistory _ _ _ _) as [st'' nodes].
      reflexivity.
    + split; [reflexivity|constructor].
  - intros o r. cbv zeta. unfold RawEngine_run. apply run_displays.
    + intros startedAt' st' stdout stderr code clock.
      apply displayed_completed. exists code. reflexivity.
    + split; [reflexivity|constructor].
Qed.

(** ** [formatMs] *)

Lemma toFixed2_hundredths (v : Q) :
  (0 <= v)%Q ->
  let k := Qfloor (v * 100 + (1 # 2))%Q in
  (toFixed2 v == k # 100)%Q
  /\ Qfloor (toFixed2 v * 100 + (1 # 2))%Q = k.
Proof.
  intros Hv. cbv zeta. unfold toFixed2.
  apply Qle_bool_iff in Hv. rewrite Hv.
  set (k := Qfloor (v * 100 + (1 # 2))%Q).
  assert (E : (Qred (k # 100) == k # 100)%Q) by apply Qred_correct.
  split; [exact E|].
  assert (E' : (Qred (k # 100) * 100 + (1 # 2) == inject_Z k + (1 # 2))%Q).
  { rewrite E. unfold Qeq, Qplus, Qmult, inject_Z. cbn. lia. }
  rewrite (Qfloor_comp _ _ E').
  apply Z.le_antisymm.
  - apply Z.lt_succ_r. rewrite Zlt_Qlt.
    eapply Qle_lt_trans; [apply Qfloor_le|].
    unfold Z.succ. rewrite inject_Z_plus. change (inject_Z 1) with 1%Q. lra.
  - rewrite <- (Qfloor_Z k) at 1. apply Qfloor_resp_le. lra.
Qed.

Lemma literalOf_04 :
  literalOf (4 # 10) = (3602879701896397 # 9007199254740992)%Q.
Proof. vm_compute. reflexivity. Qed.

(** X23. What [formatMs] prints for a finite latency, a
    binary64 number: up to the number that the literal 0.4 denotes it
    prints [0 ms]; above it and below 1 it prints the number rounded to
    hundredths with two decimals, from [0.40 ms] to [1.00 ms], so that
    the inner test for a value that rounds to zero never fires; from 1
    on it prints the number rounded to a whole number, which is at least
    1, in decimal digits as long as that is at most 2^53. *)
Theorem formatMs_text `{RT : Runtime} `{!NumberPrinting RT} (v : Q) :
  isDouble v ->
  ((v <= literalOf (4 # 10))%Q ->
   Dashboard.formatMs (Some (Dashboard.Finite v)) = lit "0 ms")
  /\ ((literalOf (4 # 10) < v)%Q -> (v < 1)%Q ->
      let k := Qfloor (v * 100 + (1 # 2))%Q in
      40 <= k <= 100
      /\ Qeq_bool (toFixed2 v) 0 = false
      /\ Dashboard.formatMs (Some (Dashboard.Finite v))
         = hundredthsText k ++ lit " ms")
  /\ ((1 <= v)%Q ->
      let n := Qfloor (v + (1 # 2))%Q in
      1 <= n
      /\ (n <= 9007199254740992 ->
          Dashboard.formatMs (Some (Dashboard.Finite v))
          = decimal n ++ lit " ms")).
Proof.
  intros _. split; [|split].
  - intros Hv. unfold Dashboard.formatMs.
    rewrite (proj2 (Qle_bool_iff _ _) Hv). reflexivity.
  - intros Hlo Hhi. cbv zeta.
    assert (Hlo' : (4 # 10 < v)%Q).
    { rewrite literalOf_04 in Hlo. lra. }
    assert (H0 : (0 <= v)%Q) by lra.
    destruct (toFixed2_hundredths v H0) as [Hk Hfloor].
    set (k := Qfloor (v * 100 + (1 # 2))%Q) in *.
    assert (Hrange : 40 <= k <= 100).
    { split.
      - change 40 with (Qfloor (40 # 1)). apply Qfloor_resp_le. lra.
      - change 100 with (Qfloor (201 # 2)). apply Qfloor_resp_le. lra. }
    assert (Hnz : Qeq_bool (toFixed2 v) 0 = false).
    { destruct (Qeq_bool (toFixed2 v) 0) eqn:E; [|reflexivity].
      apply Qeq_bool_iff in E. rewrite Hk in E.
      unfold Qeq in E. cbn [Qnum Qden] in E. lia. }
    split; [exact Hrange|]. split; [exact Hnz|].
    unfold Dashboard.formatMs, Qltb.
    rewrite (proj2 (Qle_bool_false _ _) Hlo), (proj2 (Qle_bool_false _ _) Hhi).
    cbv zeta. cbn [negb]. rewrite Hnz.
    unfold Dashboard.toFixed2Text, hundredthsText. rewrite Hfloor.
    reflexivity.
  - intros Hv. cbv zeta.
    assert (H1 : 1 <= Qfloor (v + (1 # 2))%Q).
    { assert (Hle : (1 <= v + (1 # 2))%Q) by lra.
      exact (Qfloor_resp_le 1 _ Hle). }
    split; [exact H1|]. intros Hmax.
    unfold Dashboard.formatMs.
    assert (Hlo : (literalOf (4 # 10) < v)%Q).
    { rewrite literalOf_04. lra. }
    rewrite (proj2 (Qle_bool_false _ _) Hlo), (proj2 (Qltb_false _ _) Hv).
    unfold Math_round. rewrite numberToString_integer by lia. reflexivity.
Qed.

Lemma formatMs_text_witness :
  isDouble (literalOf (995 # 1000))
  /\ Dashboard.formatMs (H := asciiRuntime)
       (Some (Dashboard.Finite (literalOf (995 # 1000))))
     = lit "0.99 ms"
  /\ Dashboard.formatMs (H := asciiRuntime)
       (Some (Dashboard.Finite (literalOf (4 # 10))))
     = lit "0 ms".
Proof.
  assert (Hd : isDouble (literalOf (995 # 1000)))
    by (vm_compute; reflexivity).
  assert (Hd' : isDouble (literalOf (4 # 10))) by (vm_compute; reflexivity).
  split; [exact Hd|]. split.
  - destruct (@formatMs_text asciiRuntime asciiRuntime_prints_integers
                (literalOf (995 # 1000)) Hd) as (_ & H & _).
    assert (Hlo : (literalOf (4 # 10) < literalOf (995 # 1000))%Q)
      by (vm_compute; reflexivity).
    assert (Hhi : (literalOf (995 # 1000) < 1)%Q)
      by (vm_compute; reflexivity).
    destruct (H Hlo Hhi) as (_ & _ & E). rewrite E.
    vm_compute. reflexivity.
  - exact (proj1 (@formatMs_text asciiRuntime asciiRuntime_prints_integers
                    (literalOf (4 # 10)) Hd') (Qle_refl _)).
Defined.
